(** * AWSextract: the batch extraction pipeline

    A shallow embedding of the two source files that carry the pipeline,

      - [src/gspread_from_s3.py]: [exponential_backoff], [retry_with_backoff]
        and [extract_gz_content];
      - [src/commoncrawl-processor.py]: [query_index], [save_to_s3] and
        [process_with_dask];

    followed by the properties of the specification that concern them.

    Conventions.  A Python [str] is the list of its code points, [bytes] is
    a list of [byte].  A call that can raise returns a [result].  Code that
    talks to the outside (HTTP, S3, the clock, a sleeping thread, stdout) is
    written in state-passing style and appends what it does to a trace, so
    that calls, writes and waits can be counted.  Library functions that the
    repository calls but does not define ([json.loads], [bytes.decode],
    warcio's [ArchiveIterator], pandas, ...) are section variables: every
    theorem holds for any implementation of them; concrete instances are
    given only to evaluate examples.  A finite [float] is the rational it
    stands for, and float arithmetic rounds to the nearest double. *)

From Stdlib Require Import Bool String Ascii Strings.Byte ZArith NArith QArith Qminmax Qround Qabs Qpower List Lia.
From Stdlib Require Import Sorting.Sorted.
Import ListNotations.

Set Implicit Arguments.
Set Warnings "-register-all".
Close Scope Q_scope.

(* ------------------------------------------------------------------ *)
(** * Python values shared by both files *)
(* ------------------------------------------------------------------ *)

Module Py.

(** [str]: a sequence of Unicode code points. *)
Definition str := list N.

Definition py (s : string) : str :=
  map N_of_ascii (list_ascii_of_string s).

(** [a == b] *)
Fixpoint str_eqb (a b : str) : bool :=
  match a, b with
  | [], [] => true
  | x :: a', y :: b' => (x =? y)%N && str_eqb a' b'
  | _, _ => false
  end.

(** Exceptions, as far as the modelled code tells them apart.  All of
    them are subclasses of [Exception]. *)
Inductive exn :=
| APIError (status_code : Z)     (* gspread.exceptions.APIError, e.response.status_code *)
| Exception (msg : string)       (* raise Exception(msg) *)
| Error (class : string).        (* any other class, by name *)

Inductive result (A : Type) :=
| Ok (a : A)
| Raise (e : exn).
Arguments Ok {A} a.
Arguments Raise {A} e.

(** [bytes]. *)
Definition bytes := list Byte.byte.

(** What [json.loads] can return: [None], [bool], [int], [float] (kept as
    the literal it was read from), [str], [list], [dict] (keys in
    insertion order, each once). *)
Inductive json :=
| JNone
| JBool (b : bool)
| JInt (z : Z)
| JFloat (literal : str)
| JStr (s : str)
| JList (items : list json)
| JDict (members : list (str * json)).

(** [d.get(key)] on the members of a dict: [None] when absent. *)
Fixpoint dict_get (members : list (str * json)) (key : str) : json :=
  match members with
  | [] => JNone
  | (k, v) :: rest => if str_eqb k key then v else dict_get rest key
  end.

(** [d[key] = v]: replaces the value of a key already there, appends a
    new key at the end. *)
Fixpoint dict_set (members : list (str * json)) (key : str) (v : json)
  : list (str * json) :=
  match members with
  | [] => [(key, v)]
  | (k, v0) :: rest =>
      if str_eqb k key then (k, v) :: rest else (k, v0) :: dict_set rest key v
  end.

(** [x == s] for a value [x] and a [str] [s]. *)
Definition json_eq_str (x : json) (s : str) : bool :=
  match x with
  | JStr t => str_eqb t s
  | _ => false
  end.

(** [s.startswith(prefix)] *)
Fixpoint startswith (s prefix : str) : bool :=
  match prefix, s with
  | [], _ => true
  | _ :: _, [] => false
  | p :: prefix', c :: s' => (c =? p)%N && startswith s' prefix'
  end.

(** [needle in s] *)
Fixpoint contains (needle s : str) : bool :=
  startswith s needle
  || match s with
     | [] => false
     | _ :: s' => contains needle s'
     end.

(** [s[:n]] for [n >= 0] *)
Definition slice_to (n : nat) (s : str) : str := firstn n s.

(** The value of [2 ** n] for a loop index [n]. *)
Definition pow2 (n : nat) : Z := 2 ^ Z.of_nat n.

(** [range(n)]: empty for [n <= 0]. *)
Definition range (n : Z) : list nat := seq 0 (Z.to_nat n).

(** ** Floats *)

(** A Python [float] is an IEEE-754 binary64 number.  The finite ones
    are rationals, and every operation returns the double nearest to
    the exact result, ties going to the even significand. *)

(** The integer nearest to [y], ties to the even one. *)
Definition round_half_even (y : Q) : Z :=
  let floor := Qfloor y in
  match (2 * (Qnum y mod Zpos (Qden y)) ?= Zpos (Qden y))%Z with
  | Lt => floor
  | Gt => (floor + 1)%Z
  | Eq => if Z.even floor then floor else (floor + 1)%Z
  end.

(** [floor(log2 |x|)] for [x <> 0]: the quotient of the bit lengths, or
    one less. *)
Definition binade (x : Q) : Z :=
  let e := (Z.log2 (Z.abs (Qnum x)) - Z.log2 (Zpos (Qden x)))%Z in
  if Qle_bool (2 ^ e) (Qabs x) then e else (e - 1)%Z.

(** The double nearest to [x]: 53 significant bits, subnormal numbers
    below [2 ** -1022].  Results beyond the largest double, which
    Python gives as [inf], do not arise from the sums formed here. *)
Definition float_round (x : Q) : Q :=
  if (Qnum x =? 0)%Z then 0%Q
  else
    let s := (52 - Z.max (binade x) (-1022))%Z in
    Qred (inject_Z (round_half_even (x * 2 ^ s)) * 2 ^ (- s)).

(** The first int that [float(n)] refuses: halfway between the largest
    double and [2 ** 1024]. *)
Definition float_limit : Z := 2 ^ 1024 - 2 ^ 970.

(** [float(n)] for an int, as done to the int operand of [n + x]:
    [OverflowError: int too large to convert to float]. *)
Definition float_of_int (n : Z) : result Q :=
  if (Z.abs n <? float_limit)%Z then Ok (float_round (inject_Z n))
  else Raise (Error "OverflowError").

(** [n + x] for an int [n] and a float [x]. *)
Definition int_add_float (n : Z) (x : Q) : result Q :=
  match float_of_int n with
  | Ok f => Ok (float_round (f + x))
  | Raise e => Raise e
  end.

End Py.

(* ------------------------------------------------------------------ *)
(** * src/gspread_from_s3.py: retrying a rate-limited call *)
(* ------------------------------------------------------------------ *)

Module Retry.
Import Py.

(** What [retry_with_backoff] does that can be observed from outside, in
    the order it does it. *)
Inductive event :=
| Invoke                                   (* func() *)
| PrintRateLimit (attempt max_attempts : Z)
    (* print(f"Rate limit hit, attempt {attempt + 1} of {max_attempts}") *)
| Sleep (wait_time : Q).                   (* time.sleep(wait_time) *)

(** The side of the process the retry loop acts on: the trace and the
    number of values drawn so far from the random generator. *)
Record proc := { trace : list event; draws : nat }.

Definition emit (ev : event) (p : proc) : proc :=
  {| trace := trace p ++ [ev]; draws := draws p |}.

Definition sleeps (t : list event) : list Q :=
  flat_map (fun ev => match ev with Sleep q => [q] | _ => [] end) t.

Definition invocations (t : list event) : nat :=
  length (filter (fun ev => match ev with Invoke => true | _ => false end) t).

(** The rate limits reported. *)
Definition rate_limits (t : list event) : nat :=
  length (filter (fun ev => match ev with PrintRateLimit _ _ => true | _ => false end) t).

(** [raise Exception("Max retry attempts reached")] *)
Definition retry_exhausted : exn := Exception "Max retry attempts reached".

Section Code.
(** [W] is whatever [func] reads and changes (the spreadsheet service,
    its own closure); [A] is what it returns. *)
Context {W A : Type}.

(** The [n]-th value returned by [uniform(0, 1)]. *)
Variable uniform01 : nat -> Q.

(** [wait_time = min(300, (2 ** attempt) + uniform(0, 1))]: the sum of
    an int and a float. *)
Definition wait_time (attempt : nat) (jitter : Q) : result Q :=
  match int_add_float (pow2 attempt) jitter with
  | Ok sum => Ok (Qmin 300 sum)
  | Raise e => Raise e
  end.

(** [exponential_backoff(attempt)]: both operands of the sum are
    evaluated, so the random number is drawn, before the sum is
    formed. *)
Definition exponential_backoff (attempt : nat) (p : proc) : result unit * proc :=
  let jitter := uniform01 (draws p) in
  let p := {| trace := trace p; draws := S (draws p) |} in
  match wait_time attempt jitter with
  | Ok w => (Ok tt, emit (Sleep w) p)
  | Raise e => (Raise e, p)
  end.

Variable func : W -> result A * W.

(** The body of [for attempt in range(max_attempts)], over the attempts
    still to come; falling out of the loop raises.  An exception raised
    inside the [except] branch leaves the function. *)
Fixpoint retry_loop (max_attempts : Z) (attempts : list nat) (w : W) (p : proc)
  : result A * W * proc :=
  match attempts with
  | [] => (Raise retry_exhausted, w, p)
  | attempt :: rest =>
      let p := emit Invoke p in
      match func w with
      | (Ok v, w') => (Ok v, w', p)
      | (Raise (APIError status_code), w') =>
          if (status_code =? 429)%Z then
            let p := emit (PrintRateLimit (Z.of_nat attempt + 1) max_attempts) p in
            match exponential_backoff attempt p with
            | (Ok _, p) => retry_loop max_attempts rest w' p       (* continue *)
            | (Raise e, p) => (Raise e, w', p)
            end
          else (Raise (APIError status_code), w', p)
      | (Raise e, w') => (Raise e, w', p)
      end
  end.

Definition retry_with_backoff (max_attempts : Z) (w : W) (p : proc)
  : result A * W * proc :=
  retry_loop max_attempts (range max_attempts) w p.

(** [func] fails rate-limited on its next [k] calls, taking [w] to [w']. *)
Fixpoint rate_limited (k : nat) (w w' : W) : Prop :=
  match k with
  | O => w' = w
  | S k' => exists w1, func w = (Raise (APIError 429), w1)
                       /\ rate_limited k' w1 w'
  end.


(** The seconds [wait_time] gives where the sum can be formed. *)
Definition seconds (attempt : nat) (jitter : Q) : Q :=
  Qmin 300 (float_round (float_round (inject_Z (pow2 attempt)) + jitter)).

(** The waits of attempts [a, a+1, ..., a+k-1], the first of them taking
    the [d]-th random draw. *)
Fixpoint waits_from (a d k : nat) : list Q :=
  match k with
  | O => []
  | S k' => seconds a (uniform01 d) :: waits_from (S a) (S d) k'
  end.

(** What [k] rate-limited attempts in a row leave on the trace. *)
Fixpoint failed_attempts (max_attempts : Z) (a d k : nat) : list event :=
  match k with
  | O => []
  | S k' => [ Invoke;
              PrintRateLimit (Z.of_nat a + 1) max_attempts;
              Sleep (seconds a (uniform01 d)) ]
            ++ failed_attempts max_attempts (S a) (S d) k'
  end.

End Code.

(** A callable for the examples: its state counts the calls made so far;
    the first [k] are answered with HTTP 429, the next returns [v]. *)
Definition flaky {A} (k : nat) (v : A) (calls : nat) : result A * nat :=
  if calls <? k then (Raise (APIError 429), S calls) else (Ok v, S calls).

(** A jitter source for the examples: every draw is half a second. *)
Definition half_jitter (_ : nat) : Q := 1 # 2.

(** A fresh process: nothing done, nothing drawn. *)
Definition idle : proc := {| trace := []; draws := 0 |}.

End Retry.

(* ------------------------------------------------------------------ *)
(** * src/gspread_from_s3.py: previewing an archive container *)
(* ------------------------------------------------------------------ *)

Module Decoder.
Import Py.

(** One record as warcio hands it out: [record.rec_type], the value of
    [record.rec_headers.get_header('WARC-Target-URI')] when the header is
    there, and [record.content_stream().read()]. *)
Record warc_record := {
  rec_type : str;
  target_uri : option str;
  content : bytes
}.

(** What iterating over [ArchiveIterator(gz_file)] produces, one step at
    a time: the end of the archive, an exception from gzip or warcio
    while producing the next record, or a record and the rest. *)
Inductive stream :=
| Exhausted
| Broken (e : exn)
| More (record : warc_record) (rest : stream).

(** An archive that yields the records of a list and then ends. *)
Fixpoint of_list (records : list warc_record) : stream :=
  match records with
  | [] => Exhausted
  | r :: rest => More r (of_list rest)
  end.

(** An archive that yields the records of a list and then goes on as
    [rest]. *)
Fixpoint followed_by (records : list warc_record) (rest : stream) : stream :=
  match records with
  | [] => rest
  | r :: records' => More r (followed_by records' rest)
  end.

(** [response['Body']]: all that is done with it is [read()], which
    returns the whole object or raises. *)
Record StreamingBody := { read : result bytes }.

(** [s3_client.get_object(Bucket=..., Key=...)] *)
Record s3_client := { get_object : str -> str -> result StreamingBody }.

(** The environment variable and the library functions of this file. *)
Class Libraries := {
  BUCKET_NAME : str;
  (** [b.decode('utf-8')] *)
  decode_utf8 : bytes -> result str;
  (** [b.decode('utf-8', errors='ignore')] *)
  decode_utf8_ignore : bytes -> str;
  (** [json.loads(s)] *)
  json_loads : str -> result json;
  (** [str(x)] for a decoded JSON value *)
  str_of_json : json -> str;
  (** [BeautifulSoup(content, 'html.parser').get_text()] *)
  html_get_text : str -> result str;
  (** [ArchiveIterator(gzip.GzipFile(fileobj=io.BytesIO(gz_content)))] *)
  ArchiveIterator : bytes -> stream
}.

(** The three branches of [extract_gz_content]. *)
Inductive kind := WAT | WET | WARC.

(** The dict appended to [extracted_data]. *)
Record row := { URL : str; Type_ : str; Content : str }.

Inductive event :=
| GetObject (bucket key : str)           (* s3_client.get_object(...) *)
| Read (size : nat)                      (* response['Body'].read(), bytes now in memory *)
| Next                                   (* the for loop asks the iterator for a record *)
| PrintRecordError (k : kind) (e : exn)  (* print(f"Error processing WAT record: {e}") *)
| PrintExtractError (key : str) (e : exn).
    (* print(f"Error extracting content from {key}: {e}") *)

Section Code.
Context {L : Libraries}.

(** [if '.wat.gz' in key: ... elif '.wet.gz' in key: ... elif '.warc.gz' in key: ...] *)
Definition kind_of (key : str) : option kind :=
  if contains (py ".wat.gz") key then Some WAT
  else if contains (py ".wet.gz") key then Some WET
  else if contains (py ".warc.gz") key then Some WARC
  else None.

(** [if record.rec_type == 'metadata'], ['conversion'], ['response'] *)
Definition wanted (k : kind) (record : warc_record) : bool :=
  str_eqb (rec_type record)
          match k with
          | WAT => py "metadata"
          | WET => py "conversion"
          | WARC => py "response"
          end.

(** [record.rec_headers.get_header('WARC-Target-URI', 'N/A')] *)
Definition url_of (record : warc_record) : str :=
  match target_uri record with
  | Some uri => uri
  | None => py "N/A"
  end.

(** The body of the inner [try]: the dict built from one record, or the
    exception raised on the way. *)
Definition make_row (k : kind) (record : warc_record) : result row :=
  match k with
  | WAT =>
      match decode_utf8 (content record) with
      | Raise e => Raise e
      | Ok content =>
          match json_loads content with
          | Raise e => Raise e
          | Ok json_content =>
              Ok {| URL := url_of record;
                    Type_ := py "WAT";
                    Content := slice_to 500 (str_of_json json_content) |}
          end
      end
  | WET =>
      match decode_utf8 (content record) with
      | Raise e => Raise e
      | Ok content =>
          Ok {| URL := url_of record;
                Type_ := py "WET";
                Content := slice_to 500 content |}
      end
  | WARC =>
      match html_get_text (decode_utf8_ignore (content record)) with
      | Raise e => Raise e
      | Ok text =>
          Ok {| URL := url_of record;
                Type_ := py "WARC";
                Content := slice_to 500 text |}
      end
  end.

(** [for record in ArchiveIterator(gz_file): ...].  The source writes
    this loop three times, once per kind, with the record type and the
    body of the [try] changed; [k] selects the copy. *)
Fixpoint records_loop (k : kind) (max_records : Z) (it : stream)
         (extracted_data : list row) (t : list event)
  : result (list row) * list event :=
  let t := t ++ [Next] in
  match it with
  | Exhausted => (Ok extracted_data, t)
  | Broken e => (Raise e, t)
  | More record rest =>
      if (Z.of_nat (length extracted_data) >=? max_records)%Z then
        (Ok extracted_data, t)                                    (* break *)
      else if wanted k record then
        match make_row k record with
        | Ok r => records_loop k max_records rest (extracted_data ++ [r]) t
        | Raise e =>
            records_loop k max_records rest extracted_data
                         (t ++ [PrintRecordError k e])            (* continue *)
        end
      else records_loop k max_records rest extracted_data t
  end.

Definition extract_gz_content (s3 : s3_client) (key : str) (max_records : Z)
           (t : list event) : list row * list event :=
  let t := t ++ [GetObject BUCKET_NAME key] in
  match get_object s3 BUCKET_NAME key with
  | Raise e => ([], t ++ [PrintExtractError key e])
  | Ok response =>
      match read response with
      | Raise e => ([], t ++ [PrintExtractError key e])
      | Ok gz_content =>
          let t := t ++ [Read (length gz_content)] in
          let extracted_data := [] in
          match kind_of key with
          | None => (extracted_data, t)
          | Some k =>
              match records_loop k max_records (ArchiveIterator gz_content)
                                 extracted_data t with
              | (Ok extracted_data, t) => (extracted_data, t)
              | (Raise e, t) => ([], t ++ [PrintExtractError key e])
              end
          end
      end
  end.

(** [max_records=5] *)
Definition extract_gz_content_default (s3 : s3_client) (key : str)
           (t : list event) : list row * list event :=
  extract_gz_content s3 key 5 t.

(** The rows of the records of the wanted type whose [try] body goes
    through, in archive order. *)
Definition valid_rows (k : kind) (records : list warc_record) : list row :=
  flat_map (fun record =>
              if wanted k record then
                match make_row k record with
                | Ok r => [r]
                | Raise _ => []
                end
              else [])
           records.

End Code.

(** The bytes read from storage before the iterator is first asked for a
    record. *)
Fixpoint read_before_parsing (t : list event) : nat :=
  match t with
  | [] => 0
  | Next :: _ => 0
  | Read n :: t' => n + read_before_parsing t'
  | _ :: t' => read_before_parsing t'
  end.

(** Events of the decoding loop: it asks for records and reports record
    errors, nothing else. *)
Definition decoding_event (ev : event) : bool :=
  match ev with
  | Next | PrintRecordError _ _ | PrintExtractError _ _ => true
  | _ => false
  end.

End Decoder.

(* ------------------------------------------------------------------ *)
(** * src/commoncrawl-processor.py *)
(* ------------------------------------------------------------------ *)

Module Crawl.
Import Py.

(** *** [str] methods used by [query_index] *)

(** [c.isspace()] *)
Definition isspace (c : N) : bool :=
  ((9 <=? c) && (c <=? 13) || (28 <=? c) && (c <=? 32)
   || (c =? 133) || (c =? 160) || (c =? 5760)
   || (8192 <=? c) && (c <=? 8202)
   || (c =? 8232) || (c =? 8233) || (c =? 8239) || (c =? 8287)
   || (c =? 12288))%N.

Fixpoint lstrip (s : str) : str :=
  match s with
  | c :: rest => if isspace c then lstrip rest else s
  | [] => []
  end.

Definition rstrip (s : str) : str := rev (lstrip (rev s)).

(** [s.strip()] *)
Definition strip (s : str) : str := rstrip (lstrip s).

(** [s.split(sep)] for a one-character separator: never empty, [['']]
    for the empty string. *)
Fixpoint split (sep : N) (s : str) : list str :=
  match s with
  | [] => [[]]
  | c :: rest =>
      if (c =? sep)%N then [] :: split sep rest
      else match split sep rest with
           | field :: fields => (c :: field) :: fields
           | [] => [[c]]
           end
  end.

(** Truth value of a [str]: non-empty. *)
Definition truthy (s : str) : bool :=
  match s with [] => false | _ => true end.

(** *** The outside world *)

(** [requests.Response], as far as it is looked at. *)
Record response := { status_code : Z; text : str }.

(** The services the processor talks to, acting on a world [W]:
    [requests.get(cc_url, params={'url': url, 'output': 'json'})],
    [s3_client.put_object(Bucket=..., Key=..., Body=...)] and
    [datetime.now().strftime('%Y%m%d_%H%M%S')]. *)
Class World (W : Type) := {
  requests_get : str -> str -> W -> result response * W;
  put_object : str -> str -> bytes -> W -> result unit * W;
  now : W -> str * W
}.

(** The library functions of this file: [json.loads(line)], and
    [pd.DataFrame(data).to_parquet(buffer)] followed by
    [buffer.getvalue()]. *)
Class Libraries := {
  json_loads : str -> result json;
  to_parquet : list json -> result bytes
}.

Inductive event :=
| ClientOpen                                  (* client = Client() *)
| ClientClose                                 (* client.close() *)
| HttpGet (cc_url url : str)                  (* requests.get(...) *)
| PutObject (bucket key : str) (body : bytes) (* s3_client.put_object(...) *)
| PrintQueryError (index url : str) (e : exn)
    (* print(f"Error querying {index} for {url}: {e}") *)
| PrintSaved (records : nat) (key : str)
    (* print(f"Successfully saved {len(df)} records to {key}") *)
| PrintSaveError (e : exn)                    (* print(f"Error saving to S3: {e}") *)
| PrintIndex (index : str)                    (* print(f"\nProcessing index: {index}") *)
| PrintFolder (folder_name : str).            (* print(f"Processing for folder: {folder_name}") *)

Record state (W : Type) := { world : W; trace : list event }.

(** *** Code that acts on the state and can raise *)

Definition M (W A : Type) : Type := state W -> result A * state W.

Definition ret {W A} (a : A) : M W A := fun st => (Ok a, st).

Definition bind {W A B} (m : M W A) (f : A -> M W B) : M W B :=
  fun st =>
    match m st with
    | (Ok a, st') => f a st'
    | (Raise e, st') => (Raise e, st')
    end.

(** A pure computation that may raise. *)
Definition lift {W A} (r : result A) : M W A := fun st => (r, st).

Definition emit {W} (ev : event) : M W unit :=
  fun st => (Ok tt, {| world := world st; trace := trace st ++ [ev] |}).

(** A call to a service of the world. *)
Definition call {W A} (service : W -> result A * W) : M W A :=
  fun st =>
    let (r, w) := service (world st) in
    (r, {| world := w; trace := trace st |}).

(** [try: body except Exception as e: handler(e)] *)
Definition try_except {W A} (body : M W A) (handler : exn -> M W A) : M W A :=
  fun st =>
    match body st with
    | (Ok a, st') => (Ok a, st')
    | (Raise e, st') => handler e st'
    end.

(** [try: body finally: cleanup] *)
Definition try_finally {W A} (body : M W A) (cleanup : M W unit) : M W A :=
  fun st =>
    match body st with
    | (r, st') =>
        match cleanup st' with
        | (Ok _, st'') => (r, st'')
        | (Raise e, st'') => (Raise e, st'')
        end
    end.

Declare Scope py_scope.
Delimit Scope py_scope with py.
Notation "x <- m ;; k" := (bind m (fun x => k))
  (at level 61, m at next level, right associativity) : py_scope.
Notation "m ;; k" := (bind m (fun _ => k))
  (at level 61, right associativity) : py_scope.
Open Scope py_scope.

(** [for x in xs: body(x)] *)
Fixpoint for_each {W A} (xs : list A) (body : A -> M W unit) : M W unit :=
  match xs with
  | [] => ret tt
  | x :: rest => body x ;; for_each rest body
  end.

(** [[f(x) for x in xs]] where [f] may raise: the first exception ends
    the comprehension. *)
Fixpoint comprehension {A B} (f : A -> result B) (xs : list A) : result (list B) :=
  match xs with
  | [] => Ok []
  | x :: rest =>
      match f x with
      | Raise e => Raise e
      | Ok y =>
          match comprehension f rest with
          | Raise e => Raise e
          | Ok ys => Ok (y :: ys)
          end
      end
  end.

(** [[r for r in xs if p(r)]] where [p] may raise. *)
Fixpoint filter_raising {A} (p : A -> result bool) (xs : list A) : result (list A) :=
  match xs with
  | [] => Ok []
  | x :: rest =>
      match p x with
      | Raise e => Raise e
      | Ok keep =>
          match filter_raising p rest with
          | Raise e => Raise e
          | Ok ys => Ok (if keep then x :: ys else ys)
          end
      end
  end.

(** *** Dask bags

    A bag built by [db.from_sequence] and [map] is a recipe: one task
    per element, none of them run.  [compute()] runs the tasks of the
    bag it is called on, from the sequence onwards, and keeps nothing:
    a second [compute()] on a bag that shares tasks with the first runs
    them again.  The tasks run on the workers of the [Client] in some
    order; the model runs them in sequence order, which fixes the order
    of the trace and leaves the number of events of each kind as it is
    under any order. *)
Definition bag (W A : Type) : Type := list (M W A).

Definition from_sequence {W A} (xs : list A) : bag W A := map ret xs.

Definition bag_map {W A B} (f : A -> M W B) (b : bag W A) : bag W B :=
  map (fun task => bind task f) b.

Fixpoint compute {W A} (b : bag W A) : M W (list A) :=
  match b with
  | [] => ret []
  | task :: rest => x <- task ;; xs <- compute rest ;; ret (x :: xs)
  end.

(** *** The processor *)

Record CommonCrawlProcessor := { bucket_name : str; indexes : list str }.

(** [CommonCrawlProcessor(bucket_name)] *)
Definition init (bucket_name : str) : CommonCrawlProcessor :=
  {| bucket_name := bucket_name;
     indexes := [ py "CC-MAIN-2024-30"; py "CC-MAIN-2024-33";
                  py "CC-MAIN-2024-38"; py "CC-MAIN-2024-42";
                  py "CC-MAIN-2024-46"; py "CC-MAIN-2024-52" ] |}.

(** [r.get(key)]: only a dict has [get]. *)
Definition get (r : json) (key : str) : result json :=
  match r with
  | JDict members => Ok (dict_get members key)
  | _ => Raise (Error "AttributeError")
  end.

(** [lambda x: [r for r in x if r.get(key) == value]] *)
Definition only (key value : str) (x : list json) : result (list json) :=
  filter_raising (fun r => match get r key with
                           | Ok v => Ok (json_eq_str v value)
                           | Raise e => Raise e
                           end) x.

(** The dict [folders], in insertion order. *)
Definition folders : list (str * (list json -> result (list json))) :=
  [ (py "process_crawl", fun x => Ok x);
    (py "explore_crawl", only (py "status") (py "200"));
    (py "raw_data", fun x => Ok x);
    (py "processed_data", only (py "mime") (py "text/html")) ].

(** [f"https://index.commoncrawl.org/{index}-index"] *)
Definition index_endpoint (index : str) : str :=
  py "https://index.commoncrawl.org/" ++ index ++ py "-index".

Section Code.
Context {W : Type} {world_services : World W} {L : Libraries}.

(** [response.text.strip().split('\n')], the empty lines dropped *)
Definition lines_of (text : str) : list str :=
  filter truthy (split 10 (strip text)).

Definition query_index (url index : str) : M W (list json) :=
  let cc_url := index_endpoint index in
  try_except
    (emit (HttpGet cc_url url) ;;
     response <- call (requests_get cc_url url) ;;
     if (status_code response =? 200)%Z then
       lift (comprehension json_loads (lines_of (text response)))
     else ret [])
    (fun e => emit (PrintQueryError index url e) ;; ret []).

(** [boto3.client('s3')] is created on every call that has data; the
    model keeps the one store of the world. *)
Definition save_to_s3 (self : CommonCrawlProcessor) (data : list json)
           (folder_name index : str) : M W unit :=
  match data with
  | [] => ret tt                                              (* if not data: return *)
  | _ =>
      timestamp <- call (fun w => let (s, w') := now w in (Ok s, w')) ;;
      body <- lift (to_parquet data) ;;
      let key := folder_name ++ py "/" ++ index ++ py "/" ++ timestamp
                 ++ py ".parquet" in
      try_except
        (emit (PutObject (bucket_name self) key body) ;;
         call (put_object (bucket_name self) key body) ;;
         emit (PrintSaved (length data) key))
        (fun e => emit (PrintSaveError e))
  end.

(** The body of [for index in self.indexes]. *)
Definition process_index (self : CommonCrawlProcessor) (target_urls : list str)
           (index : str) : M W unit :=
  emit (PrintIndex index) ;;
  let urls_bag := from_sequence target_urls in
  let records_bag := bag_map (fun url => query_index url index) urls_bag in
  for_each folders
    (fun '(folder_name, processor_func) =>
       emit (PrintFolder folder_name) ;;
       processed_records <-
         compute (bag_map (fun x => lift (processor_func x)) records_bag) ;;
       let all_records := concat processed_records in
       save_to_s3 self all_records folder_name index).

Definition process_with_dask (self : CommonCrawlProcessor) (target_urls : list str)
  : M W unit :=
  emit ClientOpen ;;
  try_finally
    (for_each (indexes self) (process_index self target_urls))
    (emit ClientClose).

(** The list [target_urls] of [main()]. *)
Definition main_target_urls : list str :=
  [ py "*.no/*"; py "www.vg.no/*"; py "*.aftenposten.no/*";
    py "https://data.commoncrawl.org/*" ].

(** [main()], the Dask memory settings apart. *)
Definition main : M W unit :=
  let processor := init (py "fb-2024-25-12") in
  process_with_dask processor main_target_urls.

End Code.

(** Counting on a trace. *)
Definition is_query (ev : event) : bool :=
  match ev with HttpGet _ _ => true | _ => false end.

Definition is_write (ev : event) : bool :=
  match ev with PutObject _ _ _ => true | _ => false end.

Definition queries (t : list event) : nat := length (filter is_query t).

Definition writes (t : list event) : nat := length (filter is_write t).

(** [m], when it returns, has sent exactly [n] requests to the index. *)
Definition issues {W A} (n : nat) (m : M W A) : Prop :=
  forall st a st',
    m st = (Ok a, st') -> queries (trace st') = queries (trace st) + n.

(** [m], however it ends, has written at most [n] objects to the store. *)
Definition writes_at_most {W A} (n : nat) (m : M W A) : Prop :=
  forall st r st',
    m st = (r, st') -> writes (trace st') <= writes (trace st) + n.

(** [m] returns in every state, with a value that satisfies [P]. *)
Definition returns {W A} (P : A -> Prop) (m : M W A) : Prop :=
  forall st, exists a st', m st = (Ok a, st') /\ P a.

(** [isinstance(x, dict)] *)
Definition is_dict (x : json) : bool :=
  match x with JDict _ => true | _ => false end.

(** A state with nothing on the trace. *)
Definition start {W} (w : W) : state W := {| world := w; trace := [] |}.

End Crawl.

(* ------------------------------------------------------------------ *)
(** * Library stand-ins for the examples *)
(* ------------------------------------------------------------------ *)

(** The theorems below hold for any implementation of the library
    functions.  To run the code on concrete inputs the examples need
    some implementation; these are small ones, each exact on the domain
    its comment gives. *)
Module Samples.
Import Py.

(** Text with apostrophes standing for double quotes, so that JSON can
    be written down: [dq "{'a': 'b'}"] is the text [{"a": "b"}]. *)
Definition dq (s : string) : str :=
  map (fun c => if (c =? 39)%N then 34%N else c) (py s).

(** [s.encode('ascii')] of such a text. *)
Definition ascii_bytes (s : str) : bytes :=
  map (fun c => match Byte.of_N c with Some b => b | None => Byte.x3f end) s.

(** *** UTF-8, as [bytes.decode('utf-8')] reads it (RFC 3629: no overlong
    forms, no surrogates, nothing above U+10FFFF) *)

Definition continuation (b : N) : bool := ((128 <=? b) && (b <=? 191))%N.

Inductive utf8_step :=
| Done
| Char (code_point : N) (rest : list N)
| Invalid (resume : list N).   (* where decoding resumes under errors='ignore' *)

Definition utf8_next (input : list N) : utf8_step :=
  match input with
  | [] => Done
  | b0 :: r0 =>
      if (b0 <? 128)%N then Char b0 r0
      else if (b0 <? 194)%N then Invalid r0
      else if (b0 <? 224)%N then
        match r0 with
        | [] => Invalid []
        | b1 :: r1 =>
            if continuation b1
            then Char ((b0 - 192) * 64 + (b1 - 128))%N r1
            else Invalid r0
        end
      else if (b0 <? 240)%N then
        match r0 with
        | [] => Invalid []
        | b1 :: r1 =>
            if continuation b1
               && (negb (b0 =? 224)%N || (160 <=? b1)%N)
               && (negb (b0 =? 237)%N || (b1 <=? 159)%N)
            then match r1 with
                 | [] => Invalid []
                 | b2 :: r2 =>
                     if continuation b2
                     then Char ((b0 - 224) * 4096 + (b1 - 128) * 64 + (b2 - 128))%N r2
                     else Invalid r1
                 end
            else Invalid r0
        end
      else if (b0 <? 245)%N then
        match r0 with
        | [] => Invalid []
        | b1 :: r1 =>
            if continuation b1
               && (negb (b0 =? 240)%N || (144 <=? b1)%N)
               && (negb (b0 =? 244)%N || (b1 <=? 143)%N)
            then match r1 with
                 | [] => Invalid []
                 | b2 :: r2 =>
                     if continuation b2
                     then match r2 with
                          | [] => Invalid []
                          | b3 :: r3 =>
                              if continuation b3
                              then Char ((b0 - 240) * 262144 + (b1 - 128) * 4096
                                         + (b2 - 128) * 64 + (b3 - 128))%N r3
                              else Invalid r2
                          end
                     else Invalid r1
                 end
            else Invalid r0
        end
      else Invalid r0
  end.

(** [fuel] bounds the number of steps; the length of the input is enough,
    every step consumes a byte. *)
Fixpoint utf8_run (ignore : bool) (fuel : nat) (input : list N) : result str :=
  match fuel with
  | O => Ok []
  | S fuel' =>
      match utf8_next input with
      | Done => Ok []
      | Char c rest =>
          match utf8_run ignore fuel' rest with
          | Ok s => Ok (c :: s)
          | Raise e => Raise e
          end
      | Invalid resume =>
          if ignore then utf8_run ignore fuel' resume
          else Raise (Error "UnicodeDecodeError")
      end
  end.

Definition decode_utf8 (b : bytes) : result str :=
  utf8_run false (length b) (map Byte.to_N b).

Definition decode_utf8_ignore (b : bytes) : str :=
  match utf8_run true (length b) (map Byte.to_N b) with
  | Ok s => s
  | Raise _ => []
  end.

(** *** JSON: the one-level objects with string members

    [json_loads] accepts an object whose keys and values are strings
    without escapes, with JSON whitespace anywhere between tokens, and
    returns what [json.loads] returns for it; it raises on every other
    text (among them texts that [json.loads] would accept: numbers,
    nesting, escapes). *)

Definition json_space (c : N) : bool :=
  ((c =? 32) || (c =? 9) || (c =? 10) || (c =? 13))%N.

Fixpoint skip_space (s : str) : str :=
  match s with
  | c :: rest => if json_space c then skip_space rest else s
  | [] => []
  end.

(** After the opening quote: the characters up to the closing quote. *)
Fixpoint string_body (s : str) : option (str * str) :=
  match s with
  | [] => None
  | c :: rest =>
      if (c =? 34)%N then Some ([], rest)
      else if ((c =? 92) || (c <? 32))%N then None
      else match string_body rest with
           | Some (v, rest') => Some (c :: v, rest')
           | None => None
           end
  end.

Definition string_literal (s : str) : option (str * str) :=
  match s with
  | c :: rest => if (c =? 34)%N then string_body rest else None
  | [] => None
  end.

(** The members after the opening brace, up to the closing one. *)
Fixpoint members (fuel : nat) (s : str) (acc : list (str * json))
  : option (list (str * json) * str) :=
  match fuel with
  | O => None
  | S fuel' =>
      match string_literal (skip_space s) with
      | None => None
      | Some (k, s1) =>
          match skip_space s1 with
          | c :: s2 =>
              if (c =? 58)%N then
                match string_literal (skip_space s2) with
                | None => None
                | Some (v, s3) =>
                    let acc := dict_set acc k (JStr v) in
                    match skip_space s3 with
                    | c' :: s4 =>
                        if (c' =? 44)%N then members fuel' s4 acc
                        else if (c' =? 125)%N then Some (acc, s4)
                        else None
                    | [] => None
                    end
                end
              else None
          | [] => None
          end
      end
  end.

Definition json_loads (s : str) : result json :=
  let bad := Raise (Error "JSONDecodeError") in
  match skip_space s with
  | c :: s1 =>
      if (c =? 123)%N then
        match skip_space s1 with
        | c' :: s2 =>
            if (c' =? 125)%N then
              match skip_space s2 with [] => Ok (JDict []) | _ => bad end
            else
              match members (length s1) s1 [] with
              | Some (d, rest) =>
                  match skip_space rest with [] => Ok (JDict d) | _ => bad end
              | None => bad
              end
        | [] => bad
        end
      else bad
  | [] => bad
  end.

(** [repr] of a string of printable ASCII without double quote or
    backslash, as the strings above are when ASCII. *)
Definition repr_str (s : str) : str :=
  if existsb (N.eqb 39) s then [34%N] ++ s ++ [34%N] else [39%N] ++ s ++ [39%N].

Fixpoint repr_members (d : list (str * json)) : str :=
  match d with
  | [] => []
  | (k, v) :: rest =>
      repr_str k ++ py ": "
      ++ match v with JStr s => repr_str s | _ => py "None" end
      ++ match rest with [] => [] | _ => py ", " ++ repr_members rest end
  end.

(** [str(x)] for the values [json_loads] returns. *)
Definition str_of_json (x : json) : str :=
  match x with
  | JDict d => py "{" ++ repr_members d ++ py "}"
  | JStr s => s
  | _ => py "None"
  end.

(** Text of markup made of tags and character data only (no entities,
    comments, scripts): what stands between the tags. *)
Fixpoint strip_tags (in_tag : bool) (s : str) : str :=
  match s with
  | [] => []
  | c :: rest =>
      if in_tag then strip_tags (negb (c =? 62)%N) rest
      else if (c =? 60)%N then strip_tags true rest
      else c :: strip_tags false rest
  end.

Definition html_get_text (s : str) : result str := Ok (strip_tags false s).

(** *** An archive for the examples *)

Definition metadata (uri : string) (body : bytes) : Decoder.warc_record :=
  {| Decoder.rec_type := py "metadata";
     Decoder.target_uri := Some (py uri);
     Decoder.content := body |}.

(** Five records: a good one, one that is not JSON, one that is not
    UTF-8, one of another type, and a good one. *)
Definition wat_records : list Decoder.warc_record :=
  [ metadata "http://a.example/" (ascii_bytes (dq "{'lang': 'no'}"));
    metadata "http://b.example/" (ascii_bytes (dq "{'lang': "));
    metadata "http://c.example/" [Byte.xff; Byte.xfe];
    {| Decoder.rec_type := py "warcinfo";
       Decoder.target_uri := None;
       Decoder.content := [] |};
    metadata "http://d.example/" (ascii_bytes (dq "{'lang': 'en'}")) ].

(** The compressed object holding them.  Only its identity and its
    length matter here: the examples' [ArchiveIterator] knows this one
    object and finds every other input not to be gzip. *)
Definition wat_object : bytes := [Byte.x1f; Byte.x8b; Byte.x08; Byte.x00].

Fixpoint bytes_eqb (a b : bytes) : bool :=
  match a, b with
  | [], [] => true
  | x :: a', y :: b' => Byte.eqb x y && bytes_eqb a' b'
  | _, _ => false
  end.

Definition ArchiveIterator (gz_content : bytes) : Decoder.stream :=
  if bytes_eqb gz_content wat_object then Decoder.of_list wat_records
  else Decoder.Broken (Error "BadGzipFile").

Definition libraries : Decoder.Libraries := {|
  Decoder.BUCKET_NAME := py "crawl-bucket";
  Decoder.decode_utf8 := decode_utf8;
  Decoder.decode_utf8_ignore := decode_utf8_ignore;
  Decoder.json_loads := json_loads;
  Decoder.str_of_json := str_of_json;
  Decoder.html_get_text := html_get_text;
  Decoder.ArchiveIterator := ArchiveIterator
|}.

(** A bucket with that one object. *)
Definition s3 : Decoder.s3_client :=
  {| Decoder.get_object := fun bucket key =>
       if str_eqb key (py "seg/a.wat.gz")
       then Ok {| Decoder.read := Ok wat_object |}
       else Raise (Error "NoSuchKey") |}.

(** *** A world for the examples *)

(** What the services answer: the index by URL pattern, the store by
    being up or down; the clock stands still. *)
Record scenario := {
  index_answer : str -> result Crawl.response;
  store_up : bool;
  clock : str
}.

Definition world : Crawl.World scenario := {|
  Crawl.requests_get := fun cc_url url w => (index_answer w url, w);
  Crawl.put_object := fun bucket key body w =>
    (if store_up w then Ok tt else Raise (Error "ClientError"), w);
  Crawl.now := fun w => (clock w, w)
|}.

(** A stand-in for the parquet writer: some bytes for any records. *)
Definition to_parquet (data : list json) : result bytes :=
  Ok (ascii_bytes (concat (map str_of_json data))).

Definition crawl_libraries : Crawl.Libraries := {|
  Crawl.json_loads := json_loads;
  Crawl.to_parquet := to_parquet
|}.

(** Three index lines: two hits with status 200, one of them HTML, and
    a 404. *)
Definition three_hits : str :=
  dq "{'url': 'http://x.no/', 'status': '200', 'mime': 'text/html'}" ++ [10%N]
  ++ dq "{'url': 'http://x.no/a.pdf', 'status': '200', 'mime': 'application/pdf'}" ++ [10%N]
  ++ dq "{'url': 'http://x.no/gone', 'status': '404', 'mime': 'text/html'}" ++ [10%N].

(** One index line: a 404 that is not HTML. *)
Definition one_miss : str :=
  dq "{'url': 'http://x.no/gone.pdf', 'status': '404', 'mime': 'application/pdf'}"
  ++ [10%N].

(** A good line followed by one that is not JSON. *)
Definition one_bad_line : str :=
  dq "{'url': 'http://x.no/', 'status': '200'}" ++ [10%N] ++ py "<html>busy</html>".

Definition answering (body : str) (up : bool) : scenario :=
  {| index_answer := fun _ => Ok {| Crawl.status_code := 200; Crawl.text := body |};
     store_up := up;
     clock := py "20241225_120000" |}.

(** Everything works. *)
Definition healthy : scenario := answering three_hits true.

(** The index answers every request with the one miss. *)
Definition only_misses : scenario := answering one_miss true.

(** The index answers, the store refuses every write. *)
Definition store_down : scenario := answering three_hits false.

(** The index cannot be reached ([requests.get] raises) for the pattern
    [down.example/*], answers 503 for [busy.example/*], and works for
    the rest. *)
Definition flaky_index : scenario :=
  {| index_answer := fun url =>
       if str_eqb url (py "down.example/*") then Raise (Error "ConnectionError")
       else if str_eqb url (py "busy.example/*")
            then Ok {| Crawl.status_code := 503; Crawl.text := py "Service Unavailable" |}
            else Ok {| Crawl.status_code := 200; Crawl.text := three_hits |};
     store_up := true;
     clock := py "20241225_120000" |}.

End Samples.

(* ------------------------------------------------------------------ *)
(** * Measures and callables for the retry wrapper *)
(* ------------------------------------------------------------------ *)

Module RetryMore.
Import Py.

(** The seconds slept in all. *)
Definition total (waits : list Q) : Q := fold_right Qplus 0%Q waits.

(** How a call of [retry_with_backoff] ends after its rate-limited
    attempts. *)
Inductive ending :=
| OutOfAttempts  (* none left: "Max retry attempts reached" *)
| LastCall       (* one more invocation, which returns or raises something else *)
| NoSum.         (* one more rate-limited invocation, whose backoff raises *)

(** What the end of the call leaves on the trace, [attempt] being the
    first attempt that did not end in a sleep. *)
Definition closing (max_attempts : Z) (attempt : nat) (last : ending)
  : list Retry.event :=
  match last with
  | OutOfAttempts => []
  | LastCall => [Retry.Invoke]
  | NoSum => [ Retry.Invoke;
               Retry.PrintRateLimit (Z.of_nat attempt + 1) max_attempts ]
  end.

(** The random numbers drawn at the end of the call. *)
Definition closing_draws (last : ending) : nat :=
  match last with NoSum => 1 | _ => 0 end.

(** The events a call of [retry_with_backoff] adds to a trace when it
    goes through [j] rate-limited attempts and then ends. *)
Definition attempts (uniform01 : nat -> Q) (max_attempts : Z) (d j : nat)
           (last : ending) : list Retry.event :=
  Retry.failed_attempts uniform01 max_attempts 0 d j
  ++ closing max_attempts j last.

(** A callable for the examples: its state counts the calls made so
    far; the first [k] are answered with HTTP 429, the next ends with
    [final]. *)
Definition flaky_then {A} (k : nat) (final : result A) (calls : nat)
  : result A * nat :=
  if calls <? k then (Raise (APIError 429), S calls) else (final, S calls).

End RetryMore.

(* ------------------------------------------------------------------ *)
(** * More containers for the examples *)
(* ------------------------------------------------------------------ *)

Module DecoderMore.
Import Py.

(** The value of ['Type'] in the rows of each branch. *)
Definition type_name (k : Decoder.kind) : str :=
  match k with
  | Decoder.WAT => py "WAT"
  | Decoder.WET => py "WET"
  | Decoder.WARC => py "WARC"
  end.

(** The claims speak of valid records, of per-record decode failures
    and of the rows to expect.  In their words: a record counts for a
    container of kind [k] when it has the record type that kind
    extracts and its payload decodes, that is, the payload is UTF-8
    and, in a WAT container, JSON, or, in a WARC container, HTML whose
    text can be taken.  [payload_text] is the text to preview then. *)
Section Claim.
Context {L : Decoder.Libraries}.

Definition accepted {A} (r : result A) : option A :=
  match r with
  | Ok a => Some a
  | Raise _ => None
  end.

Definition payload_text (k : Decoder.kind) (record : Decoder.warc_record)
  : option str :=
  match k with
  | Decoder.WAT =>
      match accepted (Decoder.decode_utf8 (Decoder.content record)) with
      | Some s => option_map Decoder.str_of_json (accepted (Decoder.json_loads s))
      | None => None
      end
  | Decoder.WET => accepted (Decoder.decode_utf8 (Decoder.content record))
  | Decoder.WARC =>
      accepted (Decoder.html_get_text
                  (Decoder.decode_utf8_ignore (Decoder.content record)))
  end.

Definition valid_record (k : Decoder.kind) (record : Decoder.warc_record) : bool :=
  Decoder.wanted k record
  && match payload_text k record with Some _ => true | None => false end.

(** The row expected for a valid record: its target URI, the type of
    the container, the first 500 characters of its text. *)
Definition expected_row (k : Decoder.kind) (record : Decoder.warc_record)
  : option Decoder.row :=
  if Decoder.wanted k record then
    option_map (fun text => {| Decoder.URL := Decoder.url_of record;
                               Decoder.Type_ := type_name k;
                               Decoder.Content := slice_to 500 text |})
               (payload_text k record)
  else None.

(** The rows expected for the records of a container, in order. *)
Definition expected_rows (k : Decoder.kind) (records : list Decoder.warc_record)
  : list Decoder.row :=
  flat_map (fun record => match expected_row k record with
                          | Some r => [r]
                          | None => []
                          end)
           records.

(** The records an archive yields before it ends or breaks. *)
Fixpoint records_of (it : Decoder.stream) : list Decoder.warc_record :=
  match it with
  | Decoder.More record rest => record :: records_of rest
  | _ => []
  end.

(** What every row of [extract_gz_content] looks like for a key of kind
    [k] and the archive [it]: at most 500 characters of content, the
    type of the branch, and a record of the archive, of the type the
    branch extracts, whose target URI (or ['N/A']) is the row's URL
    and whose text the content is cut from. *)
Definition row_of_archive (k : Decoder.kind) (it : Decoder.stream)
           (r : Decoder.row) : Prop :=
  length (Decoder.Content r) <= 500
  /\ Decoder.Type_ r = type_name k
  /\ exists record text,
      In record (records_of it)
      /\ Decoder.wanted k record = true
      /\ Decoder.URL r = Decoder.url_of record
      /\ payload_text k record = Some text
      /\ Decoder.Content r = slice_to 500 text.

End Claim.

(** A second compressed object: the download of the sample archive cut
    short.  The examples' iterator yields the five records and then
    fails. *)
Definition cut_object : bytes := [Byte.x1f; Byte.x8b; Byte.x08].

(** A third object, plain text. *)
Definition text_object : bytes := Samples.ascii_bytes (py "hello").

Definition ArchiveIterator (gz_content : bytes) : Decoder.stream :=
  if Samples.bytes_eqb gz_content Samples.wat_object
  then Decoder.of_list Samples.wat_records
  else if Samples.bytes_eqb gz_content cut_object
       then Decoder.followed_by Samples.wat_records
                                (Decoder.Broken (Error "EOFError"))
       else Decoder.Broken (Error "BadGzipFile").

Definition libraries : Decoder.Libraries := {|
  Decoder.BUCKET_NAME := py "crawl-bucket";
  Decoder.decode_utf8 := Samples.decode_utf8;
  Decoder.decode_utf8_ignore := Samples.decode_utf8_ignore;
  Decoder.json_loads := Samples.json_loads;
  Decoder.str_of_json := Samples.str_of_json;
  Decoder.html_get_text := Samples.html_get_text;
  Decoder.ArchiveIterator := ArchiveIterator
|}.

(** A bucket with the three objects; reading [seg/wat/gone.wat.gz]
    fails after the object was found. *)
Definition s3 : Decoder.s3_client :=
  {| Decoder.get_object := fun bucket key =>
       if str_eqb key (py "seg/wat/a.wat.gz")
       then Ok {| Decoder.read := Ok Samples.wat_object |}
       else if str_eqb key (py "seg/wat/cut.wat.gz")
       then Ok {| Decoder.read := Ok cut_object |}
       else if str_eqb key (py "seg/text/a.txt")
       then Ok {| Decoder.read := Ok text_object |}
       else if str_eqb key (py "seg/wat/gone.wat.gz")
       then Ok {| Decoder.read := Raise (Error "ReadTimeoutError") |}
       else Raise (Error "NoSuchKey") |}.

End DecoderMore.

(* ------------------------------------------------------------------ *)
(** * Measures and worlds for the processor *)
(* ------------------------------------------------------------------ *)

Module CrawlMore.
Import Py.

(** [r.get(key) == value] for a dict [r]. *)
Definition field_is (key value : str) (r : json) : bool :=
  match r with
  | JDict members => json_eq_str (dict_get members key) value
  | _ => false
  end.

(** However [m] ends, all it adds to the trace are events that [E]
    accepts. *)
Definition only_emits {W A} (E : Crawl.event -> bool) (m : Crawl.M W A) : Prop :=
  forall st r st',
    m st = (r, st') ->
    exists added,
      Crawl.trace st' = Crawl.trace st ++ added /\ forallb E added = true.

(** [m] returns in every state, with a value that satisfies [Q], having
    added to the trace only events that [E] accepts. *)
Definition returns_emitting {W A} (Q : A -> Prop) (E : Crawl.event -> bool)
           (m : Crawl.M W A) : Prop :=
  forall st,
  exists a st' added,
    m st = (Ok a, st') /\ Q a
    /\ Crawl.trace st' = Crawl.trace st ++ added /\ forallb E added = true.

(** Events between the opening and the closing of the Dask client. *)
Definition inner (ev : Crawl.event) : bool :=
  match ev with
  | Crawl.ClientOpen | Crawl.ClientClose => false
  | _ => true
  end.

Definition no_write (ev : Crawl.event) : bool := negb (Crawl.is_write ev).

Definition no_traffic (ev : Crawl.event) : bool :=
  negb (Crawl.is_query ev) && negb (Crawl.is_write ev).

(** A world without state where the index cannot be reached at all
    and the store works. *)
Definition offline : Crawl.World unit := {|
  Crawl.requests_get := fun cc_url url w => (Raise (Error "ConnectionError"), w);
  Crawl.put_object := fun bucket key body w => (Ok tt, w);
  Crawl.now := fun w => (py "20241225_120000", w)
|}.

(** A parquet writer for the examples that refuses records that are
    not dicts. *)
Definition picky_parquet (data : list json) : result bytes :=
  if forallb Crawl.is_dict data then Samples.to_parquet data
  else Raise (Error "ArrowInvalid").

Definition picky_libraries : Crawl.Libraries := {|
  Crawl.json_loads := Samples.json_loads;
  Crawl.to_parquet := picky_parquet
|}.

End CrawlMore.

(* ------------------------------------------------------------------ *)
(** * src/gspread_from_s3.py: listing the bucket *)
(* ------------------------------------------------------------------ *)

Module Listing.
Import Py.

(** *** [str] and [list] operations *)

(** [s.lstrip(chars)] *)
Fixpoint lstrip_chars (chars s : str) : str :=
  match s with
  | c :: rest => if existsb (N.eqb c) chars then lstrip_chars chars rest else s
  | [] => []
  end.

(** [s.strip(chars)] *)
Definition strip_chars (chars s : str) : str :=
  rev (lstrip_chars chars (rev (lstrip_chars chars s))).

(** [l[-n]] for [n >= 1] *)
Definition from_end {A} (l : list A) (n : nat) : result A :=
  match nth_error (rev l) (n - 1) with
  | Some x => Ok x
  | None => Raise (Error "IndexError")
  end.

(** A dict with [str] keys, in insertion order. *)
Definition dict (V : Type) : Type := list (str * V).

(** [d.get(key)] *)
Fixpoint lookup {V} (d : dict V) (key : str) : option V :=
  match d with
  | [] => None
  | (k, v) :: rest => if str_eqb k key then Some v else lookup rest key
  end.

(** [d[key] = v] *)
Fixpoint store {V} (d : dict V) (key : str) (v : V) : dict V :=
  match d with
  | [] => [(key, v)]
  | (k, v0) :: rest =>
      if str_eqb k key then (k, v) :: rest else (k, v0) :: store rest key v
  end.

(** *** What S3 lists *)

(** An entry of [page['CommonPrefixes']]. *)
Record common_prefix := { Prefix : str }.

(** An entry of [page['Contents']]; [LastModified] is kept as its
    [str()]. *)
Record s3_object := { Key : str; LastModified : str }.

(** A page of [list_objects_v2]: either key may be missing. *)
Record page := {
  CommonPrefixes : option (list common_prefix);
  Contents : option (list s3_object)
}.

(** What iterating over [paginator.paginate(...)] produces: the end, an
    exception from the request for the next page, or a page and the
    rest. *)
Inductive pages :=
| Last
| Failed (e : exn)
| Next (p : page) (rest : pages).

(** A listing that yields the pages of a list and ends. *)
Fixpoint pages_of (ps : list page) : pages :=
  match ps with
  | [] => Last
  | p :: rest => Next p (pages_of rest)
  end.

(** The client: [get_object] as before, and
    [get_paginator('list_objects_v2').paginate(Bucket=..., Prefix=...,
    Delimiter=...)], the delimiter being optional. *)
Record s3_client := {
  objects : Decoder.s3_client;
  paginate : str -> str -> option str -> pages
}.

(** [S3_PREFIX = os.getenv('S3_PREFIX')] *)
Class Environment := { S3_PREFIX : str }.

Definition SUBFOLDER_TYPES : list str :=
  [py "text/"; py "warc/"; py "wat/"; py "wet/"].

(** A row of a sheet: a list of cells. *)
Definition sheet_row := list str.

(** [folders_data]: folder name, then subfolder name, then rows. *)
Definition folders_data := dict (dict (list sheet_row)).

Section Code.
Context {L : Decoder.Libraries} {E : Environment}.

(** [for page in paginator.paginate(...): folders.extend(page.get('CommonPrefixes', []))] *)
Fixpoint extend_folders (ps : pages) (folders : list common_prefix)
  : result (list common_prefix) :=
  match ps with
  | Last => Ok folders
  | Failed e => Raise e
  | Next p rest =>
      extend_folders rest
        (folders ++ match CommonPrefixes p with Some l => l | None => [] end)
  end.

Definition get_all_folders (s3 : s3_client) : result (list common_prefix) :=
  extend_folders (paginate s3 Decoder.BUCKET_NAME S3_PREFIX (Some (py "/"))) [].

Definition clean_folder_name (folder_name : str) : str :=
  strip_chars (py "'") folder_name.

(** [clean_folder_name(prefix['Prefix'].split('/')[-2])] *)
Definition folder_name_of (prefix : common_prefix) : result str :=
  match from_end (Crawl.split 47 (Prefix prefix)) 2 with
  | Ok name => Ok (clean_folder_name name)
  | Raise e => Raise e
  end.

(** The list appended to [contents] for one extracted row. *)
Definition row_for (item : s3_object) (content : Decoder.row) : sheet_row :=
  [ last (Crawl.split 47 (Key item)) [];          (* item['Key'].split('/')[-1] *)
    LastModified item;
    Decoder.URL content;
    Decoder.Type_ content;
    Decoder.Content content ].

(** [for item in page.get('Contents', []): ...] *)
Fixpoint items_loop (s3 : s3_client) (items : list s3_object)
         (contents : list sheet_row) (t : list Decoder.event)
  : list sheet_row * list Decoder.event :=
  match items with
  | [] => (contents, t)
  | item :: rest =>
      let (extracted_content, t) :=
        Decoder.extract_gz_content_default (objects s3) (Key item) t in
      items_loop s3 rest (contents ++ map (row_for item) extracted_content) t
  end.

(** [for page in paginator.paginate(Bucket=BUCKET_NAME, Prefix=subfolder_prefix): ...] *)
Fixpoint pages_loop (s3 : s3_client) (ps : pages)
         (contents : list sheet_row) (t : list Decoder.event)
  : result (list sheet_row) * list Decoder.event :=
  match ps with
  | Last => (Ok contents, t)
  | Failed e => (Raise e, t)
  | Next p rest =>
      let (contents, t) :=
        items_loop s3 (match Contents p with Some l => l | None => [] end)
                   contents t in
      pages_loop s3 rest contents t
  end.

(** The body of [for subfolder_type in SUBFOLDER_TYPES], up to the rows
    of the subfolder. *)
Definition subfolder_contents (s3 : s3_client) (prefix : common_prefix)
           (subfolder_type : str) (t : list Decoder.event)
  : result (list sheet_row) * list Decoder.event :=
  let subfolder_prefix := Prefix prefix ++ subfolder_type in
  pages_loop s3 (paginate s3 Decoder.BUCKET_NAME subfolder_prefix None) [] t.

(** [for subfolder_type in ...: ...; folders_data[folder_name][subfolder_type.strip('/')] = contents] *)
Fixpoint subfolders_loop (s3 : s3_client) (prefix : common_prefix)
         (folder_name : str) (types : list str)
         (data : folders_data) (t : list Decoder.event)
  : result folders_data * list Decoder.event :=
  match types with
  | [] => (Ok data, t)
  | subfolder_type :: rest =>
      match subfolder_contents s3 prefix subfolder_type t with
      | (Raise e, t) => (Raise e, t)
      | (Ok contents, t) =>
          match lookup data folder_name with
          | None => (Raise (Error "KeyError"), t)
          | Some inner =>
              let inner := store inner (strip_chars (py "/") subfolder_type) contents in
              subfolders_loop s3 prefix folder_name rest
                              (store data folder_name inner) t
          end
      end
  end.

(** [for prefix in get_all_folders(s3_client): ...] *)
Fixpoint prefixes_loop (s3 : s3_client) (prefixes : list common_prefix)
         (data : folders_data) (t : list Decoder.event)
  : result folders_data * list Decoder.event :=
  match prefixes with
  | [] => (Ok data, t)
  | prefix :: rest =>
      match folder_name_of prefix with
      | Raise e => (Raise e, t)
      | Ok folder_name =>
          let data := store data folder_name [] in
          match subfolders_loop s3 prefix folder_name SUBFOLDER_TYPES data t with
          | (Raise e, t) => (Raise e, t)
          | (Ok data, t) => prefixes_loop s3 rest data t
          end
      end
  end.

Definition get_s3_folders_and_contents (s3 : s3_client) (t : list Decoder.event)
  : result folders_data * list Decoder.event :=
  let data := [] in
  match get_all_folders s3 with
  | Raise e => (Raise e, t)
  | Ok prefixes => prefixes_loop s3 prefixes data t
  end.

End Code.




(** The names of the four subfolders, as they key a folder's dict. *)
Definition subfolder_names : list str := [py "text"; py "warc"; py "wat"; py "wet"].

End Listing.

(* ------------------------------------------------------------------ *)
(** * Dict keys, and a bucket for the examples *)
(* ------------------------------------------------------------------ *)

Module ListingMore.
Import Py.

(** The keys of a dict after [d[key] = v], from the keys before. *)
Fixpoint add_key (keys : list str) (key : str) : list str :=
  match keys with
  | [] => [key]
  | k :: rest => if str_eqb k key then k :: rest else k :: add_key rest key
  end.

Definition object (key : string) : Listing.s3_object :=
  {| Listing.Key := py key; Listing.LastModified := py "2024-12-25 12:00:00+00:00" |}.

(** One folder, [seg/]: two pages of three archives under [wat/], a
    text file under [text/], nothing under [warc/] and [wet/]. *)
Definition wat_pages : list Listing.page :=
  [ {| Listing.CommonPrefixes := None;
       Listing.Contents := Some [object "seg/wat/a.wat.gz"; object "seg/wat/cut.wat.gz"] |};
    {| Listing.CommonPrefixes := None;
       Listing.Contents := Some [object "seg/wat/gone.wat.gz"] |} ].

Definition paginate (bucket prefix : str) (delimiter : option str) : Listing.pages :=
  match delimiter with
  | Some _ =>
      Listing.pages_of
        [ {| Listing.CommonPrefixes := Some [{| Listing.Prefix := py "seg/" |}];
             Listing.Contents := None |} ]
  | None =>
      if str_eqb prefix (py "seg/wat/") then Listing.pages_of wat_pages
      else if str_eqb prefix (py "seg/text/")
      then Listing.pages_of
             [ {| Listing.CommonPrefixes := None;
                  Listing.Contents := Some [object "seg/text/a.txt"] |} ]
      else Listing.pages_of
             [ {| Listing.CommonPrefixes := None; Listing.Contents := None |} ]
  end.

Definition s3 : Listing.s3_client :=
  {| Listing.objects := DecoderMore.s3; Listing.paginate := paginate |}.

Definition environment : Listing.Environment := {| Listing.S3_PREFIX := [] |}.

End ListingMore.

(* ------------------------------------------------------------------ *)
(** * src/gspread_from_s3.py: writing the sheets *)
(* ------------------------------------------------------------------ *)

Module Sheets.
Import Py.

(** The value passed to [worksheet.update]: rows of cells. *)
Definition table := list (list str).

(** The calls made to gspread; [WS] is the type of worksheet objects. *)
Inductive request (WS : Type) :=
| ServiceAccount                                (* gspread.service_account(filename=CREDENTIALS_FILE) *)
| OpenByKey                                     (* client.open_by_key(SPREADSHEET_KEY) *)
| GetSheet1                                     (* spreadsheet.sheet1 *)
| Worksheet (title : str)                       (* spreadsheet.worksheet(title) *)
| AddWorksheet (title : str) (rows cols : Z)    (* spreadsheet.add_worksheet(title, rows=..., cols=...) *)
| Clear (ws : WS)                               (* worksheet.clear() *)
| Update (ws : WS) (range_name : str) (values : table).
                                                (* worksheet.update(range_name, values) *)
Arguments ServiceAccount {WS}.
Arguments OpenByKey {WS}.
Arguments GetSheet1 {WS}.
Arguments Worksheet {WS} title.
Arguments AddWorksheet {WS} title rows cols.

Inductive event (WS : Type) :=
| Api (r : request WS) (raised : option exn)    (* a call and the exception it raised, if any *)
| Sleep (seconds : Z)                           (* time.sleep(seconds) *)
| PrintFolder (folder_name : str)               (* print(f"Processing folder: {folder_name}") *)
| PrintSubfolder (sheet_name : str)             (* print(f"Processing subfolder: {sheet_name}") *)
| PrintCompleted (sheet_name : str)             (* print(f"Completed sheet for: {sheet_name}") *)
| PrintSuccess
    (* print("Successfully updated Google Sheets with extracted content") *)
| PrintError (e : exn).                         (* print(f"An error occurred: {str(e)}") *)
Arguments Sleep {WS} seconds.
Arguments PrintFolder {WS} folder_name.
Arguments PrintSubfolder {WS} sheet_name.
Arguments PrintCompleted {WS} sheet_name.
Arguments PrintSuccess {WS}.
Arguments PrintError {WS} e.

(** [isinstance(e, gspread.WorksheetNotFound)] *)
Definition is_worksheet_not_found (e : exn) : bool :=
  match e with
  | Error class => String.eqb class "WorksheetNotFound"
  | _ => false
  end.

(** The spreadsheet service and the clock, acting on a world [G]. *)
Class Spreadsheet (G WS : Type) := {
  service_account : G -> result unit * G;
  open_by_key : G -> result unit * G;
  sheet1 : G -> result WS * G;
  worksheet : str -> G -> result WS * G;
  add_worksheet : str -> Z -> Z -> G -> result WS * G;
  clear : WS -> G -> result unit * G;
  update : WS -> str -> table -> G -> result unit * G;
  (** [datetime.now().strftime('%Y-%m-%d %H:%M:%S')] *)
  now : G -> str * G
}.

Record state (G WS : Type) := { remote : G; log : list (event WS) }.

(** Code that acts on the spreadsheet, on the retry loop's process, and
    can raise. *)
Definition S (G WS A : Type) : Type :=
  state G WS -> Retry.proc -> result A * state G WS * Retry.proc.

Definition ret {G WS A} (a : A) : S G WS A := fun st p => (Ok a, st, p).

Definition bind {G WS A B} (m : S G WS A) (f : A -> S G WS B) : S G WS B :=
  fun st p =>
    match m st p with
    | (Ok a, st', p') => f a st' p'
    | (Raise e, st', p') => (Raise e, st', p')
    end.

Section Code.
Context {G WS : Type} {service : Spreadsheet G WS}.

(** The [n]-th value returned by [uniform(0, 1)]. *)
Variable uniform01 : nat -> Q.

Definition emit (ev : event WS) (st : state G WS) : state G WS :=
  {| remote := remote st; log := log st ++ [ev] |}.

(** A call to gspread, logged with its outcome. *)
Definition api {A} (r : request WS) (call : G -> result A * G) (st : state G WS)
  : result A * state G WS :=
  let (x, g) := call (remote st) in
  (x, {| remote := g;
         log := log st ++ [Api r match x with Ok _ => None | Raise e => Some e end] |}).

(** The closure [update] of [update_sheet_with_retry]. *)
Definition update_closure (ws : WS) (data : table) (st : state G WS)
  : result unit * state G WS :=
  match api (Clear ws) (clear ws) st with
  | (Raise e, st) => (Raise e, st)
  | (Ok _, st) =>
      match api (Update ws (py "A1") data) (update ws (py "A1") data) st with
      | (Raise e, st) => (Raise e, st)
      | (Ok _, st) => (Ok tt, emit (Sleep 1) st)
      end
  end.

(** [retry_with_backoff(update)], with the default of five attempts. *)
Definition update_sheet_with_retry (ws : WS) (data : table) : S G WS unit :=
  Retry.retry_with_backoff uniform01 (update_closure ws data) 5.

(** A step that does not touch the retry process. *)
Definition step {A} (f : state G WS -> result A * state G WS) : S G WS A :=
  fun st p => let (x, st') := f st in (x, st', p).

Definition say (ev : event WS) : S G WS unit :=
  step (fun st => (Ok tt, emit ev st)).

(** [try: worksheet = spreadsheet.worksheet(sheet_name)
     except gspread.WorksheetNotFound:
         worksheet = spreadsheet.add_worksheet(sheet_name, rows=1000, cols=20)
         time.sleep(2)] *)
Definition worksheet_for (sheet_name : str) : S G WS WS :=
  fun st p =>
    match api (Worksheet sheet_name) (worksheet sheet_name) st with
    | (Ok ws, st) => (Ok ws, st, p)
    | (Raise e, st) =>
        if is_worksheet_not_found e then
          match api (AddWorksheet sheet_name 1000 20)
                    (add_worksheet sheet_name 1000 20) st with
          | (Ok ws, st) => (Ok ws, emit (Sleep 2) st, p)
          | (Raise e, st) => (Raise e, st, p)
          end
        else (Raise e, st, p)
    end.

(** [main_data] *)
Definition main_data (timestamp : str) (data : Listing.folders_data) : table :=
  [ [py "Timestamp:"; timestamp]; [py "Folder Names"]; [] ]
  ++ map (fun folder => [fst folder]) data.

(** [sheet_data] *)
Definition sheet_data (sheet_name timestamp : str)
           (contents : list Listing.sheet_row) : table :=
  [ [py "Folder Contents:"; sheet_name];
    [py "Last Updated:"; timestamp];
    [];
    [py "File Name"; py "Last Modified"; py "URL"; py "Type"; py "Content Preview"] ]
  ++ contents.

(** [f"{folder_name}.{subfolder_type}"] *)
Definition sheet_name_of (folder_name subfolder_type : str) : str :=
  folder_name ++ py "." ++ subfolder_type.

(** [for subfolder_type, contents in subfolder_data.items(): ...] *)
Fixpoint subfolders_loop (timestamp folder_name : str)
         (subfolder_data : Listing.dict (list Listing.sheet_row)) : S G WS unit :=
  match subfolder_data with
  | [] => ret tt
  | (subfolder_type, contents) :: rest =>
      let sheet_name := sheet_name_of folder_name subfolder_type in
      bind (say (PrintSubfolder sheet_name)) (fun _ =>
      bind (worksheet_for sheet_name) (fun ws =>
      bind (update_sheet_with_retry ws (sheet_data sheet_name timestamp contents))
           (fun _ =>
      bind (say (PrintCompleted sheet_name)) (fun _ =>
      subfolders_loop timestamp folder_name rest))))
  end.

(** [for folder_name, subfolder_data in folders_data.items(): ...] *)
Fixpoint folders_loop (timestamp : str) (data : Listing.folders_data)
  : S G WS unit :=
  match data with
  | [] => ret tt
  | (folder_name, subfolder_data) :: rest =>
      bind (say (PrintFolder folder_name)) (fun _ =>
      bind (subfolders_loop timestamp folder_name subfolder_data) (fun _ =>
      folders_loop timestamp rest))
  end.

Definition update_google_sheets (data : Listing.folders_data) : S G WS unit :=
  bind (step (api ServiceAccount service_account)) (fun client =>
  bind (step (api OpenByKey open_by_key)) (fun spreadsheet =>
  bind (step (api GetSheet1 sheet1)) (fun main_sheet =>
  bind (step (fun st => let (timestamp, g) := now (remote st) in
                        (Ok timestamp, {| remote := g; log := log st |})))
       (fun timestamp =>
  bind (update_sheet_with_retry main_sheet (main_data timestamp data)) (fun _ =>
  folders_loop timestamp data))))).

(** [main()]: it returns in every case, so there is no result to
    speak of; the three components are the trace of the listing, the
    spreadsheet and the retry process. *)
Definition main {L : Decoder.Libraries} {E : Listing.Environment}
           (s3 : Listing.s3_client) (t : list Decoder.event)
           (st : state G WS) (p : Retry.proc)
  : list Decoder.event * state G WS * Retry.proc :=
  match Listing.get_s3_folders_and_contents s3 t with
  | (Raise e, t) => (t, emit (PrintError e) st, p)
  | (Ok folders_data, t) =>
      match update_google_sheets folders_data st p with
      | (Ok _, st, p) => (t, emit PrintSuccess st, p)
      | (Raise e, st, p) => (t, emit (PrintError e) st, p)
      end
  end.

End Code.

(** The tables written: the values of the calls of [update] that went
    through, in order. *)
Definition written {WS} (l : list (event WS)) : list table :=
  flat_map (fun ev => match ev with
                      | Api (Update _ _ values) None => [values]
                      | _ => []
                      end) l.

(** Events of a failed attempt of [update]: a [clear], or an [update]
    that raised. *)
Definition failed_attempt_event {WS} (ev : event WS) : bool :=
  match ev with
  | Api (Clear _) _ => true
  | Api (Update _ _ _) (Some _) => true
  | _ => false
  end.

(** The tables [update_google_sheets] is to write, in order. *)
Definition tables_of (timestamp : str) (data : Listing.folders_data) : list table :=
  main_data timestamp data
  :: flat_map (fun folder =>
                 map (fun sub =>
                        sheet_data (sheet_name_of (fst folder) (fst sub))
                                   timestamp (snd sub))
                     (snd folder))
              data.

(** [m], when it returns, has written the tables [ts], in order, and
    no other. *)
Definition writes_tables {G WS A} (ts : list table) (m : S G WS A) : Prop :=
  forall st p a st' p',
    m st p = (Ok a, st', p') -> written (log st') = written (log st) ++ ts.

(** The first three events of a successful attempt of [update], and
    the two of one whose [update] was refused. *)
Definition success_log {WS} (ws : WS) (data : table) : list (event WS) :=
  [ Api (Clear ws) None; Api (Update ws (py "A1") data) None; Sleep 1 ].

Definition refused_log {WS} (ws : WS) (data : table) : list (event WS) :=
  [ Api (Clear ws) None; Api (Update ws (py "A1") data) (Some (APIError 429)) ].

(** A spreadsheet for the examples.  Its world is the list of sheets
    with their cells; worksheet objects are titles.  Everything works,
    except that [update] is refused with HTTP 429 when [throttled]. *)
Fixpoint put (sheets : list (str * table)) (title : str) (cells : table)
  : list (str * table) :=
  match sheets with
  | [] => [(title, cells)]
  | (k, v) :: rest =>
      if str_eqb k title then (k, cells) :: rest else (k, v) :: put rest title cells
  end.

Definition has (sheets : list (str * table)) (title : str) : bool :=
  existsb (fun sheet => str_eqb (fst sheet) title) sheets.

Definition google (throttled : bool) : Spreadsheet (list (str * table)) str := {|
  service_account := fun g => (Ok tt, g);
  open_by_key := fun g => (Ok tt, g);
  sheet1 := fun g => (Ok (py "Sheet1"), g);
  worksheet := fun title g =>
    (if has g title then Ok title else Raise (Error "WorksheetNotFound"), g);
  add_worksheet := fun title rows cols g => (Ok title, put g title []);
  clear := fun ws g => (Ok tt, put g ws []);
  update := fun ws range_name values g =>
    if throttled then (Raise (APIError 429), g) else (Ok tt, put g ws values);
  now := fun g => (py "2024-12-25 12:00:00", g)
|}.

(** A spreadsheet with its first sheet, holding last week's report. *)
Definition last_week : state (list (str * table)) str :=
  {| remote := [(py "Sheet1", [[py "Timestamp:"; py "2024-12-18 12:00:00"]])];
     log := [] |}.

End Sheets.

(* ================================================================== *)
(** * Properties *)
(* ================================================================== *)

Import Py.

Lemma str_eqb_eq a b : str_eqb a b = true <-> a = b.
Proof.
  revert b. induction a as [|x a IH]; intros [|y b]; simpl;
    try (split; [discriminate | congruence]); [tauto|].
  rewrite andb_true_iff, N.eqb_eq, IH. split; [intros [-> ->] | intros [= -> ->]]; auto.
Qed.

Lemma range_length n : length (range n) = Z.to_nat n.
Proof. unfold range. apply length_seq. Qed.

(** ** The model on small inputs *)

Example lines_of_strips_and_drops_empty :
  Crawl.lines_of (py "  a" ++ [10; 10]%N ++ py "b " ++ [10]%N) = [py "a"; py "b"].
Proof. reflexivity. Qed.

Example lines_of_keeps_inner_space :
  Crawl.lines_of (py "a " ++ [10]%N ++ py "b") = [py "a "; py "b"].
Proof. reflexivity. Qed.

Example split_empty : Crawl.split 10 [] = [[]].
Proof. reflexivity. Qed.

Example lines_of_blank : Crawl.lines_of (py " " ++ [10; 13; 10]%N) = [].
Proof. reflexivity. Qed.

Example kind_of_first_match :
  Decoder.kind_of (py "seg/a.warc.wat.gz") = Some Decoder.WAT
  /\ Decoder.kind_of (py "seg/a.warc.wet.gz") = Some Decoder.WET
  /\ Decoder.kind_of (py "seg/a.warc.gz") = Some Decoder.WARC
  /\ Decoder.kind_of (py "seg/a.gz") = None.
Proof. repeat split. Qed.

Example decode_utf8_two_bytes :
  Samples.decode_utf8 [Byte.xc3; Byte.xa5; Byte.x41] = Ok [229; 65]%N.
Proof. reflexivity. Qed.

Example decode_utf8_rejects :
  Samples.decode_utf8 [Byte.xff] = Raise (Error "UnicodeDecodeError")
  /\ Samples.decode_utf8 [Byte.xc0; Byte.x80] = Raise (Error "UnicodeDecodeError")
  /\ Samples.decode_utf8 [Byte.xed; Byte.xa0; Byte.x80] = Raise (Error "UnicodeDecodeError")
  /\ Samples.decode_utf8 [Byte.xe2; Byte.x82] = Raise (Error "UnicodeDecodeError").
Proof. repeat split. Qed.

Example decode_utf8_ignore_skips :
  Samples.decode_utf8_ignore
    [Byte.xe2; Byte.x82; Byte.x41; Byte.xff; Byte.xe2; Byte.x82; Byte.xac]
  = [65; 8364]%N.
Proof. reflexivity. Qed.

Example json_loads_object :
  Samples.json_loads (Samples.dq " {'status' : '200', 'status': '404'} ")
  = Ok (JDict [(py "status", JStr (py "404"))]).
Proof. reflexivity. Qed.

Example only_status_200 :
  Crawl.only (py "status") (py "200")
    [ JDict [(py "status", JStr (py "200"))];
      JDict [(py "status", JStr (py "404"))];
      JDict [(py "mime", JStr (py "text/html"))];
      JDict [(py "status", JInt 200)] ]
  = Ok [JDict [(py "status", JStr (py "200"))]]
  /\ Crawl.only (py "status") (py "200") [JDict []; JList []]
     = Raise (Error "AttributeError").
Proof. split; reflexivity. Qed.

(** ** Rounding to the nearest double *)

Lemma round_half_even_ge k y : (inject_Z k <= y)%Q -> (k <= round_half_even y)%Z.
Proof.
  intros H. apply Qfloor_resp_le in H. rewrite Qfloor_Z in H.
  unfold round_half_even.
  destruct (2 * (Qnum y mod Z.pos (Qden y)) ?= Z.pos (Qden y))%Z;
    [destruct (Z.even (Qfloor y))| |]; lia.
Qed.

Lemma round_half_even_le k y : (y <= inject_Z k)%Q -> (round_half_even y <= k)%Z.
Proof.
  intros H. unfold Qle in H. cbn [Qnum Qden inject_Z] in H. rewrite Z.mul_1_r in H.
  unfold round_half_even, Qfloor. destruct y as [n d]. cbn [Qnum Qden] in *.
  pose proof (Z.div_mod n (Z.pos d) ltac:(lia)) as Hdiv.
  pose proof (Z.mod_pos_bound n (Z.pos d) ltac:(lia)) as Hmod.
  set (q := (n / Z.pos d)%Z) in *. set (r := (n mod Z.pos d)%Z) in *.
  clearbody q r.
  assert (Hq : (q <= k)%Z) by nia.
  assert (Hr : (0 < r -> q + 1 <= k)%Z) by nia.
  destruct (Z.compare_spec (2 * r) (Z.pos d));
    [destruct (Z.even q)| |]; lia.
Qed.

Lemma two_power_pos z : (0 < 2 ^ z)%Q.
Proof. now apply Qpower_0_lt. Qed.

Lemma two_power_shift z s : (2 ^ z * 2 ^ s == 2 ^ (z + s))%Q.
Proof. symmetry. apply Qpower_plus. discriminate. Qed.

Lemma two_power_Z s : (0 <= s)%Z -> (2 ^ s == inject_Z (2 ^ s))%Q.
Proof. intros H. now rewrite Zpower_Qpower. Qed.

(** [2 ^ binade x] is a power of two not above [x]. *)
Lemma binade_le x : (0 < x)%Q -> (2 ^ binade x <= x)%Q.
Proof.
  intros Hx. unfold binade.
  rewrite (Qabs_pos x) by now apply Qlt_le_weak.
  set (e := (Z.log2 (Z.abs (Qnum x)) - Z.log2 (Z.pos (Qden x)))%Z).
  destruct (Qle_bool (2 ^ e) x) eqn:Htest; [now apply Qle_bool_iff|].
  destruct x as [a b]. unfold Qlt in Hx. simpl in Hx. rewrite Z.mul_1_r in Hx.
  subst e. simpl Qnum. simpl Qden. rewrite Z.abs_eq by lia.
  pose proof (Z.log2_spec a Hx) as [Ha _].
  pose proof (Z.log2_spec (Z.pos b) ltac:(lia)) as [_ Hb].
  pose proof (Z.log2_nonneg a) as Hla. pose proof (Z.log2_nonneg (Z.pos b)) as Hlb.
  set (la := Z.log2 a) in *. set (lb := Z.log2 (Z.pos b)) in *.
  apply Qle_trans with (2 ^ (la - lb - 1) * ((Z.pos b # 1) * (1 # b)))%Q.
  - setoid_replace ((Z.pos b # 1) * (1 # b))%Q with 1%Q.
    + rewrite Qmult_1_r. apply Qle_refl.
    + unfold Qeq. simpl. lia.
  - rewrite Qmult_assoc.
    setoid_replace (a # b)%Q with (inject_Z a * (1 # b))%Q
      by (unfold Qeq; simpl; lia).
    apply Qmult_le_compat_r; [|discriminate].
    apply Qle_trans with (2 ^ (la - lb - 1) * 2 ^ (lb + 1))%Q.
    + apply Qmult_le_l; [apply two_power_pos|].
      rewrite two_power_Z by lia. change (Z.pos b # 1)%Q with (inject_Z (Z.pos b)).
      rewrite <- Zle_Qle. lia.
    + rewrite two_power_shift. replace (la - lb - 1 + (lb + 1))%Z with la by lia.
      rewrite two_power_Z by lia. rewrite <- Zle_Qle. exact Ha.
Qed.

Lemma float_round_scaled x :
  (0 < x)%Q ->
  let s := (52 - Z.max (binade x) (-1022))%Z in
  (float_round x == inject_Z (round_half_even (x * 2 ^ s)) * 2 ^ (- s))%Q.
Proof.
  intros Hx s. unfold float_round.
  destruct (Z.eqb_spec (Qnum x) 0) as [H0|_].
  - unfold Qlt in Hx. simpl in Hx. lia.
  - apply Qred_correct.
Qed.

Lemma scaled_Z m s : (0 <= s)%Z -> (inject_Z m * 2 ^ s == inject_Z (m * 2 ^ s))%Q.
Proof. intros H. now rewrite inject_Z_mult, two_power_Z. Qed.

Lemma scaled_back m s : (inject_Z m * 2 ^ s * 2 ^ (- s) == inject_Z m)%Q.
Proof.
  rewrite <- Qmult_assoc, two_power_shift, Z.add_opp_diag_r.
  apply Qmult_1_r.
Qed.

(** Rounding does not cross an integer of up to 53 bits: a number not
    below it is not rounded below it, ... *)
Lemma float_round_ge m x :
  (1 <= m <= 2 ^ 52)%Z -> (inject_Z m <= x)%Q -> (inject_Z m <= float_round x)%Q.
Proof.
  intros Hm Hmx.
  assert (Hx : (0 < x)%Q).
  { eapply Qlt_le_trans; [|exact Hmx]. rewrite <- (Zlt_Qlt 0). lia. }
  rewrite (float_round_scaled Hx). cbv zeta.
  set (s := (52 - Z.max (binade x) (-1022))%Z).
  destruct (Z.le_gt_cases 0 s) as [Hs|Hs].
  - rewrite <- (scaled_back m s). apply Qmult_le_compat_r; [|apply Qlt_le_weak, two_power_pos].
    rewrite (scaled_Z m Hs), <- Zle_Qle. apply round_half_even_ge.
    rewrite <- (scaled_Z m Hs).
    apply Qmult_le_compat_r; [exact Hmx | apply Qlt_le_weak, two_power_pos].
  - assert (Hb : Z.max (binade x) (-1022) = binade x) by lia.
    apply Qle_trans with (inject_Z (2 ^ 52) * 1)%Q.
    + rewrite Qmult_1_r, <- Zle_Qle. lia.
    + apply Qle_trans with (inject_Z (2 ^ 52) * 2 ^ (- s))%Q.
      * apply Qmult_le_l; [reflexivity|]. apply Qpower_1_le; [discriminate | lia].
      * apply Qmult_le_compat_r; [|apply Qlt_le_weak, two_power_pos].
        rewrite <- Zle_Qle. apply round_half_even_ge.
        rewrite <- two_power_Z by lia.
        replace 52%Z with (binade x + s)%Z at 1 by lia.
        rewrite <- two_power_shift.
        apply Qmult_le_compat_r; [now apply binade_le | apply Qlt_le_weak, two_power_pos].
Qed.

(** ... and a number not above it is not rounded above it. *)
Lemma float_round_le m x :
  (1 <= m <= 2 ^ 52)%Z -> (0 < x)%Q -> (x <= inject_Z m)%Q ->
  (float_round x <= inject_Z m)%Q.
Proof.
  intros Hm Hx Hxm.
  rewrite (float_round_scaled Hx). cbv zeta.
  set (s := (52 - Z.max (binade x) (-1022))%Z).
  assert (Hs : (0 <= s)%Z).
  { assert (binade x <= 52)%Z; [|lia].
    apply Qpower_le_compat_l_inv with (q := 2%Q); [|reflexivity].
    apply Qle_trans with x; [now apply binade_le|].
    apply Qle_trans with (inject_Z m); [exact Hxm|].
    rewrite two_power_Z by lia. rewrite <- Zle_Qle. lia. }
  rewrite <- (scaled_back m s). apply Qmult_le_compat_r; [|apply Qlt_le_weak, two_power_pos].
  rewrite (scaled_Z m Hs), <- Zle_Qle. apply round_half_even_le.
  rewrite <- (scaled_Z m Hs).
  apply Qmult_le_compat_r; [exact Hxm | apply Qlt_le_weak, two_power_pos].
Qed.

(** Doubles that Python prints as 0.1, 1.5 and 8.1, two ties beyond 53
    bits, and the sum of attempt 1023. *)
Example float_round_values :
  float_round (1 # 10) = (3602879701896397 # 36028797018963968)%Q
  /\ float_round (3 # 2) = (3 # 2)%Q
  /\ float_round (8 + (1 # 10)) = (4559894622712627 # 562949953421312)%Q
  /\ float_round (inject_Z (2 ^ 53 + 1)) = inject_Z (2 ^ 53)
  /\ float_round (inject_Z (2 ^ 53 + 3)) = inject_Z (2 ^ 53 + 4)
  /\ float_round (inject_Z (2 ^ 1023) + (1 # 2)) = inject_Z (2 ^ 1023).
Proof. repeat split; vm_compute; reflexivity. Qed.

(** ** The retry wrapper *)

Lemma pow2_pos n : (1 <= pow2 n)%Z.
Proof. unfold pow2. pose proof (Z.pow_pos_nonneg 2 (Z.of_nat n)). lia. Qed.

Lemma pow2_succ n : pow2 (S n) = (2 * pow2 n)%Z.
Proof. unfold pow2. rewrite Nat2Z.inj_succ, Z.pow_succ_r; lia. Qed.

Lemma pow2_le i j : i <= j -> (pow2 i <= pow2 j)%Z.
Proof. intros H. unfold pow2. apply Z.pow_le_mono_r; lia. Qed.

(** [float(2 ** attempt)] exists up to attempt 1023 and no further. *)
Lemma float_of_int_pow2 attempt :
  float_of_int (pow2 attempt)
  = if attempt <? 1024 then Ok (float_round (inject_Z (pow2 attempt)))
    else Raise (Error "OverflowError").
Proof.
  unfold float_of_int. pose proof (pow2_pos attempt) as Hpos.
  rewrite Z.abs_eq by lia.
  assert (Hbelow : (pow2 1023 < float_limit)%Z) by (vm_compute; reflexivity).
  assert (Habove : (float_limit <= pow2 1024)%Z) by (vm_compute; discriminate).
  destruct (Nat.ltb_spec attempt 1024) as [Hlt|Hge].
  - pose proof (@pow2_le attempt 1023 ltac:(lia)).
    destruct (Z.ltb_spec (pow2 attempt) float_limit); [reflexivity | lia].
  - pose proof (@pow2_le 1024 attempt Hge).
    destruct (Z.ltb_spec (pow2 attempt) float_limit); [lia | reflexivity].
Qed.

Section RetryFacts.
Import Retry.
Context {W A : Type}.
Variable uniform01 : nat -> Q.
Variable func : W -> result A * W.

Lemma wait_time_seconds attempt jitter :
  attempt < 1024 -> wait_time attempt jitter = Ok (seconds attempt jitter).
Proof.
  intros H. unfold wait_time, int_add_float. rewrite float_of_int_pow2.
  destruct (Nat.ltb_spec attempt 1024); [reflexivity | lia].
Qed.

Lemma wait_time_overflow attempt jitter :
  1024 <= attempt -> wait_time attempt jitter = Raise (Error "OverflowError").
Proof.
  intros H. unfold wait_time, int_add_float. rewrite float_of_int_pow2.
  destruct (Nat.ltb_spec attempt 1024); [lia | reflexivity].
Qed.

Lemma exponential_backoff_sleeps attempt p :
  attempt < 1024 ->
  exponential_backoff uniform01 attempt p
  = (Ok tt, {| trace := trace p ++ [Sleep (seconds attempt (uniform01 (draws p)))];
               draws := S (draws p) |}).
Proof.
  intros H. unfold exponential_backoff. now rewrite wait_time_seconds.
Qed.

Lemma exponential_backoff_overflow attempt p :
  1024 <= attempt ->
  exponential_backoff uniform01 attempt p
  = (Raise (Error "OverflowError"), {| trace := trace p; draws := S (draws p) |}).
Proof.
  intros H. unfold exponential_backoff. now rewrite wait_time_overflow.
Qed.

Lemma sleeps_app t u : sleeps (t ++ u) = sleeps t ++ sleeps u.
Proof. unfold sleeps. apply flat_map_app. Qed.

Lemma invocations_app t u : invocations (t ++ u) = invocations t + invocations u.
Proof. unfold invocations. rewrite filter_app, length_app. reflexivity. Qed.

Lemma rate_limits_app t u : rate_limits (t ++ u) = rate_limits t + rate_limits u.
Proof. unfold rate_limits. rewrite filter_app, length_app. reflexivity. Qed.

Lemma sleeps_failed_attempts max a d k :
  sleeps (failed_attempts uniform01 max a d k) = waits_from uniform01 a d k.
Proof.
  revert a d. induction k as [|k IH]; intros a d; simpl; [reflexivity|].
  now rewrite IH.
Qed.

Lemma invocations_failed_attempts max a d k :
  invocations (failed_attempts uniform01 max a d k) = k.
Proof.
  revert a d. induction k as [|k IH]; intros a d; simpl; [reflexivity|].
  unfold invocations in *. simpl. now rewrite IH.
Qed.

Lemma rate_limits_failed_attempts max a d k :
  rate_limits (failed_attempts uniform01 max a d k) = k.
Proof.
  revert a d. induction k as [|k IH]; intros a d; simpl; [reflexivity|].
  unfold rate_limits in *. simpl. now rewrite IH.
Qed.

Lemma waits_from_length a d k : length (waits_from uniform01 a d k) = k.
Proof. revert a d. induction k; intros; simpl; auto. Qed.


(** [k] rate-limited answers take the loop through its next [k]
    attempts, as long as these are below 1024. *)
Lemma retry_loop_rate_limited max k :
  forall a rest w wk p,
    a + k <= 1024 ->
    rate_limited func k w wk ->
    retry_loop uniform01 func max (seq a k ++ rest) w p
    = retry_loop uniform01 func max rest wk
        {| trace := trace p ++ failed_attempts uniform01 max a (draws p) k;
           draws := draws p + k |}.
Proof.
  induction k as [|k IH]; intros a rest w wk p Ha H; simpl in H.
  - subst wk. simpl. rewrite app_nil_r, Nat.add_0_r. now destruct p.
  - destruct H as (w1 & Hf & Hk). simpl. rewrite Hf. simpl.
    rewrite exponential_backoff_sleeps by lia.
    rewrite (IH (S a) rest w1 wk) by (lia || exact Hk). unfold emit; simpl.
    rewrite <- !app_assoc. simpl. now rewrite <- plus_n_Sm.
Qed.

Lemma rate_limited_split k j w w' :
  rate_limited func (k + j) w w' ->
  exists wk, rate_limited func k w wk /\ rate_limited func j wk w'.
Proof.
  revert w. induction k as [|k IH]; intros w H; simpl in *.
  - now exists w.
  - destruct H as (w1 & Hf & H). destruct (IH _ H) as (wk & Hk & Hj).
    exists wk. split; [now exists w1 | exact Hj].
Qed.


Section Jitter.
Hypothesis jitter_range : forall n, (0 <= uniform01 n /\ uniform01 n <= 1)%Q.

(** Each wait lies between the capped power of two and the capped power
    of two plus one second of jitter, rounding included. *)
Lemma seconds_bounds i n :
  (Qmin 300 (inject_Z (pow2 i)) <= seconds i (uniform01 n)
   /\ seconds i (uniform01 n) <= Qmin 300 (inject_Z (pow2 i) + 1))%Q.
Proof.
  destruct (jitter_range n) as [H0 H1]. unfold seconds.
  set (f := float_round (inject_Z (pow2 i))).
  pose proof (pow2_pos i) as Hpos.
  destruct (Nat.le_gt_cases i 8) as [Hsmall|Hbig].
  - pose proof (@pow2_le i 8 Hsmall) as Hle. change (pow2 8) with 256%Z in Hle.
    assert (Hm : (1 <= pow2 i <= 2 ^ 52)%Z) by lia.
    assert (Hm1 : (1 <= pow2 i + 1 <= 2 ^ 52)%Z) by lia.
    assert (Hf : (f == inject_Z (pow2 i))%Q).
    { apply Qle_antisym.
      - apply (float_round_le Hm); [rewrite <- (Zlt_Qlt 0); lia | apply Qle_refl].
      - apply (float_round_ge Hm). apply Qle_refl. }
    assert (Hlow : (inject_Z (pow2 i) <= f + uniform01 n)%Q).
    { rewrite Hf. rewrite <- (Qplus_0_r (inject_Z (pow2 i))) at 1.
      now apply Qplus_le_r. }
    assert (Hhigh : (f + uniform01 n <= inject_Z (pow2 i + 1))%Q).
    { rewrite Hf, inject_Z_plus. now apply Qplus_le_r. }
    split; apply Q.min_le_compat_l.
    + now apply float_round_ge.
    + change 1%Q with (inject_Z 1). rewrite <- inject_Z_plus.
      apply (float_round_le Hm1); [|exact Hhigh].
      eapply Qlt_le_trans; [|exact Hlow]. rewrite <- (Zlt_Qlt 0). lia.
  - pose proof (@pow2_le 9 i Hbig) as Hle. change (pow2 9) with 512%Z in Hle.
    assert (H512 : (1 <= 512 <= 2 ^ 52)%Z) by lia.
    assert (Hf : (inject_Z 512 <= f)%Q).
    { apply (float_round_ge H512). rewrite <- Zle_Qle. exact Hle. }
    assert (Hsum : (inject_Z 512 <= float_round (f + uniform01 n))%Q).
    { apply (float_round_ge H512). apply Qle_trans with f; [exact Hf|].
      rewrite <- (Qplus_0_r f) at 1. now apply Qplus_le_r. }
    assert (Hcap : (Qmin 300 (float_round (f + uniform01 n)) == 300)%Q).
    { apply Q.min_l. eapply Qle_trans; [|exact Hsum]. discriminate. }
    rewrite Hcap. split; [apply Q.le_min_l|].
    apply Q.min_glb; [apply Qle_refl|].
    change 1%Q with (inject_Z 1). rewrite <- inject_Z_plus.
    change 300%Q with (inject_Z 300). rewrite <- Zle_Qle. lia.
Qed.





End Jitter.


End RetryFacts.

Lemma half_jitter_range n : (0 <= Retry.half_jitter n /\ Retry.half_jitter n <= 1)%Q.
Proof. unfold Retry.half_jitter. split; discriminate. Qed.

Lemma flaky_rate_limited {A} (v : A) j k :
  Retry.rate_limited (Retry.flaky (j + k) v) k j (j + k).
Proof.
  revert j. induction k as [|k IH]; intros j; simpl.
  - now rewrite Nat.add_0_r.
  - exists (S j). split.
    + unfold Retry.flaky. destruct (Nat.ltb_spec j (j + S k)); [reflexivity | lia].
    + rewrite <- plus_n_Sm. apply (IH (S j)).
Qed.



(** ** The container decoder *)

Section DecoderFacts.
Import Decoder.
Context {L : Libraries}.

Lemma valid_rows_app k before after :
  valid_rows k (before ++ after) = valid_rows k before ++ valid_rows k after.
Proof. unfold valid_rows. apply flat_map_app. Qed.

(** On an archive that can be read to its end the loop returns what it
    already had and then as many valid rows as the budget still allows. *)
Lemma records_loop_of_list k max_records records :
  forall extracted_data t,
    fst (records_loop k max_records (of_list records) extracted_data t)
    = Ok (extracted_data
          ++ firstn (Z.to_nat max_records - length extracted_data)
                    (valid_rows k records)).
Proof.
  induction records as [|record rest IH]; intros acc t; simpl.
  - now rewrite firstn_nil, app_nil_r.
  - destruct (Z.geb_spec (Z.of_nat (length acc)) max_records) as [Hfull|Hroom].
    + simpl. replace (Z.to_nat max_records - length acc) with 0 by lia.
      now rewrite app_nil_r.
    + destruct (Z.to_nat max_records - length acc) as [|room] eqn:Eroom; [lia|].
      destruct (wanted k record); [destruct (make_row k record)|];
        rewrite IH; simpl.
      * rewrite <- app_assoc, length_app. simpl.
        replace (Z.to_nat max_records - (length acc + 1)) with room by lia.
        reflexivity.
      * now rewrite Eroom.
      * now rewrite Eroom.
Qed.

(** Whatever the archive, the loop never returns more rows than the
    budget, provided it started within the budget. *)
Lemma records_loop_budget k max_records it :
  forall extracted_data t rows,
    (Z.of_nat (length extracted_data) <= max_records)%Z ->
    fst (records_loop k max_records it extracted_data t) = Ok rows ->
    (Z.of_nat (length rows) <= max_records)%Z.
Proof.
  induction it as [|e|record rest IH]; intros acc t rows Hacc; simpl.
  - intros [= <-]. exact Hacc.
  - discriminate.
  - destruct (Z.geb_spec (Z.of_nat (length acc)) max_records) as [Hfull|Hroom].
    + intros [= <-]. exact Hacc.
    + destruct (wanted k record); [destruct (make_row k record)|];
        apply IH; try exact Hacc.
      rewrite length_app. simpl. lia.
Qed.

(** The loop only asks for records and reports record errors. *)
Lemma records_loop_trace k max_records it :
  forall extracted_data t,
  exists decoding,
    snd (records_loop k max_records it extracted_data t) = t ++ decoding
    /\ forallb decoding_event decoding = true
    /\ hd_error decoding = Some Next.
Proof.
  induction it as [|e|record rest IH]; intros acc t; simpl.
  - exists [Next]. auto.
  - exists [Next]. auto.
  - destruct (Z.of_nat (length acc) >=? max_records)%Z.
    + exists [Next]. auto.
    + destruct (wanted k record); [destruct (make_row k record) as [r|e]|].
      * destruct (IH (acc ++ [r]) (t ++ [Next])) as (d & -> & Hd & _).
        exists (Next :: d). rewrite <- app_assoc. auto.
      * destruct (IH acc ((t ++ [Next]) ++ [PrintRecordError k e]))
          as (d & -> & Hd & _).
        exists (Next :: PrintRecordError k e :: d). rewrite <- !app_assoc. auto.
      * destruct (IH acc (t ++ [Next])) as (d & -> & Hd & _).
        exists (Next :: d). rewrite <- app_assoc. auto.
Qed.

Lemma read_before_parsing_decoding decoding :
  forallb decoding_event decoding = true ->
  hd_error decoding = Some Next \/ ~ In Next decoding ->
  read_before_parsing decoding = 0.
Proof.
  intros Hd [Hhd|Hno].
  - destruct decoding as [|ev d]; [reflexivity|]. now injection Hhd as ->.
  - induction decoding as [|ev d IH]; [reflexivity|].
    simpl in Hd. apply andb_prop in Hd as [Hev Hd].
    destruct ev; try discriminate; simpl.
    + exfalso. apply Hno. now left.
    + apply IH; [exact Hd | intros H; apply Hno; now right].
    + apply IH; [exact Hd | intros H; apply Hno; now right].
Qed.

(** When the iterator itself raises before the budget is reached (a
    damaged gzip member, a broken WARC header), the exception leaves
    the loop. *)
Lemma records_loop_damaged k max_records records e :
  forall extracted_data t,
    (Z.of_nat (length extracted_data + length (valid_rows k records))
     < max_records)%Z ->
    fst (records_loop k max_records (followed_by records (Broken e))
                      extracted_data t) = Raise e.
Proof.
  induction records as [|record rest IH]; intros acc t Hroom; simpl.
  - reflexivity.
  - unfold valid_rows in Hroom. simpl in Hroom. rewrite length_app in Hroom.
    fold (valid_rows k rest) in Hroom.
    destruct (Z.geb_spec (Z.of_nat (length acc)) max_records) as [Hfull|_]; [lia|].
    destruct (wanted k record); [destruct (make_row k record)|];
      apply IH; rewrite ?length_app; simpl in *; lia.
Qed.

(** The outer [except] then returns the empty list: the rows decoded
    before the damage are not returned. *)
Lemma extract_gz_content_damaged_container
      s3 key max_records t k body gz_content records e :
  get_object s3 BUCKET_NAME key = Ok body ->
  read body = Ok gz_content ->
  kind_of key = Some k ->
  ArchiveIterator gz_content = followed_by records (Broken e) ->
  (Z.of_nat (length (valid_rows k records)) < max_records)%Z ->
  fst (extract_gz_content s3 key max_records t) = [].
Proof.
  intros Hget Hread Hkind Hit Hroom. unfold extract_gz_content.
  rewrite Hget, Hread, Hkind, Hit.
  pose proof (@records_loop_damaged k max_records records e []
                ((t ++ [GetObject BUCKET_NAME key]) ++ [Read (length gz_content)])
                Hroom) as H.
  destruct (records_loop _ _ _ _ _) as [[rows|e'] t']; simpl in H;
    [discriminate | reflexivity].
Qed.

(** The loop's own rows are the rows the claim expects. *)
Lemma make_row_expected k record :
  (if wanted k record then DecoderMore.accepted (make_row k record) else None)
  = DecoderMore.expected_row k record.
Proof.
  unfold DecoderMore.expected_row, DecoderMore.payload_text, make_row.
  destruct (wanted k record); [|reflexivity].
  destruct k; simpl.
  - destruct (decode_utf8 (content record)) as [s|e]; [|reflexivity]. simpl.
    destruct (json_loads s); reflexivity.
  - destruct (decode_utf8 (content record)); reflexivity.
  - destruct (html_get_text _); reflexivity.
Qed.

Lemma valid_rows_expected k records :
  valid_rows k records = DecoderMore.expected_rows k records.
Proof.
  unfold valid_rows, DecoderMore.expected_rows.
  induction records as [|record records IH]; [reflexivity|]. simpl.
  rewrite IH, <- make_row_expected.
  destruct (wanted k record); [destruct (make_row k record)|]; reflexivity.
Qed.

Lemma expected_rows_length k records :
  length (DecoderMore.expected_rows k records)
  = length (filter (DecoderMore.valid_record k) records).
Proof.
  induction records as [|record records IH]; [reflexivity|].
  change (DecoderMore.expected_rows k (record :: records))
    with (match DecoderMore.expected_row k record with
          | Some r => [r]
          | None => []
          end ++ DecoderMore.expected_rows k records).
  rewrite length_app, IH. cbn [filter].
  unfold DecoderMore.valid_record, DecoderMore.expected_row.
  destruct (wanted k record); [|reflexivity]. simpl.
  destruct (DecoderMore.payload_text k record); reflexivity.
Qed.

(** C5, as the code has it.  On a container whose records can all be
    iterated, a record whose decoding raises (undecodable bytes,
    malformed JSON) is left out and nothing else is: the call returns
    the rows of the valid records, in order, cut at the budget, so
    their number is the smaller of the budget and the number of valid
    records.  On a container whose iteration fails after its records,
    with fewer valid records than the budget, the call returns no row
    at all. *)
Theorem extract_gz_content_skips_bad_records
        s3 key max_records t k body gz_content records :
  get_object s3 BUCKET_NAME key = Ok body ->
  read body = Ok gz_content ->
  kind_of key = Some k ->
  let extracted_data := fst (extract_gz_content s3 key max_records t) in
  let valid := filter (DecoderMore.valid_record k) records in
  (ArchiveIterator gz_content = of_list records ->
   extracted_data
   = firstn (Z.to_nat max_records) (DecoderMore.expected_rows k records)
   /\ length extracted_data = Nat.min (Z.to_nat max_records) (length valid))
  /\ (forall e,
        ArchiveIterator gz_content = followed_by records (Broken e) ->
        (Z.of_nat (length valid) < max_records)%Z ->
        extracted_data = []).
Proof.
  intros Hget Hread Hkind extracted_data valid. split.
  - intros Hit.
    assert (Hrows : extracted_data
                    = firstn (Z.to_nat max_records)
                             (DecoderMore.expected_rows k records)).
    { unfold extracted_data, extract_gz_content.
      rewrite Hget, Hread, Hkind, Hit.
      pose proof (@records_loop_of_list k max_records records []
                    ((t ++ [GetObject BUCKET_NAME key]) ++ [Read (length gz_content)])) as H.
      destruct (records_loop _ _ _ _ _) as [[rows|e] t']; simpl in H; [|discriminate].
      injection H as ->. simpl. now rewrite Nat.sub_0_r, valid_rows_expected. }
    split; [exact Hrows|].
    rewrite Hrows, length_firstn, expected_rows_length. reflexivity.
  - intros e Hit Hroom. unfold extracted_data.
    apply (@extract_gz_content_damaged_container
             s3 key max_records t k body gz_content records e Hget Hread Hkind Hit).
    now rewrite valid_rows_expected, expected_rows_length.
Qed.

(** C6. For every client, key and trace, and every budget
    [max_records >= 0], [extract_gz_content] returns at most
    [max_records] rows; with budget 0 it returns none. *)
Theorem extract_gz_content_budget s3 key max_records t :
  (0 <= max_records)%Z ->
  (Z.of_nat (length (fst (extract_gz_content s3 key max_records t)))
   <= max_records)%Z
  /\ fst (extract_gz_content s3 key 0 t) = [].
Proof.
  assert (Hle : forall n, (0 <= n)%Z ->
                  (Z.of_nat (length (fst (extract_gz_content s3 key n t))) <= n)%Z).
  { intros n Hn. unfold extract_gz_content.
    destruct (get_object s3 BUCKET_NAME key) as [body|e]; [|exact Hn].
    destruct (read body) as [gz_content|e]; [|exact Hn].
    destruct (kind_of key) as [k|]; [|exact Hn].
    pose proof (@records_loop_budget k n (ArchiveIterator gz_content) []
                  ((t ++ [GetObject BUCKET_NAME key]) ++ [Read (length gz_content)])) as H.
    destruct (records_loop _ _ _ _ _) as [[rows|e] t']; simpl in *; [|exact Hn].
    now apply H. }
  intros Hn. split; [now apply Hle|].
  specialize (Hle 0%Z ltac:(lia)).
  destruct (fst (extract_gz_content s3 key 0 t)); [reflexivity|simpl in Hle; lia].
Qed.

(** C8, as the code has it.  When the object can be fetched,
    [extract_gz_content] first reads all of it into memory, with one
    [read()] that returns every byte of the compressed object whatever
    the record budget, and only afterwards asks the iterator for
    records; from there on it does nothing but iterate. *)
Theorem extract_gz_content_reads_whole_object
        s3 key max_records t body gz_content :
  get_object s3 BUCKET_NAME key = Ok body ->
  read body = Ok gz_content ->
  exists decoding,
    snd (extract_gz_content s3 key max_records t)
    = t ++ [GetObject BUCKET_NAME key; Read (length gz_content)] ++ decoding
    /\ forallb decoding_event decoding = true
    /\ read_before_parsing
         ([GetObject BUCKET_NAME key; Read (length gz_content)] ++ decoding)
       = length gz_content.
Proof.
  intros Hget Hread. unfold extract_gz_content. rewrite Hget, Hread.
  destruct (kind_of key) as [k|].
  - destruct (@records_loop_trace k max_records (ArchiveIterator gz_content) []
                ((t ++ [GetObject BUCKET_NAME key]) ++ [Read (length gz_content)]))
      as (d & Hd & Hev & Hhd).
    destruct (records_loop _ _ _ _ _) as [[rows|e] t']; simpl in Hd; subst t'.
    + exists d. simpl. rewrite <- !app_assoc. split; [reflexivity|].
      split; [exact Hev|].
      rewrite read_before_parsing_decoding by auto. lia.
    + exists (d ++ [PrintExtractError key e]). simpl.
      rewrite <- !app_assoc. split; [reflexivity|].
      split; [now rewrite forallb_app, Hev|].
      rewrite read_before_parsing_decoding; [lia | now rewrite forallb_app, Hev |].
      left. destruct d; [discriminate|exact Hhd].
  - exists []. simpl. rewrite <- app_assoc. repeat split. lia.
Qed.

End DecoderFacts.

#[local] Existing Instance Samples.libraries.

(** Five records, the second not JSON and the third not UTF-8, the
    fourth of another type: with the default budget the two good rows
    come back, the one after the bad records included. *)
Lemma extract_gz_content_skips_bad_records_witness :
  let key := py "seg/a.wat.gz" in
  Decoder.get_object Samples.s3 Decoder.BUCKET_NAME key
  = Ok {| Decoder.read := Ok Samples.wat_object |}
  /\ Decoder.kind_of key = Some Decoder.WAT
  /\ Decoder.ArchiveIterator Samples.wat_object = Decoder.of_list Samples.wat_records
  /\ map (DecoderMore.valid_record Decoder.WAT) Samples.wat_records
     = [true; false; false; false; true]
  /\ map Decoder.URL (fst (Decoder.extract_gz_content Samples.s3 key 5 []))
     = [py "http://a.example/"; py "http://d.example/"]
  /\ length (fst (Decoder.extract_gz_content Samples.s3 key 5 [])) = 2.
Proof.
  intros key.
  assert (Hit : Decoder.ArchiveIterator Samples.wat_object
                = Decoder.of_list Samples.wat_records) by reflexivity.
  split; [reflexivity|]. split; [reflexivity|]. split; [exact Hit|].
  split; [reflexivity|].
  destruct (proj1 (@extract_gz_content_skips_bad_records
                     Samples.libraries Samples.s3 key 5 [] Decoder.WAT
                     {| Decoder.read := Ok Samples.wat_object |}
                     Samples.wat_object Samples.wat_records
                     eq_refl eq_refl eq_refl) Hit) as [Hrows Hlen].
  split; [rewrite Hrows; reflexivity | rewrite Hlen; reflexivity].
Defined.

(** C5 fails as stated.  The download of the same container cut short
    holds the same two valid records, the second after the two bad
    ones, and the budget is 5; yet no row comes back, because the
    iterator raises at the cut and the outer [except] returns the empty
    list. *)
Lemma extract_gz_content_cut_container_yields_nothing :
  let key := py "seg/wat/cut.wat.gz" in
  let extracted_data :=
    fst (Decoder.extract_gz_content (L := DecoderMore.libraries)
           DecoderMore.s3 key 5 []) in
  Decoder.ArchiveIterator (Libraries := DecoderMore.libraries) DecoderMore.cut_object
  = Decoder.followed_by Samples.wat_records (Decoder.Broken (Error "EOFError"))
  /\ length (filter (DecoderMore.valid_record (L := DecoderMore.libraries) Decoder.WAT)
                    Samples.wat_records) = 2
  /\ extracted_data = []
  /\ length extracted_data <> Nat.min 5 2.
Proof.
  intros key extracted_data.
  split; [reflexivity|]. split; [reflexivity|]. split; [reflexivity|].
  vm_compute. discriminate.
Qed.

(** With budget 1 the same container gives one row; with budget 0, none. *)
Lemma extract_gz_content_budget_witness :
  (0 <= 1)%Z
  /\ (Z.of_nat (length (fst (Decoder.extract_gz_content
                               Samples.s3 (py "seg/a.wat.gz") 1 []))) <= 1)%Z
  /\ fst (Decoder.extract_gz_content Samples.s3 (py "seg/a.wat.gz") 0 []) = [].
Proof.
  split; [lia|].
  exact (@extract_gz_content_budget Samples.libraries Samples.s3
           (py "seg/a.wat.gz") 1 [] ltac:(lia)).
Defined.

(** C8 fails as stated: the four bytes of the sample object are all in
    memory before the iterator is asked for its first record, even with
    a budget of no records at all. *)
Lemma extract_gz_content_buffers_whole_object :
  let t := snd (Decoder.extract_gz_content Samples.s3 (py "seg/a.wat.gz") 0 []) in
  length Samples.wat_object = 4
  /\ Decoder.read_before_parsing t = 4
  /\ ~ Decoder.read_before_parsing t < length Samples.wat_object.
Proof.
  intros t. split; [reflexivity|]. split; [reflexivity|].
  vm_compute. lia.
Qed.

(** The sample object: fetched, read whole (four bytes), then decoded. *)
Lemma extract_gz_content_reads_whole_object_witness :
  let key := py "seg/a.wat.gz" in
  Decoder.get_object Samples.s3 Decoder.BUCKET_NAME key
  = Ok {| Decoder.read := Ok Samples.wat_object |}
  /\ exists decoding,
      snd (Decoder.extract_gz_content Samples.s3 key 5 [])
      = [] ++ [Decoder.GetObject Decoder.BUCKET_NAME key; Decoder.Read 4] ++ decoding
      /\ forallb Decoder.decoding_event decoding = true
      /\ Decoder.read_before_parsing
           ([Decoder.GetObject Decoder.BUCKET_NAME key; Decoder.Read 4] ++ decoding)
         = 4.
Proof.
  intros key. split; [reflexivity|].
  exact (@extract_gz_content_reads_whole_object
           Samples.libraries Samples.s3 key 5 []
           {| Decoder.read := Ok Samples.wat_object |} Samples.wat_object
           eq_refl eq_refl).
Defined.

(** ** The index client, the sink and the scheduler *)

Section CrawlFacts.
Import Crawl.
Context {W : Type} {world_services : World W} {L : Libraries}.

Lemma comprehension_all {A B} (f : A -> result B) xs ys :
  Forall2 (fun x y => f x = Ok y) xs ys -> comprehension f xs = Ok ys.
Proof.
  induction 1 as [|x y xs ys Hxy _ IH]; simpl; [reflexivity|].
  now rewrite Hxy, IH.
Qed.

Lemma comprehension_some_raise {A B} (f : A -> result B) xs x e :
  In x xs -> f x = Raise e -> exists e', comprehension f xs = Raise e'.
Proof.
  induction xs as [|x0 xs IH]; intros Hin Hx; [contradiction|]. simpl.
  destruct (f x0) as [y|e0] eqn:E0; [|now exists e0].
  destruct Hin as [->|Hin]; [congruence|].
  destruct (IH Hin Hx) as (e' & ->). now exists e'.
Qed.

(** [query_index] returns normally in every state. *)
Lemma query_index_returns url index (st : state W) :
  exists records, fst (query_index url index st) = Ok records.
Proof.
  unfold query_index, try_except, bind, emit, call, lift, ret. simpl.
  destruct (requests_get _ url (world st)) as [[response|e] w]; simpl.
  - destruct (status_code response =? 200)%Z; simpl; [|now exists []].
    destruct (comprehension json_loads _) as [records|e]; simpl;
      [now exists records | now exists []].
  - now exists [].
Qed.

(** Computing the bag of queries of one index gives one result per URL
    pattern, whatever the index answers. *)
Lemma compute_queries_returns index target_urls :
  forall st : state W,
  exists results,
    fst (compute (bag_map (fun url => query_index url index)
                          (from_sequence target_urls)) st) = Ok results
    /\ length results = length target_urls.
Proof.
  induction target_urls as [|url urls IH]; intros st; simpl.
  - now exists [].
  - unfold bind at 1 2. unfold ret at 1. 
    destruct (query_index_returns url index st) as (records & Hq).
    destruct (query_index url index st) as [r st1]. simpl in Hq. subst r.
    destruct (IH st1) as (results & Hc & Hlen).
    unfold bind at 1.
    destruct (compute _ st1) as [r st2]. simpl in Hc. subst r.
    exists (records :: results). simpl. now rewrite Hlen.
Qed.

(** C7. When the request raises (transport error) or is answered with
    a status other than 200, [query_index] returns the empty list.  It
    raises in no state at all, so the bag of queries of an index always
    computes to one result per URL pattern and the run goes on. *)
Theorem query_index_failure_is_empty url index (st : state W) :
  (exists e, fst (requests_get (index_endpoint index) url (world st)) = Raise e)
  \/ (exists response,
         fst (requests_get (index_endpoint index) url (world st)) = Ok response
         /\ status_code response <> 200%Z) ->
  fst (query_index url index st) = Ok []
  /\ (forall url' index' (st' : state W),
         exists records, fst (query_index url' index' st') = Ok records)
  /\ (forall target_urls (st' : state W),
         exists results,
           fst (compute (bag_map (fun u => query_index u index)
                                 (from_sequence target_urls)) st') = Ok results
           /\ length results = length target_urls).
Proof.
  intros Hfail. split; [|split].
  - unfold query_index, try_except, bind, emit, call, lift, ret. simpl.
    
    destruct (requests_get (index_endpoint index) url (world st)) as [[response|e] w];
      simpl in *.
    + destruct Hfail as [(e & He)|(r & [= <-] & Hstatus)]; [discriminate|].
      destruct (Z.eqb_spec (status_code response) 200); [contradiction|reflexivity].
    + reflexivity.
  - intros. apply query_index_returns.
  - intros. apply compute_queries_returns.
Qed.

(** C2, as the code has it.  For a response with status 200: if every
    non-empty line of the stripped body is accepted by [json.loads],
    [query_index] returns the decoded values in line order; if one of
    them is rejected, it returns the empty list, the records of the
    other lines included in the loss. *)
Theorem query_index_lines url index (st : state W) response w' :
  requests_get (index_endpoint index) url (world st) = (Ok response, w') ->
  status_code response = 200%Z ->
  (forall records,
      Forall2 (fun line record => json_loads line = Ok record)
              (lines_of (text response)) records ->
      fst (query_index url index st) = Ok records)
  /\ (forall line e,
         In line (lines_of (text response)) ->
         json_loads line = Raise e ->
         fst (query_index url index st) = Ok []).
Proof.
  intros Hget Hstatus.
  assert (Hrun : fst (query_index url index st)
                 = match comprehension json_loads (lines_of (text response)) with
                   | Ok records => Ok records
                   | Raise _ => Ok []
                   end).
  { unfold query_index, try_except, bind, emit, call, lift, ret. simpl.
     rewrite Hget. simpl. rewrite Hstatus. simpl.
    now destruct (comprehension json_loads _). }
  split.
  - intros records Hall. rewrite Hrun. now rewrite (@comprehension_all _ _ json_loads _ _ Hall).
  - intros line e Hin Hbad.
    destruct (@comprehension_some_raise _ _ json_loads _ _ _ Hin Hbad) as (e' & He').
    now rewrite Hrun, He'.
Qed.

(** C9. With no records [save_to_s3] does nothing: it returns [None]
    and leaves the store, the clock and the trace as they were. *)
Theorem save_to_s3_empty_is_noop self folder_name index (st : state W) :
  save_to_s3 self [] folder_name index st = (Ok tt, st)
  /\ writes (trace (snd (save_to_s3 self [] folder_name index st)))
     = writes (trace st).
Proof. split; reflexivity. Qed.

(** C3, as the code has it.  When [put_object] raises, [save_to_s3]
    has made that one attempt and makes no other, prints the error and
    returns [None] as it does after a successful write: the caller is
    not told. *)
Theorem save_to_s3_absorbs_write_failure
        self data folder_name index (st : state W) timestamp w1 body e w2 :
  data <> [] ->
  now (world st) = (timestamp, w1) ->
  to_parquet data = Ok body ->
  let key := folder_name ++ py "/" ++ index ++ py "/" ++ timestamp ++ py ".parquet" in
  put_object (bucket_name self) key body w1 = (Raise e, w2) ->
  save_to_s3 self data folder_name index st
  = (Ok tt,
     {| world := w2;
        trace := trace st ++ [ PutObject (bucket_name self) key body;
                               PrintSaveError e ] |}).
Proof.
  intros Hdata Hnow Hser key Hput. subst key.
  destruct data as [|r data]; [contradiction|].
  unfold save_to_s3, try_except, bind, emit, call, lift.
  cbn [world trace fst snd]. rewrite Hnow. cbn [world trace]. rewrite Hser.
  cbn [world trace]. rewrite Hput. cbn [world trace].
  now rewrite <- app_assoc.
Qed.

Lemma queries_app t u : queries (t ++ u) = queries t + queries u.
Proof. unfold queries. now rewrite filter_app, length_app. Qed.

Lemma issues_ret {A} (a : A) : issues 0 (ret (W:=W) a).
Proof. intros st a' st' [= _ <-]. lia. Qed.

Lemma issues_lift {A} (r : result A) : issues 0 (lift (W:=W) r).
Proof. intros st a' st' [= _ <-]. lia. Qed.

Lemma issues_emit ev : is_query ev = false -> issues 0 (emit (W:=W) ev).
Proof.
  intros Hev st a st' [= _ <-]. simpl. rewrite queries_app.
  unfold queries at 2. simpl. now rewrite Hev.
Qed.

Lemma issues_bind {A B} a b (m : M W A) (f : A -> M W B) :
  issues a m -> (forall x, issues b (f x)) -> issues (a + b) (bind m f).
Proof.
  intros Hm Hf st y st'. unfold bind.
  destruct (m st) as [[x|e] st1] eqn:E; [|discriminate].
  intros H. rewrite (Hf _ _ _ _ H), (Hm _ _ _ E). lia.
Qed.

Lemma issues_for_each {A} n (xs : list A) (body : A -> M W unit) :
  (forall x, issues n (body x)) -> issues (length xs * n) (for_each xs body).
Proof.
  intros Hbody. induction xs as [|x xs IH]; simpl.
  - apply issues_ret.
  - apply issues_bind; [apply Hbody | intros _; exact IH].
Qed.

Lemma issues_try_finally {A} n (body : M W A) (cleanup : M W unit) :
  issues n body -> issues 0 cleanup -> issues n (try_finally body cleanup).
Proof.
  intros Hbody Hclean st a st'. unfold try_finally.
  destruct (body st) as [r st1] eqn:Eb.
  destruct (cleanup st1) as [[u|e] st2] eqn:Ec; [|discriminate].
  intros [= -> <-]. rewrite (Hclean _ _ _ Ec), (Hbody _ _ _ Eb). lia.
Qed.

(** Every call of [query_index] is one request. *)
Lemma issues_query_index url index : issues 1 (query_index url index).
Proof.
  intros st records st'.
  unfold query_index, try_except, bind, emit, call, lift, ret.
  cbn [world trace].
  destruct (requests_get _ url (world st)) as [[response|e] w]; cbn [world trace].
  - destruct (status_code response =? 200)%Z;
      [destruct (comprehension json_loads _)|];
      intros [= _ <-]; cbn [trace]; rewrite ?queries_app; unfold queries;
      cbn [filter is_query length]; lia.
  - intros [= _ <-]. cbn [trace]. rewrite !queries_app. unfold queries.
    cbn [filter is_query length]. lia.
Qed.

Lemma issues_save_to_s3 self data folder_name index :
  issues 0 (save_to_s3 self data folder_name index).
Proof.
  intros st u st'. destruct data as [|r data]; [intros [= _ <-]; lia|].
  unfold save_to_s3, try_except, bind, emit, call, lift. cbn [world trace].
  destruct (now (world st)) as [timestamp w1]. cbn [world trace].
  destruct (to_parquet (r :: data)) as [body|e]; [|discriminate].
  cbn [world trace].
  destruct (put_object _ _ body w1) as [[[]|e] w2]; cbn [world trace];
    intros [= _ <-]; cbn [trace]; rewrite !queries_app; unfold queries;
    cbn [filter is_query length]; lia.
Qed.

(** Computing a bag mapped over the bag of queries runs every query of
    that bag: one request per URL pattern, at each [compute()]. *)
Lemma issues_compute_records index (g : list json -> result (list json)) target_urls :
  issues (length target_urls)
         (compute (bag_map (fun x => lift (g x))
                           (bag_map (fun url => query_index url index)
                                    (from_sequence target_urls)))).
Proof.
  induction target_urls as [|url urls IH]; simpl.
  - apply issues_ret.
  - apply (@issues_bind _ _ 1 (length urls)).
    + change 1 with (0 + 1 + 0). apply issues_bind; [|intros; apply issues_lift].
      apply issues_bind; [apply issues_ret | intros; apply issues_query_index].
    + intros x. rewrite <- (Nat.add_0_r (length urls)).
      apply issues_bind; [exact IH | intros; apply issues_ret].
Qed.

(** A run that completes has sent four requests for every pair of a URL
    pattern and an index: one at each of the four [compute()] calls of
    the folder loop. *)
Lemma process_with_dask_queries self target_urls (st st' : state W) :
  process_with_dask self target_urls st = (Ok tt, st') ->
  queries (trace st')
  = queries (trace st) + 4 * (length target_urls * length (indexes self)).
Proof.
  intros Hrun.
  assert (H : issues (0 + length (indexes self) * (0 + 4 * (length target_urls + 0)))
                     (process_with_dask self target_urls)).
  { unfold process_with_dask.
    apply issues_bind; [now apply issues_emit|]. intros _.
    apply issues_try_finally; [|now apply issues_emit].
    apply issues_for_each. intros index. unfold process_index.
    apply issues_bind; [now apply issues_emit|]. intros _.
    apply (issues_for_each (n := length target_urls + 0)).
    intros [folder_name processor_func].
    rewrite <- (Nat.add_0_l (length target_urls + 0)).
    apply issues_bind; [now apply issues_emit|]. intros _.
    apply issues_bind; [apply issues_compute_records|].
    intros processed_records. apply issues_save_to_s3. }
  rewrite (H _ _ _ Hrun). lia.
Qed.

Lemma returns_ret {A} (P : A -> Prop) a : P a -> returns P (ret (W:=W) a).
Proof. intros Ha st. now exists a, st. Qed.

Lemma returns_emit ev : returns (fun _ => True) (emit (W:=W) ev).
Proof. intros st. eexists tt, _. split; [reflexivity|exact I]. Qed.

Lemma returns_bind {A B} (P : A -> Prop) (Q : B -> Prop) (m : M W A) (f : A -> M W B) :
  returns P m -> (forall a, P a -> returns Q (f a)) -> returns Q (bind m f).
Proof.
  intros Hm Hf st. destruct (Hm st) as (a & st1 & Em & Ha).
  destruct (Hf a Ha st1) as (b & st2 & Ef & Hb).
  exists b, st2. unfold bind. rewrite Em. now split.
Qed.

Lemma returns_for_each {A} (xs : list A) (body : A -> M W unit) :
  (forall x, returns (fun _ => True) (body x)) ->
  returns (fun _ => True) (for_each xs body).
Proof.
  intros Hbody. induction xs as [|x xs IH]; simpl.
  - now apply returns_ret.
  - apply returns_bind with (P := fun _ => True); [apply Hbody | now intros _ _].
Qed.

Lemma returns_try_finally {A} (P : A -> Prop) (body : M W A) (cleanup : M W unit) :
  returns P body -> returns (fun _ => True) cleanup ->
  returns P (try_finally body cleanup).
Proof.
  intros Hbody Hclean st. destruct (Hbody st) as (a & st1 & Eb & Ha).
  destruct (Hclean st1) as ([] & st2 & Ec & _).
  exists a, st2. unfold try_finally. rewrite Eb, Ec. now split.
Qed.

Lemma comprehension_Forall {A B} (f : A -> result B) (P : B -> Prop) xs ys :
  (forall x y, f x = Ok y -> P y) ->
  comprehension f xs = Ok ys -> Forall P ys.
Proof.
  intros Hf. revert ys. induction xs as [|x xs IH]; simpl; intros ys.
  - intros [= <-]. constructor.
  - destruct (f x) as [y|e] eqn:E; [|discriminate].
    destruct (comprehension f xs) as [ys'|e]; [|discriminate].
    intros [= <-]. constructor; [exact (Hf _ _ E) | now apply IH].
Qed.

(** The filters of [folders] go through on a list of dicts. *)
Lemma only_dicts key value x :
  Forall (fun r => is_dict r = true) x -> exists y, only key value x = Ok y.
Proof.
  unfold only. induction 1 as [|r x Hr _ (y & IH)]; simpl.
  - now exists [].
  - destruct r; try discriminate. simpl. rewrite IH. eauto.
Qed.

Lemma folders_dicts folder_name processor_func x :
  In (folder_name, processor_func) folders ->
  Forall (fun r => is_dict r = true) x ->
  exists y, processor_func x = Ok y.
Proof.
  intros Hin Hx. unfold folders in Hin. simpl in Hin.
  destruct Hin as [[= _ <-]|[[= _ <-]|[[= _ <-]|[[= _ <-]|[]]]]];
    eauto using only_dicts.
Qed.

Section Completion.
(** Every line the index sends decodes to a dict or not at all, and
    the parquet writer accepts every batch. *)
Hypothesis lines_are_dicts :
  forall line x, json_loads line = Ok x -> is_dict x = true.
Hypothesis parquet_writes : forall data, exists body, to_parquet data = Ok body.

Lemma returns_query_index url index :
  returns (Forall (fun r => is_dict r = true)) (query_index url index).
Proof.
  intros st. unfold query_index, try_except, bind, emit, call, lift, ret.
  cbn [world trace].
  destruct (requests_get _ url (world st)) as [[response|e] w]; cbn [world trace].
  - destruct (status_code response =? 200)%Z.
    + destruct (comprehension json_loads _) as [records|e] eqn:E.
      * eexists _, _. split; [reflexivity|].
        exact (comprehension_Forall _ _ _ lines_are_dicts E).
      * eexists _, _. split; [reflexivity|constructor].
    + eexists _, _. split; [reflexivity|constructor].
  - eexists _, _. split; [reflexivity|constructor].
Qed.

Lemma returns_compute_records index (g : list json -> result (list json)) target_urls :
  (forall x, Forall (fun r => is_dict r = true) x -> exists y, g x = Ok y) ->
  returns (fun _ => True)
          (compute (bag_map (fun x => lift (g x))
                            (bag_map (fun url => query_index url index)
                                     (from_sequence target_urls)))).
Proof.
  intros Hg. induction target_urls as [|url urls IH]; simpl.
  - now apply returns_ret.
  - apply returns_bind with (P := fun _ => True).
    + apply returns_bind with (P := Forall (fun r => is_dict r = true)).
      * apply returns_bind with (P := fun _ => True);
          [now apply returns_ret | intros; apply returns_query_index].
      * intros x Hx st. destruct (Hg x Hx) as (y & Hy).
        exists y, st. unfold lift. now rewrite Hy.
    + intros x _. apply returns_bind with (P := fun _ => True);
        [exact IH | intros; now apply returns_ret].
Qed.

Lemma returns_save_to_s3 self data folder_name index :
  returns (fun _ => True) (save_to_s3 self data folder_name index).
Proof.
  intros st. destruct data as [|r data]; [now exists tt, st|].
  unfold save_to_s3, try_except, bind, emit, call, lift. cbn [world trace].
  destruct (now (world st)) as [timestamp w1]. cbn [world trace].
  destruct (parquet_writes (r :: data)) as (body & ->). cbn [world trace].
  destruct (put_object _ _ body w1) as [[[]|e] w2]; cbn [world trace];
    eexists tt, _; split; reflexivity || exact I.
Qed.

(** Under these two conditions every run completes, whatever the index
    and the store answer, and has sent four requests per (URL pattern,
    index) pair. *)
Lemma process_with_dask_completes self target_urls (st : state W) :
  exists st',
    process_with_dask self target_urls st = (Ok tt, st')
    /\ queries (trace st')
       = queries (trace st) + 4 * (length target_urls * length (indexes self)).
Proof.
  assert (H : returns (fun _ => True) (process_with_dask self target_urls)).
  { unfold process_with_dask.
    apply returns_bind with (P := fun _ => True); [apply returns_emit|].
    intros _ _. apply returns_try_finally; [|apply returns_emit].
    apply returns_for_each. intros index. unfold process_index.
    apply returns_bind with (P := fun _ => True); [apply returns_emit|].
    intros _ _.
    assert (Hall : forall fs,
               incl fs folders ->
               returns (fun _ => True)
                 (for_each fs
                    (fun '(folder_name, processor_func) =>
                       emit (PrintFolder folder_name) ;;
                       processed_records <-
                         compute (bag_map (fun x => lift (processor_func x))
                                    (bag_map (fun url => query_index url index)
                                       (from_sequence target_urls))) ;;
                       save_to_s3 self (concat processed_records) folder_name index))).
    { induction fs as [|[folder_name processor_func] fs IH]; intros Hincl; simpl.
      - now apply returns_ret.
      - apply returns_bind with (P := fun _ => True).
        + apply returns_bind with (P := fun _ => True); [apply returns_emit|].
          intros _ _. apply returns_bind with (P := fun _ => True).
          * apply returns_compute_records. intros x Hx.
            apply (@folders_dicts folder_name); [apply Hincl; now left | exact Hx].
          * intros. apply returns_save_to_s3.
        + intros _ _. apply IH. intros f Hf. apply Hincl. now right. }
    apply Hall. apply incl_refl. }
  destruct (H st) as ([] & st' & Hrun & _). exists st'.
  split; [exact Hrun | exact (process_with_dask_queries _ _ _ Hrun)].
Qed.

End Completion.

(** One call of [save_to_s3] writes at most once, and not at all
    without records. *)
Lemma save_to_s3_writes self (data : list json) folder_name index :
  writes_at_most (match data with [] => 0 | _ => 1 end)
                 (save_to_s3 self data folder_name index).
Proof.
  intros st r st'. destruct data as [|x data]; [intros [= _ <-]; lia|].
  unfold save_to_s3, try_except, bind, emit, call, lift, writes.
  cbn [world trace].
  destruct (now (world st)) as [timestamp w1]. cbn [world trace].
  destruct (to_parquet (x :: data)) as [body|e]; cbn [world trace];
    [|intros [= _ <-]; cbn [trace]; lia].
  destruct (put_object _ _ body w1) as [[[]|e] w2]; cbn [world trace];
    intros [= _ <-]; cbn [trace]; rewrite !filter_app, !length_app;
    cbn [filter is_write length]; lia.
Qed.

End CrawlFacts.

#[local] Existing Instance Samples.world.
#[local] Existing Instance Samples.crawl_libraries.

(** C1, on the code.  Two URL patterns against the six configured
    indexes are twelve pairs.  The run writes one object for each
    non-empty (folder, index) batch, as the claim has it: 24 when all
    four folders of an index get records, 12 when the two filtered
    ones stay empty.  But it sends 48 requests, not 12: [records_bag]
    is computed afresh at each of the four [compute()] calls of the
    folder loop. *)
Theorem process_with_dask_query_count :
  let self := Crawl.init (py "fb-2024-25-12") in
  let target_urls := [py "a"; py "b"] in
  let run := Crawl.process_with_dask self target_urls (Crawl.start Samples.healthy) in
  let misses :=
    Crawl.process_with_dask self target_urls (Crawl.start Samples.only_misses) in
  length target_urls * length (Crawl.indexes self) = 12
  /\ fst run = Ok tt
  /\ Crawl.writes (Crawl.trace (snd run)) = 24
  /\ Crawl.queries (Crawl.trace (snd run)) = 48
  /\ fst misses = Ok tt
  /\ Crawl.writes (Crawl.trace (snd misses)) = 12
  /\ Crawl.queries (Crawl.trace (snd misses)) = 48.
Proof. vm_compute. repeat split. Qed.

(** The same on the input of [main()]: four patterns, six indexes, 24
    pairs, 96 requests. *)
Example main_query_count :
  let run := Crawl.main (Crawl.start Samples.healthy) in
  fst run = Ok tt /\ Crawl.queries (Crawl.trace (snd run)) = 96.
Proof. vm_compute. split; reflexivity. Qed.

(** The index is unreachable for one pattern, busy for another: both
    queries return the empty list and the bag of three queries still
    computes to three results. *)
Lemma query_index_failure_is_empty_witness :
  let st := Crawl.start Samples.flaky_index in
  let index := py "CC-MAIN-2024-30" in
  fst (Crawl.requests_get (Crawl.index_endpoint index) (py "down.example/*")
                          (Crawl.world st))
  = Raise (Error "ConnectionError")
  /\ fst (Crawl.query_index (py "down.example/*") index st) = Ok []
  /\ fst (Crawl.query_index (py "busy.example/*") index st) = Ok []
  /\ exists results,
      fst (Crawl.compute
             (Crawl.bag_map (fun u => Crawl.query_index u index)
                (Crawl.from_sequence
                   [py "down.example/*"; py "busy.example/*"; py "www.vg.no/*"]))
             st) = Ok results
      /\ length results = 3.
Proof.
  intros st index.
  assert (Hdown_fails :
            exists e,
              fst (Crawl.requests_get (Crawl.index_endpoint index)
                     (py "down.example/*") (Crawl.world st)) = Raise e).
  { exists (Error "ConnectionError"). reflexivity. }
  assert (Hbusy_fails :
            exists response,
              fst (Crawl.requests_get (Crawl.index_endpoint index)
                     (py "busy.example/*") (Crawl.world st)) = Ok response
              /\ Crawl.status_code response <> 200%Z).
  { eexists. split; [reflexivity | discriminate]. }
  pose proof (@query_index_failure_is_empty _ Samples.world Samples.crawl_libraries
                (py "down.example/*") index st (or_introl Hdown_fails)) as Hdown.
  pose proof (@query_index_failure_is_empty _ Samples.world Samples.crawl_libraries
                (py "busy.example/*") index st (or_intror Hbusy_fails)) as Hbusy.
  split; [reflexivity|].
  split; [exact (proj1 Hdown)|]. split; [exact (proj1 Hbusy)|].
  exact (proj2 (proj2 Hdown)
           [py "down.example/*"; py "busy.example/*"; py "www.vg.no/*"] st).
Defined.

(** C2 fails as stated: of two lines the first is a record and the
    second is not JSON; the record of the first line is not returned. *)
Lemma query_index_drops_good_lines :
  let st := Crawl.start (Samples.answering Samples.one_bad_line true) in
  let good := Samples.dq "{'url': 'http://x.no/', 'status': '200'}" in
  let record := JDict [ (py "url", JStr (py "http://x.no/"));
                        (py "status", JStr (py "200")) ] in
  Crawl.lines_of Samples.one_bad_line = [good; py "<html>busy</html>"]
  /\ Samples.json_loads good = Ok record
  /\ Samples.json_loads (py "<html>busy</html>") = Raise (Error "JSONDecodeError")
  /\ fst (Crawl.query_index (py "x.no/*") (py "CC-MAIN-2024-30") st) = Ok []
  /\ fst (Crawl.query_index (py "x.no/*") (py "CC-MAIN-2024-30") st) <> Ok [record].
Proof.
  intros st good record. repeat split; try reflexivity.
  vm_compute. discriminate.
Qed.

(** Three good lines come back as three records; a body with a bad
    line comes back empty. *)
Lemma query_index_lines_witness :
  let index := py "CC-MAIN-2024-30" in
  let good := Crawl.start Samples.healthy in
  let bad := Crawl.start (Samples.answering Samples.one_bad_line true) in
  (exists records,
      fst (Crawl.query_index (py "x.no/*") index good) = Ok records
      /\ length records = 3)
  /\ fst (Crawl.query_index (py "x.no/*") index bad) = Ok [].
Proof.
  intros index good bad. split.
  - destruct (Crawl.comprehension Samples.json_loads
                (Crawl.lines_of Samples.three_hits)) as [records|e] eqn:E;
      [|discriminate E].
    exists records. split.
    + apply (proj1 (@query_index_lines _ Samples.world Samples.crawl_libraries
                      (py "x.no/*") index good
                      {| Crawl.status_code := 200; Crawl.text := Samples.three_hits |}
                      Samples.healthy eq_refl eq_refl)).
      revert E. vm_compute. intros [= <-]. repeat constructor.
    + revert E. vm_compute. now intros [= <-].
  - apply (proj2 (@query_index_lines _ Samples.world Samples.crawl_libraries
                    (py "x.no/*") index bad
                    {| Crawl.status_code := 200; Crawl.text := Samples.one_bad_line |}
                    (Samples.answering Samples.one_bad_line true) eq_refl eq_refl)
             (py "<html>busy</html>") (Error "JSONDecodeError")).
    + vm_compute. right. left. reflexivity.
    + reflexivity.
Defined.

(** C3 fails as stated: the store refuses the write, and [save_to_s3]
    returns [None] all the same, as it does when the write succeeds. *)
Lemma save_to_s3_hides_write_failure :
  let self := Crawl.init (py "fb-2024-25-12") in
  let data := [JDict [(py "status", JStr (py "200"))]] in
  let down := Crawl.save_to_s3 self data (py "raw_data") (py "CC-MAIN-2024-30")
                               (Crawl.start Samples.store_down) in
  let up := Crawl.save_to_s3 self data (py "raw_data") (py "CC-MAIN-2024-30")
                             (Crawl.start Samples.healthy) in
  (forall key body,
      fst (Crawl.put_object (Crawl.bucket_name self) key body Samples.store_down)
      = Raise (Error "ClientError"))
  /\ Crawl.writes (Crawl.trace (snd down)) = 1
  /\ fst down = Ok tt
  /\ fst down = fst up
  /\ (forall e, fst down <> Raise e).
Proof.
  intros self data down up. split; [reflexivity|].
  split; [reflexivity|]. split; [reflexivity|]. split; [reflexivity|].
  intros e. vm_compute. discriminate.
Qed.

(** One record, the store down: one write attempted, the error printed,
    [None] returned. *)
Lemma save_to_s3_absorbs_write_failure_witness :
  let self := Crawl.init (py "fb-2024-25-12") in
  let data := [JDict [(py "status", JStr (py "200"))]] in
  let st := Crawl.start Samples.store_down in
  data <> []
  /\ exists key body,
      Crawl.put_object (Crawl.bucket_name self) key body Samples.store_down
      = (Raise (Error "ClientError"), Samples.store_down)
      /\ Crawl.save_to_s3 self data (py "raw_data") (py "CC-MAIN-2024-30") st
         = (Ok tt,
            {| Crawl.world := Samples.store_down;
               Crawl.trace := [ Crawl.PutObject (Crawl.bucket_name self) key body;
                                Crawl.PrintSaveError (Error "ClientError") ] |}).
Proof.
  intros self data st. split; [discriminate|].
  destruct (Samples.to_parquet data) as [body|e] eqn:E; [|discriminate E].
  exists (py "raw_data" ++ py "/" ++ py "CC-MAIN-2024-30" ++ py "/"
          ++ py "20241225_120000" ++ py ".parquet"), body.
  split; [reflexivity|].
  exact (@save_to_s3_absorbs_write_failure _ Samples.world Samples.crawl_libraries
           self data (py "raw_data") (py "CC-MAIN-2024-30") st
           (py "20241225_120000") Samples.store_down body (Error "ClientError")
           Samples.store_down ltac:(discriminate) eq_refl E eq_refl).
Defined.

(* ================================================================== *)
(** * Further properties of the code *)
(* ================================================================== *)

(** ** The retry wrapper, for any callable *)

Section RetryShape.
Import Retry RetryMore.
Context {W A : Type}.
Variable uniform01 : nat -> Q.
Variable func : W -> result A * W.

(** Whatever [func] does, the loop goes through some rate-limited
    attempts and then runs out of attempts, or makes one more
    invocation whose outcome, not a rate limit, ends the call, or
    makes one more rate-limited invocation at an attempt from 1024 on,
    whose backoff raises. *)
Lemma retry_loop_shape max n :
  forall a w p,
  exists j r w', exists last : ending,
    retry_loop uniform01 func max (seq a n) w p
    = (r, w',
       {| trace := trace p ++ failed_attempts uniform01 max a (draws p) j
                           ++ closing max (a + j) last;
          draws := draws p + j + closing_draws last |})
    /\ j <= n
    /\ match last with
       | OutOfAttempts => j = n /\ r = Raise retry_exhausted
       | LastCall => j < n /\ r <> Raise (APIError 429)
       | NoSum => j < n /\ r = Raise (Error "OverflowError") /\ 1024 <= a + j
       end.
Proof.
  induction n as [|n IH]; intros a w p; simpl.
  - exists 0, (Raise retry_exhausted), w, OutOfAttempts. simpl.
    rewrite app_nil_r, !Nat.add_0_r. destruct p. auto.
  - destruct (func w) as [[v|e] w1] eqn:Ef.
    + exists 0, (Ok v), w1, LastCall. simpl. rewrite !Nat.add_0_r.
      split; [reflexivity|]. split; [lia|]. split; [lia | discriminate].
    + assert (Hstop : forall e', e' <> APIError 429 ->
                exists j, exists r : result A, exists w', exists last : ending,
                  (Raise e', w1, emit Invoke p)
                  = (r, w',
                     {| trace := trace p
                                 ++ failed_attempts uniform01 max a (draws p) j
                                 ++ closing max (a + j) last;
                        draws := draws p + j + closing_draws last |})
                  /\ j <= S n
                  /\ match last with
                     | OutOfAttempts => j = S n /\ r = Raise retry_exhausted
                     | LastCall => j < S n /\ r <> Raise (APIError 429)
                     | NoSum => j < S n /\ r = Raise (Error "OverflowError")
                                /\ 1024 <= a + j
                     end).
      { intros e' He'. exists 0, (Raise e'), w1, LastCall. simpl.
        rewrite !Nat.add_0_r.
        split; [reflexivity|]. split; [lia|]. split; [lia | congruence]. }
      destruct e as [status_code| |]; try (apply Hstop; discriminate).
      destruct (Z.eqb_spec status_code 429) as [->|Hne];
        [|apply Hstop; congruence].
      destruct (Nat.lt_ge_cases a 1024) as [Hlow|Hhigh].
      * rewrite exponential_backoff_sleeps by exact Hlow.
        destruct (IH (S a) w1
                    {| trace := trace (emit (PrintRateLimit (Z.of_nat a + 1) max)
                                         (emit Invoke p))
                                ++ [Sleep (seconds a (uniform01 (draws p)))];
                       draws := S (draws p) |})
          as (j & r & w' & last & Hrun & Hj & Hlast).
        exists (S j), r, w', last. cbn [emit trace draws] in Hrun |- *.
        rewrite Hrun. cbn [failed_attempts].
        rewrite <- !app_assoc, <- !plus_n_Sm. simpl.
        split; [reflexivity|]. split; [lia|].
        destruct last; repeat split; try tauto; lia.
      * rewrite exponential_backoff_overflow by exact Hhigh.
        exists 0, (Raise (Error "OverflowError")), w1, NoSum.
        cbn [emit trace draws failed_attempts closing closing_draws app].
        rewrite !Nat.add_0_r, <- app_assoc, Nat.add_1_r.
        split; [reflexivity|]. split; [lia|]. repeat split; lia.
Qed.

Lemma sleeps_attempts max d j last :
  sleeps (attempts uniform01 max d j last) = waits_from uniform01 0 d j.
Proof.
  unfold attempts. rewrite sleeps_app, sleeps_failed_attempts.
  destruct last; simpl; now rewrite app_nil_r.
Qed.

Lemma invocations_attempts max d j last :
  invocations (attempts uniform01 max d j last)
  = j + match last with OutOfAttempts => 0 | _ => 1 end.
Proof.
  unfold attempts. rewrite invocations_app, invocations_failed_attempts.
  now destruct last.
Qed.

Lemma rate_limits_attempts max d j last :
  rate_limits (attempts uniform01 max d j last) = j + closing_draws last.
Proof.
  unfold attempts. rewrite rate_limits_app, rate_limits_failed_attempts.
  now destruct last.
Qed.

Lemma waits_from_capped a d k :
  Forall (fun wait => (wait <= 300)%Q) (waits_from uniform01 a d k).
Proof.
  revert a d. induction k as [|k IH]; intros a d; simpl; constructor.
  - apply Q.le_min_l.
  - apply IH.
Qed.

(** X1. For every callable, every jitter and every [max_attempts],
    [retry_with_backoff] invokes the callable at most [max_attempts]
    times (not at all when [max_attempts <= 0]), sleeps only between
    invocations, so no more often than it invokes, and never longer
    than 300 seconds at a time.  It draws one random number for each
    rate limit it reports, which is one for each sleep as long as
    [max_attempts] is at most 1024. *)
Theorem retry_with_backoff_bounded (max_attempts : Z) (w : W) (p : proc) :
  exists r w' p' added,
    retry_with_backoff uniform01 func max_attempts w p = (r, w', p')
    /\ trace p' = trace p ++ added
    /\ invocations added <= Z.to_nat max_attempts
    /\ length (sleeps added) <= invocations added
    /\ Forall (fun wait => (wait <= 300)%Q) (sleeps added)
    /\ draws p' = draws p + rate_limits added
    /\ length (sleeps added) <= rate_limits added <= invocations added
    /\ ((max_attempts <= 1024)%Z -> draws p' = draws p + length (sleeps added)).
Proof.
  unfold retry_with_backoff, range.
  destruct (retry_loop_shape max_attempts (Z.to_nat max_attempts) 0 w p)
    as (j & r & w' & last & Hrun & Hj & Hlast).
  eexists r, w', _, (attempts uniform01 max_attempts (draws p) j last).
  split; [exact Hrun|]. cbn [trace draws Nat.add].
  fold (attempts uniform01 max_attempts (draws p) j last).
  rewrite sleeps_attempts, invocations_attempts, rate_limits_attempts,
    waits_from_length.
  split; [reflexivity|].
  split; [destruct last; lia|].
  split; [lia|].
  split; [apply waits_from_capped|].
  split; [lia|].
  split; [destruct last; simpl; lia|].
  intros Hmax. destruct last; simpl in *; lia.
Qed.

(** X2. If [func], after [k < max_attempts] rate-limited answers, [k]
    at most 1024, raises anything that is not an [APIError] with
    status 429, [retry_with_backoff] raises that same exception at
    once: it has invoked [func] [k + 1] times and slept [k] times, and
    does not sleep or invoke again after the error. *)
Theorem retry_with_backoff_other_error
        (max_attempts : Z) (k : nat) (w wk w' : W) (e : exn) (p : proc) :
  (Z.of_nat k < max_attempts)%Z ->
  k <= 1024 ->
  rate_limited func k w wk ->
  func wk = (Raise e, w') ->
  e <> APIError 429 ->
  retry_with_backoff uniform01 func max_attempts w p
  = (Raise e, w',
     {| trace := trace p ++ attempts uniform01 max_attempts (draws p) k LastCall;
        draws := draws p + k |})
  /\ invocations (attempts uniform01 max_attempts (draws p) k LastCall) = k + 1
  /\ length (sleeps (attempts uniform01 max_attempts (draws p) k LastCall)) = k.
Proof.
  intros Hk H1024 Hfail Hraise He. split; [|split].
  - unfold retry_with_backoff, range.
    replace (Z.to_nat max_attempts) with (k + S (Z.to_nat max_attempts - S k)) by lia.
    rewrite seq_app, retry_loop_rate_limited with (wk := wk)
      by (exact H1024 || exact Hfail).
    simpl. rewrite Hraise. unfold attempts, emit.
    destruct e as [status_code| |]; simpl;
      [destruct (Z.eqb_spec status_code 429) as [->|_]; [congruence|] | |];
      now rewrite <- app_assoc.
  - rewrite invocations_attempts. reflexivity.
  - now rewrite sleeps_attempts, waits_from_length.
Qed.

(** X26. The sum [2 ** attempt + uniform(0, 1)] cannot be formed from
    attempt 1024 on: if [func] answers rate-limited 1025 times and
    [max_attempts] is above 1024, [retry_with_backoff] raises
    [OverflowError] on the 1025th rate limit, after 1025 invocations
    and 1024 sleeps, having reported that rate limit and drawn its
    random number but without sleeping or trying again. *)
Theorem retry_with_backoff_overflow (max_attempts : Z) (w wk : W) (p : proc) :
  (1024 < max_attempts)%Z ->
  rate_limited func 1025 w wk ->
  retry_with_backoff uniform01 func max_attempts w p
  = (Raise (Error "OverflowError"), wk,
     {| trace := trace p ++ attempts uniform01 max_attempts (draws p) 1024 NoSum;
        draws := draws p + 1025 |})
  /\ invocations (attempts uniform01 max_attempts (draws p) 1024 NoSum) = 1025
  /\ length (sleeps (attempts uniform01 max_attempts (draws p) 1024 NoSum)) = 1024.
Proof.
  intros Hmax Hfail. split; [|split].
  - change 1025 with (1024 + 1) in Hfail.
    destruct (@rate_limited_split _ _ func 1024 1 w wk Hfail) as (w1 & Hfirst & Hone).
    cbn [rate_limited] in Hone. destruct Hone as (w2 & Hlast & ->).
    unfold retry_with_backoff, range.
    replace (Z.to_nat max_attempts)
      with (1024 + S (Z.to_nat max_attempts - 1025)) by lia.
    rewrite seq_app, retry_loop_rate_limited with (wk := w1)
      by (exact Hfirst || apply Nat.le_refl).
    cbn [seq retry_loop]. rewrite Hlast. cbn [Z.eqb Pos.eqb].
    rewrite exponential_backoff_overflow by apply Nat.le_refl.
    unfold attempts, closing, emit. cbn [trace draws].
    rewrite <- !app_assoc. cbn [app].
    do 3 f_equal. lia.
  - rewrite invocations_attempts. reflexivity.
  - now rewrite sleeps_attempts, waits_from_length.
Qed.

Section Jitter.
Hypothesis jitter_range : forall n, (0 <= uniform01 n /\ uniform01 n <= 1)%Q.

Lemma total_waits_from a d k :
  (total (waits_from uniform01 a d k)
   <= inject_Z (pow2 a * (pow2 k - 1) + Z.of_nat k))%Q.
Proof.
  revert a d. induction k as [|k IH]; intros a d.
  - simpl. unfold pow2. simpl. rewrite Z.mul_0_r. discriminate.
  - cbn [waits_from total fold_right]. fold (total (waits_from uniform01 (S a) (S d) k)).
    apply Qle_trans
      with (inject_Z (pow2 a + 1)
            + inject_Z (pow2 (S a) * (pow2 k - 1) + Z.of_nat k))%Q.
    + apply Qplus_le_compat; [|apply IH].
      eapply Qle_trans; [apply (seconds_bounds uniform01 jitter_range)|].
      rewrite inject_Z_plus. apply Q.le_min_r.
    + rewrite <- inject_Z_plus, <- Zle_Qle, !pow2_succ. lia.
Qed.

(** X3. With jitter between 0 and 1, the seconds
    [retry_with_backoff] sleeps in all, whatever the callable does,
    stay below [2^n + n - 1] for [n = max_attempts] attempts: 36
    seconds for the default of five. *)
Theorem retry_with_backoff_total_sleep (max_attempts : Z) (w : W) (p : proc) :
  exists r w' p' added,
    retry_with_backoff uniform01 func max_attempts w p = (r, w', p')
    /\ trace p' = trace p ++ added
    /\ (total (sleeps added)
        <= inject_Z (2 ^ Z.of_nat (Z.to_nat max_attempts)
                     + Z.of_nat (Z.to_nat max_attempts) - 1))%Q.
Proof.
  unfold retry_with_backoff, range.
  destruct (retry_loop_shape max_attempts (Z.to_nat max_attempts) 0 w p)
    as (j & r & w' & last & Hrun & Hj & _).
  eexists r, w', _, (attempts uniform01 max_attempts (draws p) j last).
  split; [exact Hrun|]. cbn [trace Nat.add].
  fold (attempts uniform01 max_attempts (draws p) j last).
  split; [reflexivity|]. rewrite sleeps_attempts.
  eapply Qle_trans; [apply total_waits_from|].
  rewrite <- Zle_Qle. fold (pow2 (Z.to_nat max_attempts)).
  pose proof (pow2_le Hj). change (pow2 0) with 1%Z. lia.
Qed.

End Jitter.

End RetryShape.

(** One rate-limited answer, then a server error: the error comes back
    after one sleep. *)
Lemma retry_with_backoff_other_error_witness :
  let func := RetryMore.flaky_then 1 (Raise (A:=unit) (APIError 500)) in
  (Z.of_nat 1 < 5)%Z
  /\ 1 <= 1024
  /\ Retry.rate_limited func 1 0 1
  /\ func 1 = (Raise (APIError 500), 2)
  /\ APIError 500 <> APIError 429
  /\ Retry.retry_with_backoff Retry.half_jitter func 5 0 Retry.idle
     = (Raise (APIError 500), 2,
        {| Retry.trace := [ Retry.Invoke; Retry.PrintRateLimit 1 5;
                            Retry.Sleep (3 # 2); Retry.Invoke ];
           Retry.draws := 1 |}).
Proof.
  intros func.
  assert (H1 : Retry.rate_limited func 1 0 1).
  { exists 1. split; reflexivity. }
  assert (Hne : APIError 500 <> APIError 429) by discriminate.
  assert (Hk : 1 <= 1024) by lia.
  split; [lia|]. split; [exact Hk|]. split; [exact H1|].
  split; [reflexivity|]. split; [exact Hne|].
  etransitivity;
    [exact (proj1 (@retry_with_backoff_other_error nat unit Retry.half_jitter func
                     5 1 0 1 2 (APIError 500) Retry.idle ltac:(lia) Hk H1 eq_refl Hne))
    | vm_compute; reflexivity].
Defined.

(** A callable that is rate limited 1025 times, tried up to 2000
    times: the call ends in [OverflowError]. *)
Lemma retry_with_backoff_overflow_witness :
  (1024 < 2000)%Z
  /\ Retry.rate_limited (Retry.flaky 1025 tt) 1025 0 1025
  /\ fst (fst (Retry.retry_with_backoff Retry.half_jitter (Retry.flaky 1025 tt)
                 2000 0 Retry.idle))
     = Raise (Error "OverflowError").
Proof.
  assert (H : Retry.rate_limited (Retry.flaky 1025 tt) 1025 0 1025)
    by apply (flaky_rate_limited tt 0 1025).
  assert (Hmax : (1024 < 2000)%Z) by lia.
  split; [exact Hmax|]. split; [exact H|].
  rewrite (proj1 (@retry_with_backoff_overflow nat unit Retry.half_jitter
                    (Retry.flaky 1025 tt) 2000 0 1025 Retry.idle Hmax H)).
  reflexivity.
Defined.

(** Five rate-limited answers out of five attempts, half a second of
    jitter each: 33.5 seconds slept, below 36. *)
Lemma retry_with_backoff_total_sleep_witness :
  (forall n, (0 <= Retry.half_jitter n /\ Retry.half_jitter n <= 1)%Q)
  /\ exists r w' p' added,
      Retry.retry_with_backoff Retry.half_jitter (Retry.flaky 5 tt) 5 0 Retry.idle
      = (r, w', p')
      /\ Retry.trace p' = Retry.trace Retry.idle ++ added
      /\ (RetryMore.total (Retry.sleeps added) <= 36)%Q.
Proof.
  split; [exact half_jitter_range|].
  exact (@retry_with_backoff_total_sleep nat unit Retry.half_jitter
           (Retry.flaky 5 tt) half_jitter_range 5 0 Retry.idle).
Defined.

(** ** The container decoder: shape of the rows, failures, early stop *)

Section DecoderMoreFacts.
Import Decoder.
Context {L : Libraries}.

Lemma make_row_of_archive k it record r :
  In record (DecoderMore.records_of it) ->
  wanted k record = true -> make_row k record = Ok r ->
  DecoderMore.row_of_archive k it r.
Proof.
  intros Hin Hwanted Hrow. unfold make_row in Hrow.
  assert (H500 : forall s, length (slice_to 500 s) <= 500).
  { intros s. unfold slice_to. rewrite length_firstn. lia. }
  unfold DecoderMore.row_of_archive, DecoderMore.payload_text.
  destruct k.
  - destruct (decode_utf8 (content record)) as [c|e] eqn:Ec; [|discriminate].
    destruct (json_loads c) as [j|e] eqn:Ej; [|discriminate].
    injection Hrow as <-. simpl. split; [apply H500|]. split; [reflexivity|].
    exists record, (str_of_json j). rewrite Ec. simpl. rewrite Ej. auto.
  - destruct (decode_utf8 (content record)) as [c|e] eqn:Ec; [|discriminate].
    injection Hrow as <-. simpl. split; [apply H500|]. split; [reflexivity|].
    exists record, c. rewrite Ec. auto.
  - destruct (html_get_text _) as [c|e] eqn:Ec; [|discriminate].
    injection Hrow as <-. simpl. split; [apply H500|]. split; [reflexivity|].
    exists record, c. rewrite Ec. auto.
Qed.

Lemma records_loop_rows k max_records whole it :
  forall extracted_data t rows,
    (forall record, In record (DecoderMore.records_of it)
                    -> In record (DecoderMore.records_of whole)) ->
    Forall (DecoderMore.row_of_archive k whole) extracted_data ->
    fst (records_loop k max_records it extracted_data t) = Ok rows ->
    Forall (DecoderMore.row_of_archive k whole) rows.
Proof.
  induction it as [|e|record rest IH]; intros acc t rows Hsub Hacc; simpl.
  - now intros [= <-].
  - discriminate.
  - destruct (Z.of_nat (length acc) >=? max_records)%Z; [now intros [= <-]|].
    assert (Hrest : forall r, In r (DecoderMore.records_of rest)
                              -> In r (DecoderMore.records_of whole)).
    { intros r Hr. apply Hsub. now right. }
    destruct (wanted k record) eqn:Hw;
      [destruct (make_row k record) as [r|e] eqn:Hr|];
      apply IH; try exact Hrest; try exact Hacc.
    apply Forall_app. split; [exact Hacc|].
    constructor; [|constructor].
    apply make_row_of_archive with (record := record);
      [apply Hsub; now left | exact Hw | exact Hr].
Qed.

(** X4. Every row [extract_gz_content] returns, for any client, key,
    budget and library behaviour, comes from a record of the archive
    fetched under that key: the record has the type the branch of the
    key extracts, the row carries its target URI, or ['N/A'] when it
    has none, the type of the branch (WAT, WET or WARC) and the first
    500 characters at most of its decoded text.  A key of no kind
    gives no rows. *)
Theorem extract_gz_content_rows s3 key max_records t :
  match kind_of key with
  | Some k =>
      forall r, In r (fst (extract_gz_content s3 key max_records t)) ->
      exists body gz_content,
        get_object s3 BUCKET_NAME key = Ok body
        /\ read body = Ok gz_content
        /\ DecoderMore.row_of_archive k (ArchiveIterator gz_content) r
  | None => fst (extract_gz_content s3 key max_records t) = []
  end.
Proof.
  unfold extract_gz_content.
  destruct (get_object s3 BUCKET_NAME key) as [body|e];
    [|destruct (kind_of key); [intros r []|reflexivity]].
  destruct (read body) as [gz_content|e] eqn:Hread;
    [|destruct (kind_of key); [intros r []|reflexivity]].
  destruct (kind_of key) as [k|]; [|reflexivity].
  pose proof (@records_loop_rows k max_records (ArchiveIterator gz_content)
                (ArchiveIterator gz_content) []
                ((t ++ [GetObject BUCKET_NAME key]) ++ [Read (length gz_content)]))
    as H.
  destruct (records_loop _ _ _ _ _) as [[rows|e] t']; simpl in *;
    [|intros r []].
  intros r Hr. exists body, gz_content. split; [reflexivity|]. split; [exact Hread|].
  specialize (H rows (fun _ Hin => Hin) (Forall_nil _) eq_refl).
  rewrite Forall_forall in H. now apply H.
Qed.

(** X5. When the object cannot be fetched ([get_object] raises, or the
    [read()] of its body does), [extract_gz_content] returns the empty
    list, prints the error and has not started decoding: nothing is
    read into memory and the iterator is never asked for a record. *)
Theorem extract_gz_content_fetch_failure s3 key max_records t e :
  get_object s3 BUCKET_NAME key = Raise e
  \/ (exists body, get_object s3 BUCKET_NAME key = Ok body /\ read body = Raise e) ->
  extract_gz_content s3 key max_records t
  = ([], t ++ [GetObject BUCKET_NAME key; PrintExtractError key e]).
Proof.
  intros [Hget|(body & Hget & Hread)]; unfold extract_gz_content;
    rewrite Hget; [|rewrite Hread]; now rewrite <- app_assoc.
Qed.

(** X6. A key that names none of the three kinds (no [.wat.gz],
    [.wet.gz] or [.warc.gz] in it) gives no rows, yet the object is
    fetched and read into memory in full all the same; it is not
    decoded. *)
Theorem extract_gz_content_unknown_kind s3 key max_records t body gz_content :
  kind_of key = None ->
  get_object s3 BUCKET_NAME key = Ok body ->
  read body = Ok gz_content ->
  extract_gz_content s3 key max_records t
  = ([], t ++ [GetObject BUCKET_NAME key; Read (length gz_content)]).
Proof.
  intros Hkind Hget Hread. unfold extract_gz_content.
  rewrite Hget, Hread, Hkind. now rewrite <- app_assoc.
Qed.

(** Once the budget is reached and one more record can be read, the
    loop stops: what follows in the archive is not looked at. *)
Lemma records_loop_stops k max_records used next rest :
  forall extracted_data t,
    Z.to_nat max_records - length extracted_data <= length (valid_rows k used) ->
    fst (records_loop k max_records (followed_by (used ++ [next]) rest)
                      extracted_data t)
    = Ok (extracted_data
          ++ firstn (Z.to_nat max_records - length extracted_data)
                    (valid_rows k used)).
Proof.
  induction used as [|record used IH]; intros acc t Hroom; simpl.
  - simpl in Hroom.
    destruct (Z.geb_spec (Z.of_nat (length acc)) max_records) as [_|Hlt]; [|lia].
    simpl. now rewrite firstn_nil, app_nil_r.
  - destruct (Z.geb_spec (Z.of_nat (length acc)) max_records) as [Hfull|Hlt].
    + simpl. replace (Z.to_nat max_records - length acc) with 0 by lia.
      now rewrite app_nil_r.
    + destruct (Z.to_nat max_records - length acc) as [|room] eqn:Eroom; [lia|].
      unfold valid_rows in Hroom. simpl in Hroom. rewrite length_app in Hroom.
      fold (valid_rows k used) in Hroom.
      destruct (wanted k record); [destruct (make_row k record)|];
        rewrite IH; simpl in *; rewrite ?length_app; simpl; try lia.
      * rewrite <- app_assoc.
        replace (Z.to_nat max_records - (length acc + 1)) with room by lia.
        reflexivity.
      * now rewrite Eroom.
      * now rewrite Eroom.
Qed.

(** X7. Decoding stops at the budget: if the records [used] already
    hold [max_records] valid rows and one more record can be read
    after them, [extract_gz_content] returns the first [max_records]
    valid rows whatever the rest of the archive is, damaged or not. *)
Theorem extract_gz_content_stops_at_budget
        s3 key max_records t k body gz_content used next rest :
  get_object s3 BUCKET_NAME key = Ok body ->
  read body = Ok gz_content ->
  kind_of key = Some k ->
  ArchiveIterator gz_content = followed_by (used ++ [next]) rest ->
  Z.to_nat max_records <= length (valid_rows k used) ->
  fst (extract_gz_content s3 key max_records t)
  = firstn (Z.to_nat max_records) (valid_rows k used).
Proof.
  intros Hget Hread Hkind Hit Hroom. unfold extract_gz_content.
  rewrite Hget, Hread, Hkind, Hit.
  pose proof (@records_loop_stops k max_records used next rest []
                ((t ++ [GetObject BUCKET_NAME key]) ++ [Read (length gz_content)]))
    as H.
  simpl in H. rewrite Nat.sub_0_r in H. specialize (H Hroom).
  destruct (records_loop _ _ _ _ _) as [[rows|e] t']; simpl in H;
    [now injection H as -> | discriminate].
Qed.

(** The loop reaches the damage when the budget is not met before the
    last readable record. *)
Lemma records_loop_reaches_damage k max_records before last e :
  forall extracted_data t,
    (Z.of_nat (length extracted_data + length (valid_rows k before))
     < max_records)%Z ->
    fst (records_loop k max_records (followed_by (before ++ [last]) (Broken e))
                      extracted_data t) = Raise e.
Proof.
  induction before as [|record before IH]; intros acc t Hroom; simpl.
  - simpl in Hroom.
    destruct (Z.geb_spec (Z.of_nat (length acc)) max_records) as [Hfull|_]; [lia|].
    destruct (wanted k last); [destruct (make_row k last)|]; reflexivity.
  - unfold valid_rows in Hroom. simpl in Hroom. rewrite length_app in Hroom.
    fold (valid_rows k before) in Hroom.
    destruct (Z.geb_spec (Z.of_nat (length acc)) max_records) as [Hfull|_]; [lia|].
    destruct (wanted k record); [destruct (make_row k record)|];
      apply IH; rewrite ?length_app; simpl in *; lia.
Qed.

(** X8. Damage in the archive costs the rows already decoded: if the
    iterator raises after the record [last] and the budget was not
    met before [last] was read, [extract_gz_content] returns the empty
    list, also when [last] itself completes the budget. *)
Theorem extract_gz_content_damage_loses_rows
        s3 key max_records t k body gz_content before last e :
  get_object s3 BUCKET_NAME key = Ok body ->
  read body = Ok gz_content ->
  kind_of key = Some k ->
  ArchiveIterator gz_content = followed_by (before ++ [last]) (Broken e) ->
  (Z.of_nat (length (valid_rows k before)) < max_records)%Z ->
  fst (extract_gz_content s3 key max_records t) = []
  /\ In (PrintExtractError key e) (snd (extract_gz_content s3 key max_records t)).
Proof.
  intros Hget Hread Hkind Hit Hroom. unfold extract_gz_content.
  rewrite Hget, Hread, Hkind, Hit.
  pose proof (@records_loop_reaches_damage k max_records before last e []
                ((t ++ [GetObject BUCKET_NAME key]) ++ [Read (length gz_content)])
                Hroom) as H.
  destruct (records_loop _ _ _ _ _) as [[rows|e'] t']; simpl in H;
    [discriminate|]. injection H as ->. simpl. split; [reflexivity|].
  apply in_or_app. right. now left.
Qed.

End DecoderMoreFacts.

(** The body of [seg/wat/gone.wat.gz] cannot be read. *)
Lemma extract_gz_content_fetch_failure_witness :
  let key := py "seg/wat/gone.wat.gz" in
  (exists body,
      Decoder.get_object DecoderMore.s3 (py "crawl-bucket") key = Ok body
      /\ Decoder.read body = Raise (Error "ReadTimeoutError"))
  /\ Decoder.extract_gz_content (L := DecoderMore.libraries) DecoderMore.s3 key 5 []
     = ([], [ Decoder.GetObject (py "crawl-bucket") key;
              Decoder.PrintExtractError key (Error "ReadTimeoutError") ]).
Proof.
  intros key.
  assert (H : exists body,
             Decoder.get_object DecoderMore.s3
               (Decoder.BUCKET_NAME (Libraries := DecoderMore.libraries)) key = Ok body
             /\ Decoder.read body = Raise (Error "ReadTimeoutError")).
  { eexists. split; reflexivity. }
  split; [exact H|].
  exact (@extract_gz_content_fetch_failure DecoderMore.libraries DecoderMore.s3
           key 5 [] (Error "ReadTimeoutError") (or_intror H)).
Defined.

(** The five bytes of [seg/text/a.txt] are fetched for nothing. *)
Lemma extract_gz_content_unknown_kind_witness :
  let key := py "seg/text/a.txt" in
  Decoder.kind_of key = None
  /\ Decoder.extract_gz_content (L := DecoderMore.libraries) DecoderMore.s3 key 5 []
     = ([], [Decoder.GetObject (py "crawl-bucket") key; Decoder.Read 5]).
Proof.
  intros key.
  assert (Hkind : Decoder.kind_of key = None) by reflexivity.
  split; [exact Hkind|].
  exact (@extract_gz_content_unknown_kind DecoderMore.libraries DecoderMore.s3
           key 5 [] {| Decoder.read := Ok DecoderMore.text_object |}
           DecoderMore.text_object Hkind eq_refl eq_refl).
Defined.

(** The cut archive with budget 1: the first record gives the row, the
    second is read and ends the loop; the damage further on is never
    met. *)
Lemma extract_gz_content_stops_at_budget_witness :
  let key := py "seg/wat/cut.wat.gz" in
  let used := firstn 2 Samples.wat_records in
  Z.to_nat 1 <= length (Decoder.valid_rows (L := DecoderMore.libraries) Decoder.WAT used)
  /\ length (fst (Decoder.extract_gz_content (L := DecoderMore.libraries)
                    DecoderMore.s3 key 1 [])) = 1.
Proof.
  intros key used.
  assert (Hroom : Z.to_nat 1
                  <= length (Decoder.valid_rows (L := DecoderMore.libraries)
                               Decoder.WAT used)).
  { vm_compute. lia. }
  split; [exact Hroom|].
  rewrite (@extract_gz_content_stops_at_budget DecoderMore.libraries DecoderMore.s3
             key 1 [] Decoder.WAT {| Decoder.read := Ok DecoderMore.cut_object |}
             DecoderMore.cut_object used
             (nth 2 Samples.wat_records (Samples.metadata "" []))
             (Decoder.followed_by (skipn 3 Samples.wat_records)
                                  (Decoder.Broken (Error "EOFError")))
             eq_refl eq_refl eq_refl eq_refl Hroom).
  reflexivity.
Defined.

(** The cut archive with budget 2: its fifth record completes the
    budget, the iterator then fails, and both rows are lost. *)
Lemma extract_gz_content_damage_loses_rows_witness :
  let key := py "seg/wat/cut.wat.gz" in
  let before := firstn 4 Samples.wat_records in
  (Z.of_nat (length (Decoder.valid_rows (L := DecoderMore.libraries)
                       Decoder.WAT before)) < 2)%Z
  /\ length (Decoder.valid_rows (L := DecoderMore.libraries)
               Decoder.WAT Samples.wat_records) = 2
  /\ fst (Decoder.extract_gz_content (L := DecoderMore.libraries)
            DecoderMore.s3 key 2 []) = [].
Proof.
  intros key before.
  assert (Hroom : (Z.of_nat (length (Decoder.valid_rows (L := DecoderMore.libraries)
                                       Decoder.WAT before)) < 2)%Z).
  { vm_compute. reflexivity. }
  split; [exact Hroom|]. split; [reflexivity|].
  exact (proj1 (@extract_gz_content_damage_loses_rows DecoderMore.libraries
                  DecoderMore.s3 key 2 [] Decoder.WAT
                  {| Decoder.read := Ok DecoderMore.cut_object |}
                  DecoderMore.cut_object before
                  (nth 4 Samples.wat_records (Samples.metadata "" []))
                  (Error "EOFError") eq_refl eq_refl eq_refl eq_refl Hroom)).
Defined.

(** ** The processor: categorizers, bracketing, bounds, outages *)

(** X9. A filtering categorizer ([explore_crawl], [processed_data])
    applied to records that are all dicts returns exactly the records
    whose field has the value, in their original order; if any record
    is not a dict it raises [AttributeError], whether or not other
    records match. *)
Theorem only_is_filter key value (x : list json) :
  Crawl.only key value x
  = if forallb Crawl.is_dict x
    then Ok (filter (CrawlMore.field_is key value) x)
    else Raise (Error "AttributeError").
Proof.
  unfold Crawl.only. induction x as [|r x IH]; [reflexivity|].
  cbn [Crawl.filter_raising forallb filter].
  destruct r; cbn [Crawl.get Crawl.is_dict andb]; try reflexivity.
  rewrite IH. cbn [CrawlMore.field_is].
  destruct (forallb Crawl.is_dict x); reflexivity.
Qed.

Section CrawlMoreFacts.
Import Crawl CrawlMore.
Context {W : Type} {world_services : World W} {L : Libraries}.

Lemma only_emits_ret {A} E (a : A) : only_emits E (ret (W:=W) a).
Proof. intros st r st' [= _ <-]. exists []. now rewrite app_nil_r. Qed.

Lemma only_emits_lift {A} E (x : result A) : only_emits E (lift (W:=W) x).
Proof. intros st r st' [= _ <-]. exists []. now rewrite app_nil_r. Qed.

Lemma only_emits_emit (E : event -> bool) ev :
  E ev = true -> only_emits E (emit (W:=W) ev).
Proof.
  intros Hev st r st' [= _ <-]. exists [ev]. simpl. now rewrite Hev.
Qed.

Lemma only_emits_call {A} E (service : W -> result A * W) :
  only_emits E (call service).
Proof.
  intros st r st'. unfold call. destruct (service (world st)) as [x w].
  intros [= _ <-]. exists []. simpl. now rewrite app_nil_r.
Qed.

Lemma only_emits_bind {A B} E (m : M W A) (f : A -> M W B) :
  only_emits E m -> (forall a, only_emits E (f a)) -> only_emits E (bind m f).
Proof.
  intros Hm Hf st r st'. unfold bind.
  destruct (m st) as [[a|e] st1] eqn:Em.
  - intros Hfa. destruct (Hm _ _ _ Em) as (t1 & Ht1 & H1).
    destruct (Hf a _ _ _ Hfa) as (t2 & Ht2 & H2).
    exists (t1 ++ t2). rewrite Ht2, Ht1, <- app_assoc, forallb_app, H1, H2.
    now split.
  - intros [= <- <-]. exact (Hm _ _ _ Em).
Qed.

Lemma only_emits_try_except {A} E (body : M W A) handler :
  only_emits E body -> (forall e, only_emits E (handler e)) ->
  only_emits E (try_except body handler).
Proof.
  intros Hb Hh st r st'. unfold try_except.
  destruct (body st) as [[a|e] st1] eqn:Eb.
  - intros [= <- <-]. exact (Hb _ _ _ Eb).
  - intros Hhe. destruct (Hb _ _ _ Eb) as (t1 & Ht1 & H1).
    destruct (Hh e _ _ _ Hhe) as (t2 & Ht2 & H2).
    exists (t1 ++ t2). rewrite Ht2, Ht1, <- app_assoc, forallb_app, H1, H2.
    now split.
Qed.

Lemma only_emits_for_each {A} E (xs : list A) (body : A -> M W unit) :
  (forall x, only_emits E (body x)) -> only_emits E (for_each xs body).
Proof.
  intros Hbody. induction xs as [|x xs IH]; simpl.
  - apply only_emits_ret.
  - apply only_emits_bind; [apply Hbody | intros _; exact IH].
Qed.

Lemma only_emits_compute {A} E (b : bag W A) :
  Forall (only_emits E) b -> only_emits E (compute b).
Proof.
  induction 1 as [|task b Htask _ IH]; simpl.
  - apply only_emits_ret.
  - apply only_emits_bind; [exact Htask|]. intros x.
    apply only_emits_bind; [exact IH | intros; apply only_emits_ret].
Qed.

Lemma only_emits_query_index (E : event -> bool) url index :
  (forall cc_url e, E (HttpGet cc_url url) = true
                    /\ E (PrintQueryError index url e) = true) ->
  only_emits E (query_index url index).
Proof.
  intros HE. unfold query_index. apply only_emits_try_except.
  - apply only_emits_bind; [apply only_emits_emit, (HE _ (Error ""))|]. intros _.
    apply only_emits_bind; [apply only_emits_call|]. intros response.
    destruct (status_code response =? 200)%Z;
      [apply only_emits_lift | apply only_emits_ret].
  - intros e. apply only_emits_bind; [apply only_emits_emit, (HE [] e)|].
    intros _. apply only_emits_ret.
Qed.

Lemma only_emits_save_to_s3 (E : event -> bool) self data folder_name index :
  (forall bucket key body n e,
      E (PutObject bucket key body) = true /\ E (PrintSaved n key) = true
      /\ E (PrintSaveError e) = true) ->
  only_emits E (save_to_s3 self data folder_name index).
Proof.
  intros HE. destruct data as [|r data]; [apply only_emits_ret|].
  unfold save_to_s3.
  apply only_emits_bind; [apply only_emits_call|]. intros timestamp.
  apply only_emits_bind; [apply only_emits_lift|]. intros body.
  apply only_emits_try_except.
  - apply only_emits_bind;
      [apply only_emits_emit, (HE _ _ body 0 (Error ""))|]. intros _.
    apply only_emits_bind; [apply only_emits_call|]. intros _.
    apply only_emits_emit, (HE [] _ [] _ (Error "")).
  - intros e. apply only_emits_emit, (HE [] [] [] 0 e).
Qed.

Lemma only_emits_records (E : event -> bool) index
      (g : list json -> result (list json)) target_urls :
  (forall url, only_emits E (query_index url index)) ->
  only_emits E (compute (bag_map (fun x => lift (g x))
                                 (bag_map (fun url => query_index url index)
                                          (from_sequence target_urls)))).
Proof.
  intros Hq. apply only_emits_compute. unfold bag_map, from_sequence.
  rewrite !map_map. apply Forall_forall. intros task Hin.
  apply in_map_iff in Hin as (url & <- & _).
  apply only_emits_bind; [|intros; apply only_emits_lift].
  apply only_emits_bind; [apply only_emits_ret | intros; apply Hq].
Qed.

Lemma only_emits_process_index (E : event -> bool) self target_urls index :
  (forall ev, inner ev = true -> E ev = true) ->
  only_emits E (process_index self target_urls index).
Proof.
  intros HE. unfold process_index.
  apply only_emits_bind; [now apply only_emits_emit, HE|]. intros _.
  apply only_emits_for_each. intros [folder_name processor_func].
  apply only_emits_bind; [now apply only_emits_emit, HE|]. intros _.
  apply only_emits_bind.
  - apply only_emits_records. intros url.
    apply only_emits_query_index. intros; split; now apply HE.
  - intros processed_records. apply only_emits_save_to_s3.
    intros; repeat split; now apply HE.
Qed.

(** X10. However a run of [process_with_dask] ends, by returning or
    by an exception, the Dask client that was opened first is closed
    last, and it is opened and closed once: everything else the run
    does lies between the two. *)
Theorem process_with_dask_closes_client self target_urls (st : state W) :
  exists r st' between,
    process_with_dask self target_urls st = (r, st')
    /\ trace st' = trace st ++ [ClientOpen] ++ between ++ [ClientClose]
    /\ forallb inner between = true.
Proof.
  unfold process_with_dask, bind, try_finally, emit. cbn [world trace].
  destruct (for_each (indexes self) (process_index self target_urls)
              {| world := world st; trace := trace st ++ [ClientOpen] |})
    as [r st1] eqn:Erun.
  destruct (@only_emits_for_each _ inner (indexes self)
              (process_index self target_urls)
              (fun index => @only_emits_process_index inner self target_urls index
                              (fun ev H => H))
              _ _ _ Erun) as (between & Ht & Hinner).
  cbn [trace] in Ht.
  exists r, {| world := world st1; trace := trace st1 ++ [ClientClose] |}, between.
  split; [now destruct r|]. cbn [trace]. rewrite Ht, <- !app_assoc.
  now split.
Qed.

Lemma writes_app t u : writes (t ++ u) = writes t + writes u.
Proof. unfold writes. now rewrite filter_app, length_app. Qed.

Lemma only_emits_no_write {A} (m : M W A) :
  only_emits no_write m -> writes_at_most 0 m.
Proof.
  intros Hm st r st' Hrun. destruct (Hm _ _ _ Hrun) as (added & -> & Hadded).
  rewrite writes_app. unfold writes at 2.
  replace (filter is_write added) with (@nil event); [simpl; lia|].
  induction added as [|ev added IH]; [reflexivity|].
  simpl in Hadded. apply andb_prop in Hadded as [Hev Hadded]. simpl.
  unfold no_write in Hev. destruct (is_write ev); [discriminate|now apply IH].
Qed.

Lemma writes_at_most_bind {A B} a b (m : M W A) (f : A -> M W B) :
  writes_at_most a m -> (forall x, writes_at_most b (f x)) ->
  writes_at_most (a + b) (bind m f).
Proof.
  intros Hm Hf st r st'. unfold bind.
  destruct (m st) as [[x|e] st1] eqn:Em.
  - intros Hfx. pose proof (Hm _ _ _ Em). pose proof (Hf _ _ _ _ Hfx). lia.
  - intros [= <- <-]. pose proof (Hm _ _ _ Em). lia.
Qed.

Lemma writes_at_most_for_each {A} n (xs : list A) (body : A -> M W unit) :
  (forall x, writes_at_most n (body x)) ->
  writes_at_most (length xs * n) (for_each xs body).
Proof.
  intros Hbody. induction xs as [|x xs IH]; simpl.
  - intros st r st' [= _ <-]. lia.
  - apply writes_at_most_bind; [apply Hbody | intros _; exact IH].
Qed.

Lemma writes_at_most_process_index self target_urls index :
  writes_at_most 4 (process_index self target_urls index).
Proof.
  unfold process_index. change 4 with (0 + length folders * (0 + (0 + 1))).
  apply writes_at_most_bind;
    [apply only_emits_no_write; now apply only_emits_emit|]. intros _.
  apply writes_at_most_for_each. intros [folder_name processor_func].
  apply writes_at_most_bind;
    [apply only_emits_no_write; now apply only_emits_emit|]. intros _.
  apply writes_at_most_bind.
  - apply only_emits_no_write, only_emits_records. intros url.
    apply only_emits_query_index. intros; now split.
  - intros processed_records st r st' Hrun.
    pose proof (@save_to_s3_writes _ _ _ self (concat processed_records)
                  folder_name index _ _ _ Hrun) as H.
    destruct (concat processed_records); lia.
Qed.

(** X11. However a run ends, it has written at most one object for
    each pair of one of the four folders and an index: no more than
    [4 * len(self.indexes)] calls of [put_object], also when writes
    fail. *)
Theorem process_with_dask_writes_bounded self target_urls (st : state W) :
  writes (trace (snd (process_with_dask self target_urls st)))
  <= writes (trace st) + 4 * length (indexes self).
Proof.
  destruct (process_with_dask self target_urls st) as [r st'] eqn:Erun.
  unfold process_with_dask, bind, try_finally, emit in Erun.
  cbn [world trace] in Erun.
  destruct (for_each (indexes self) (process_index self target_urls) _)
    as [r1 st1] eqn:Ebody.
  pose proof (@writes_at_most_for_each _ 4 (indexes self)
                (process_index self target_urls)
                (writes_at_most_process_index self target_urls)
                _ _ _ Ebody) as H.
  cbn [trace] in H. rewrite writes_app in H. unfold writes at 3 in H. simpl in H.
  assert (st' = {| world := world st1; trace := trace st1 ++ [ClientClose] |})
    as -> by (destruct r1; now injection Erun).
  cbn [snd trace]. rewrite writes_app. unfold writes at 2. simpl. lia.
Qed.

Lemma returns_emitting_ret {A} (Q : A -> Prop) E a :
  Q a -> returns_emitting Q E (ret (W:=W) a).
Proof.
  intros Ha st. exists a, st, []. rewrite app_nil_r. now repeat split.
Qed.

Lemma returns_emitting_emit (E : event -> bool) ev :
  E ev = true -> returns_emitting (fun _ => True) E (emit (W:=W) ev).
Proof.
  intros Hev st. eexists tt, _, [ev]. simpl. rewrite Hev. now repeat split.
Qed.

Lemma returns_emitting_bind {A B} (P : A -> Prop) (Q : B -> Prop) E
      (m : M W A) (f : A -> M W B) :
  returns_emitting P E m -> (forall a, P a -> returns_emitting Q E (f a)) ->
  returns_emitting Q E (bind m f).
Proof.
  intros Hm Hf st. destruct (Hm st) as (a & st1 & t1 & Em & Ha & Ht1 & H1).
  destruct (Hf a Ha st1) as (b & st2 & t2 & Ef & Hb & Ht2 & H2).
  exists b, st2, (t1 ++ t2). unfold bind. rewrite Em, Ef.
  rewrite Ht2, Ht1, <- app_assoc, forallb_app, H1, H2. now repeat split.
Qed.

Lemma returns_emitting_for_each {A} E (xs : list A) (body : A -> M W unit) :
  (forall x, returns_emitting (fun _ => True) E (body x)) ->
  returns_emitting (fun _ => True) E (for_each xs body).
Proof.
  intros Hbody. induction xs as [|x xs IH]; simpl.
  - now apply returns_emitting_ret.
  - apply returns_emitting_bind with (P := fun _ => True);
      [apply Hbody | now intros _ _].
Qed.

Section Outage.
(** The index answers no request with status 200: [requests.get]
    raises, or the status is something else. *)
Hypothesis index_unavailable :
  forall cc_url url w,
    match fst (requests_get cc_url url w) with
    | Raise _ => True
    | Ok response => status_code response <> 200%Z
    end.

Lemma query_index_unavailable url index :
  returns_emitting (fun records => records = []) no_write (query_index url index).
Proof.
  intros st. unfold query_index, try_except, bind, emit, call, lift, ret.
  cbn [world trace].
  pose proof (index_unavailable (index_endpoint index) url (world st)) as H.
  destruct (requests_get _ url (world st)) as [[response|e] w];
    cbn [fst world trace] in *.
  - destruct (Z.eqb_spec (status_code response) 200); [contradiction|].
    eexists _, _, [_]. repeat split.
  - eexists _, _, [_; _]. rewrite <- app_assoc. repeat split.
Qed.

Lemma compute_records_unavailable index
      (g : list json -> result (list json)) target_urls :
  g [] = Ok [] ->
  returns_emitting (fun results => concat results = []) no_write
    (compute (bag_map (fun x => lift (g x))
                      (bag_map (fun url => query_index url index)
                               (from_sequence target_urls)))).
Proof.
  intros Hg. induction target_urls as [|url urls IH]; simpl.
  - now apply returns_emitting_ret.
  - apply returns_emitting_bind with (P := fun x => x = []).
    + apply returns_emitting_bind with (P := fun x => x = []).
      * apply returns_emitting_bind with (P := fun _ => True);
          [now apply returns_emitting_ret|].
        intros; apply query_index_unavailable.
      * intros x -> st. exists [], st, []. unfold lift. rewrite Hg, app_nil_r.
        now repeat split.
    + intros x ->.
      apply returns_emitting_bind with (P := fun xs => concat xs = []);
        [exact IH|].
      intros xs Hxs. now apply returns_emitting_ret.
Qed.

Lemma process_index_unavailable self target_urls index :
  returns_emitting (fun _ => True) no_write (process_index self target_urls index).
Proof.
  unfold process_index.
  apply returns_emitting_bind with (P := fun _ => True);
    [now apply returns_emitting_emit|]. intros _ _.
  assert (Hall : forall fs,
             Forall (fun f => snd f [] = Ok []) fs ->
             returns_emitting (fun _ => True) no_write
               (for_each fs
                  (fun '(folder_name, processor_func) =>
                     emit (PrintFolder folder_name) ;;
                     processed_records <-
                       compute (bag_map (fun x => lift (processor_func x))
                                  (bag_map (fun url => query_index url index)
                                     (from_sequence target_urls))) ;;
                     save_to_s3 self (concat processed_records) folder_name index))).
  { induction 1 as [|[folder_name processor_func] fs Hf _ IH]; simpl.
    - now apply returns_emitting_ret.
    - apply returns_emitting_bind with (P := fun _ => True); [|now intros _ _].
      apply returns_emitting_bind with (P := fun _ => True);
        [now apply returns_emitting_emit|]. intros _ _.
      apply returns_emitting_bind with (P := fun xs => concat xs = []);
        [now apply compute_records_unavailable|].
      intros xs ->. now apply returns_emitting_ret. }
  apply Hall. unfold folders. repeat constructor.
Qed.

(** X12. When the index answers no request with status 200 (every
    [requests.get] raises or comes back with another status), the run
    still completes: it has sent all its requests, four for every
    (URL pattern, index) pair, and has written nothing. *)
Theorem process_with_dask_index_unavailable self target_urls (st : state W) :
  exists st',
    process_with_dask self target_urls st = (Ok tt, st')
    /\ writes (trace st') = writes (trace st)
    /\ queries (trace st')
       = queries (trace st) + 4 * (length target_urls * length (indexes self)).
Proof.
  assert (H : returns_emitting (fun _ => True) no_write
                (for_each (indexes self) (process_index self target_urls))).
  { apply returns_emitting_for_each. intros index.
    apply process_index_unavailable. }
  destruct (process_with_dask self target_urls st) as [r st'] eqn:Erun.
  pose proof Erun as Erun'.
  unfold process_with_dask, bind, try_finally, emit in Erun.
  cbn [world trace] in Erun.
  destruct (H {| world := world st; trace := trace st ++ [ClientOpen] |})
    as ([] & st1 & added & Ebody & _ & Ht & Hadded).
  rewrite Ebody in Erun. injection Erun as <- <-.
  exists {| world := world st1; trace := trace st1 ++ [ClientClose] |}.
  split; [reflexivity|]. split.
  - cbn [trace] in *. rewrite Ht, !writes_app. unfold writes at 2 4. simpl.
    assert (Hw : writes_at_most 0 (fun s : state W => (Ok tt, {| world := world s; trace := trace s ++ added |}))).
    { apply only_emits_no_write. intros s r s' [= _ <-]. now exists added. }
    specialize (Hw st _ _ eq_refl). cbn [trace] in Hw. rewrite writes_app in Hw.
    lia.
  - exact (process_with_dask_queries _ _ _ Erun').
Qed.

End Outage.

Lemma process_index_no_urls self index (st : state W) :
  process_index self [] index st
  = (Ok tt,
     {| world := world st;
        trace := trace st ++ PrintIndex index :: map (fun f => PrintFolder (fst f)) folders |}).
Proof.
  unfold process_index, bind, emit, folders.
  cbn [for_each from_sequence bag_map map compute bind ret concat save_to_s3
       world trace fst].
  unfold ret. now rewrite <- !app_assoc.
Qed.

(** X13. Without URL patterns a run asks the index nothing and writes
    nothing, whatever the processor and the world: it opens the
    client, prints the index and the four folder names for every
    index, and closes the client. *)
Theorem process_with_dask_no_urls self (st : state W) :
  process_with_dask self [] st
  = (Ok tt,
     {| world := world st;
        trace := trace st ++ [ClientOpen]
                 ++ flat_map (fun index =>
                                PrintIndex index
                                :: map (fun f => PrintFolder (fst f)) folders)
                             (indexes self)
                 ++ [ClientClose] |}).
Proof.
  assert (H : forall ixs (s : state W),
             for_each ixs (process_index self []) s
             = (Ok tt,
                {| world := world s;
                   trace := trace s
                            ++ flat_map (fun index =>
                                           PrintIndex index
                                           :: map (fun f => PrintFolder (fst f)) folders)
                                        ixs |})).
  { induction ixs as [|index ixs IH]; intros s.
    - simpl. rewrite app_nil_r. now destruct s.
    - cbn [for_each flat_map]. unfold bind at 1.
      rewrite process_index_no_urls, IH. cbn [world trace].
      now rewrite <- app_assoc. }
  unfold process_with_dask, bind, try_finally, emit. cbn [world trace].
  rewrite H. cbn [world trace]. do 2 f_equal.
  repeat rewrite <- app_assoc. reflexivity.
Qed.

(** X14. A failure of the parquet serialization is not absorbed the
    way a failed write is: [save_to_s3] raises it to its caller, after
    reading the clock and before any write is attempted. *)
Theorem save_to_s3_serialization_error
        self data folder_name index (st : state W) timestamp w1 e :
  data <> [] ->
  now (world st) = (timestamp, w1) ->
  to_parquet data = Raise e ->
  save_to_s3 self data folder_name index st
  = (Raise e, {| world := w1; trace := trace st |}).
Proof.
  intros Hdata Hnow Hser. destruct data as [|r data]; [contradiction|].
  unfold save_to_s3, bind, call, lift. cbn [world trace].
  now rewrite Hnow, Hser.
Qed.

(** X15. Every call of [query_index] sends exactly one request, to
    the endpoint of its index and for its URL pattern, and returns;
    it prints at most one line, the error when it caught one, and
    sends no second request whatever the first one gave. *)
Theorem query_index_one_request url index (st : state W) :
  exists records printed,
    query_index url index st
    = (records,
       {| world := snd (requests_get (index_endpoint index) url (world st));
          trace := trace st ++ HttpGet (index_endpoint index) url :: printed |})
    /\ (exists rs, records = Ok rs)
    /\ (printed = []
        \/ exists e, printed = [PrintQueryError index url e] /\ records = Ok []).
Proof.
  unfold query_index, try_except, bind, emit, call, lift, ret. cbn [world trace].
  destruct (requests_get (index_endpoint index) url (world st))
    as [[response|e] w]; cbn [snd world trace].
  - destruct (status_code response =? 200)%Z.
    + destruct (comprehension json_loads _) as [rs|e]; cbn [world trace].
      * exists (Ok rs), []. split; [reflexivity|]. split; [now exists rs | now left].
      * exists (Ok []), [PrintQueryError index url e]. rewrite <- app_assoc.
        split; [reflexivity|]. split; [now exists [] | right; now exists e].
    + exists (Ok []), []. split; [reflexivity|]. split; [now exists [] | now left].
  - exists (Ok []), [PrintQueryError index url e]. rewrite <- app_assoc.
    split; [reflexivity|]. split; [now exists [] | right; now exists e].
Qed.

End CrawlMoreFacts.

(** The index offline, two patterns, six indexes: 48 requests, all
    failed, no write, and the run returns. *)
Lemma process_with_dask_index_unavailable_witness :
  let self := Crawl.init (py "fb-2024-25-12") in
  (forall cc_url url w,
      match fst (Crawl.requests_get (World := CrawlMore.offline) cc_url url w) with
      | Raise _ => True
      | Ok response => Crawl.status_code response <> 200%Z
      end)
  /\ exists st',
      Crawl.process_with_dask (world_services := CrawlMore.offline)
        self [py "a"; py "b"] (Crawl.start tt) = (Ok tt, st')
      /\ Crawl.writes (Crawl.trace st') = 0
      /\ Crawl.queries (Crawl.trace st') = 48.
Proof.
  intros self.
  assert (H : forall cc_url url w,
             match fst (Crawl.requests_get (World := CrawlMore.offline) cc_url url w) with
             | Raise _ => True
             | Ok response => Crawl.status_code response <> 200%Z
             end) by (intros; exact I).
  split; [exact H|].
  exact (@process_with_dask_index_unavailable unit CrawlMore.offline
           Samples.crawl_libraries H self [py "a"; py "b"] (Crawl.start tt)).
Defined.

(** A batch with a record that is not a dict, which the picky writer
    refuses: the error reaches the caller and nothing is written. *)
Lemma save_to_s3_serialization_error_witness :
  let self := Crawl.init (py "fb-2024-25-12") in
  let data := [JList []] in
  data <> []
  /\ Crawl.to_parquet (Libraries := CrawlMore.picky_libraries) data
     = Raise (Error "ArrowInvalid")
  /\ Crawl.save_to_s3 (L := CrawlMore.picky_libraries) self data
       (py "raw_data") (py "CC-MAIN-2024-30") (Crawl.start Samples.healthy)
     = (Raise (Error "ArrowInvalid"), Crawl.start Samples.healthy).
Proof.
  intros self data.
  assert (Hdata : data <> []) by discriminate.
  split; [exact Hdata|]. split; [reflexivity|].
  exact (@save_to_s3_serialization_error _ Samples.world CrawlMore.picky_libraries
           self data (py "raw_data") (py "CC-MAIN-2024-30")
           (Crawl.start Samples.healthy) (py "20241225_120000") Samples.healthy
           (Error "ArrowInvalid") Hdata eq_refl eq_refl).
Defined.

(** ** The lines of an index response *)

Lemma split_nonempty sep s : Crawl.split sep s <> [].
Proof.
  induction s as [|c s IH]; simpl; [discriminate|].
  destruct (c =? sep)%N; [discriminate|].
  destruct (Crawl.split sep s); [contradiction|discriminate].
Qed.

Lemma split_no_sep sep s :
  Forall (fun field => ~ In sep field) (Crawl.split sep s).
Proof.
  induction s as [|c s IH]; simpl.
  - constructor; [intros []|constructor].
  - destruct (N.eqb_spec c sep) as [->|Hne].
    + constructor; [intros []|exact IH].
    + destruct (Crawl.split sep s) as [|field fields];
        [constructor; [intros [H|[]]; congruence | constructor]|].
      inversion IH as [|? ? Hfield Hfields]; subst.
      constructor; [|exact Hfields].
      intros [H|H]; [congruence | contradiction].
Qed.

(** X16. Whatever the body of the response, every line [query_index]
    hands to [json.loads] is non-empty and contains no newline. *)
Theorem lines_of_lines (text : str) :
  Forall (fun line => line <> [] /\ ~ In 10%N line) (Crawl.lines_of text).
Proof.
  unfold Crawl.lines_of. apply Forall_forall. intros line Hin.
  apply filter_In in Hin as [Hin Htruthy]. split.
  - destruct line; [discriminate|discriminate].
  - pose proof (split_no_sep 10 (Crawl.strip text)) as H.
    rewrite Forall_forall in H. now apply H.
Qed.

Lemma lstrip_blank s : forallb Crawl.isspace s = true -> Crawl.lstrip s = [].
Proof.
  induction s as [|c s IH]; simpl; [reflexivity|].
  intros H. apply andb_prop in H as [-> H]. now apply IH.
Qed.

Section BlankBody.
Import Crawl.
Context {W : Type} {world_services : World W} {L : Libraries}.

(** X17. A response with status 200 whose body is empty or only
    whitespace gives the empty list without calling [json.loads] on
    anything and without printing an error. *)
Theorem query_index_blank_body url index (st : state W) response w' :
  requests_get (index_endpoint index) url (world st) = (Ok response, w') ->
  status_code response = 200%Z ->
  forallb isspace (text response) = true ->
  query_index url index st
  = (Ok [], {| world := w';
               trace := trace st ++ [HttpGet (index_endpoint index) url] |}).
Proof.
  intros Hget Hstatus Hblank.
  unfold query_index, try_except, bind, emit, call, lift, ret. cbn [world trace].
  rewrite Hget. cbn [world trace]. rewrite Hstatus. cbn [Z.eqb Pos.eqb].
  unfold lines_of, strip. rewrite (lstrip_blank _ Hblank). reflexivity.
Qed.

End BlankBody.

(** A body of a blank and a newline. *)
Lemma query_index_blank_body_witness :
  let body := py " " ++ [10%N] in
  let st := Crawl.start (Samples.answering body true) in
  forallb Crawl.isspace body = true
  /\ Crawl.query_index (world_services := Samples.world)
       (L := Samples.crawl_libraries) (py "x.no/*") (py "CC-MAIN-2024-30") st
     = (Ok [],
        {| Crawl.world := Samples.answering body true;
           Crawl.trace := [ Crawl.HttpGet
                              (Crawl.index_endpoint (py "CC-MAIN-2024-30"))
                              (py "x.no/*") ] |}).
Proof.
  intros body st.
  assert (Hblank : forallb Crawl.isspace body = true) by reflexivity.
  split; [exact Hblank|].
  exact (@query_index_blank_body _ Samples.world Samples.crawl_libraries
           (py "x.no/*") (py "CC-MAIN-2024-30") st
           {| Crawl.status_code := 200; Crawl.text := body |}
           (Samples.answering body true) eq_refl eq_refl Hblank).
Defined.

(** ** Listing the bucket *)

Lemma lstrip_chars_split chars s :
  exists dropped,
    s = dropped ++ Listing.lstrip_chars chars s
    /\ Forall (fun c => existsb (N.eqb c) chars = true) dropped.
Proof.
  induction s as [|c s (dropped & Hs & Hd)]; simpl.
  - now exists [].
  - destruct (existsb (N.eqb c) chars) eqn:Hc.
    + exists (c :: dropped). simpl. split; [now f_equal | now constructor].
    + now exists [].
Qed.

Lemma lstrip_chars_head chars s c :
  hd_error (Listing.lstrip_chars chars s) = Some c ->
  existsb (N.eqb c) chars = false.
Proof.
  induction s as [|c0 s IH]; simpl; [discriminate|].
  destruct (existsb (N.eqb c0) chars) eqn:Hc0; [exact IH|].
  simpl. now intros [= <-].
Qed.

Lemma lstrip_chars_fixed chars s :
  (forall c, hd_error s = Some c -> existsb (N.eqb c) chars = false) ->
  Listing.lstrip_chars chars s = s.
Proof.
  destruct s as [|c s]; simpl; [reflexivity|]. intros H.
  now rewrite (H c eq_refl).
Qed.

Lemma hd_error_app_nonempty {A} (l m : list A) :
  l <> [] -> hd_error (l ++ m) = hd_error l.
Proof. destruct l; [contradiction|reflexivity]. Qed.

Lemma split_app_sep sep a b :
  Crawl.split sep (a ++ sep :: b) = Crawl.split sep a ++ Crawl.split sep b.
Proof.
  induction a as [|c a IH]; simpl.
  - now rewrite N.eqb_refl.
  - destruct (c =? sep)%N; [now rewrite IH|]. rewrite IH.
    pose proof (split_nonempty sep a).
    destruct (Crawl.split sep a); [contradiction|reflexivity].
Qed.

Lemma split_single sep s : ~ In sep s -> Crawl.split sep s = [s].
Proof.
  induction s as [|c s IH]; simpl; intros H; [reflexivity|].
  destruct (N.eqb_spec c sep) as [->|_]; [exfalso; apply H; now left|].
  rewrite IH; [reflexivity | intros Hin; apply H; now right].
Qed.

Section ListingFacts.
Import Listing.
Context {L : Decoder.Libraries} {E : Environment}.

(** X18. [clean_folder_name] removes every apostrophe at the start
    and at the end of a name and nothing else: the name is the result
    with apostrophes only before and after it, the result neither
    starts nor ends with one, cleaning it again changes nothing, and
    a name without apostrophes at its ends is returned as it is. *)
Theorem clean_folder_name_clean (folder_name : str) :
  let cleaned := clean_folder_name folder_name in
  (exists front back,
      folder_name = front ++ cleaned ++ back
      /\ Forall (fun c => c = 39%N) front
      /\ Forall (fun c => c = 39%N) back)
  /\ hd_error cleaned <> Some 39%N
  /\ hd_error (rev cleaned) <> Some 39%N
  /\ clean_folder_name cleaned = cleaned
  /\ (hd_error folder_name <> Some 39%N ->
      hd_error (rev folder_name) <> Some 39%N ->
      cleaned = folder_name).
Proof.
  assert (Hquote : forall l, Forall (fun c => existsb (N.eqb c) (py "'") = true) l
                             -> Forall (fun c => c = 39%N) l).
  { intros l. apply Forall_impl. intros c Hc. simpl in Hc.
    destruct (N.eqb_spec c 39); [assumption | discriminate]. }
  assert (Hparts : exists front back,
             folder_name = front ++ clean_folder_name folder_name ++ back
             /\ Forall (fun c => c = 39%N) front
             /\ Forall (fun c => c = 39%N) back).
  { unfold clean_folder_name, strip_chars.
    destruct (lstrip_chars_split (py "'") folder_name) as (front & Hname & Hfront).
    destruct (lstrip_chars_split (py "'") (rev (lstrip_chars (py "'") folder_name)))
      as (back & Hrev & Hback).
    exists front, (rev back). split; [|split].
    - rewrite <- rev_app_distr, <- Hrev, rev_involutive. exact Hname.
    - now apply Hquote.
    - apply Forall_rev. now apply Hquote. }
  assert (Hq : forall c, existsb (N.eqb c) (py "'") = false -> c <> 39%N).
  { intros c Hc ->. discriminate. }
  assert (Hq' : forall c, c <> 39%N -> existsb (N.eqb c) (py "'") = false).
  { intros c Hc. simpl. destruct (N.eqb_spec c 39); [contradiction|reflexivity]. }
  assert (Hends : forall s,
             let c := strip_chars (py "'") s in
             (forall x, hd_error c = Some x -> existsb (N.eqb x) (py "'") = false)
             /\ (forall x, hd_error (rev c) = Some x
                           -> existsb (N.eqb x) (py "'") = false)).
  { intros s c. unfold c, strip_chars.
    set (a := lstrip_chars (py "'") s).
    set (b := lstrip_chars (py "'") (rev a)).
    split.
    - intros x Hx.
      destruct (lstrip_chars_split (py "'") (rev a)) as (dropped & Hrev & _).
      fold b in Hrev. apply (f_equal (@rev N)) in Hrev.
      rewrite rev_involutive, rev_app_distr in Hrev.
      destruct (rev b) as [|y rb] eqn:Eb; [discriminate|].
      simpl in Hx. injection Hx as ->.
      apply (lstrip_chars_head (py "'") s). fold a. now rewrite Hrev.
    - intros x. rewrite rev_involutive. apply lstrip_chars_head. }
  intros cleaned. destruct (Hends folder_name) as [Hhd Hlast].
  unfold clean_folder_name in cleaned.
  change (strip_chars (py "'") folder_name) with cleaned in Hhd, Hlast.
  split; [exact Hparts|]. split; [|split; [|split]].
  - intros H. exact (Hq _ (Hhd _ H) eq_refl).
  - intros H. exact (Hq _ (Hlast _ H) eq_refl).
  - unfold clean_folder_name. generalize dependent cleaned. intros c Hhd Hlast.
    unfold strip_chars.
    rewrite (lstrip_chars_fixed _ _ Hhd), (lstrip_chars_fixed _ _ Hlast).
    apply rev_involutive.
  - intros H1 H2. unfold cleaned, strip_chars.
    rewrite (lstrip_chars_fixed (py "'") folder_name),
            (lstrip_chars_fixed (py "'") (rev folder_name)).
    + apply rev_involutive.
    + intros c Hc. apply Hq'. congruence.
    + intros c Hc. apply Hq'. congruence.
Qed.

(** X19. The folder name of a prefix is its last path component: for
    a prefix [name/] or [parent/name/], with [name] free of slashes,
    it is [name] with the apostrophes at its ends removed.  A prefix
    without any slash has no second-to-last component and raises
    [IndexError]. *)
Theorem folder_name_of_prefix (parent name : str) :
  ~ In 47%N name ->
  folder_name_of {| Prefix := name ++ [47%N] |} = Ok (clean_folder_name name)
  /\ folder_name_of {| Prefix := parent ++ [47%N] ++ name ++ [47%N] |}
     = Ok (clean_folder_name name)
  /\ folder_name_of {| Prefix := name |} = Raise (Error "IndexError").
Proof.
  intros Hname. unfold folder_name_of, from_end. cbn [Prefix].
  split; [|split].
  - rewrite split_app_sep, (split_single _ _ Hname). reflexivity.
  - cbn [app]. rewrite !split_app_sep, (split_single _ _ Hname).
    rewrite !rev_app_distr. reflexivity.
  - rewrite (split_single _ _ Hname). reflexivity.
Qed.









Lemma str_eqb_refl k : str_eqb k k = true.
Proof. now apply str_eqb_eq. Qed.

Lemma str_eqb_neq k k' : k <> k' -> str_eqb k k' = false.
Proof.
  intros H. destruct (str_eqb k k') eqn:Ek; [|reflexivity].
  apply str_eqb_eq in Ek. contradiction.
Qed.

Lemma lookup_store_same {V} (d : dict V) k v : lookup (store d k v) k = Some v.
Proof.
  induction d as [|[k0 v0] d IH]; simpl.
  - now rewrite str_eqb_refl.
  - destruct (str_eqb k0 k) eqn:Ek; simpl; rewrite Ek; [reflexivity|exact IH].
Qed.

Lemma lookup_store_other {V} (d : dict V) k v k' :
  k' <> k -> lookup (store d k v) k' = lookup d k'.
Proof.
  intros Hne. induction d as [|[k0 v0] d IH]; simpl.
  - rewrite str_eqb_neq; [reflexivity | congruence].
  - destruct (str_eqb k0 k) eqn:Ek; simpl.
    + apply str_eqb_eq in Ek as ->. rewrite str_eqb_neq; congruence.
    + now rewrite IH.
Qed.

Lemma store_keys {V} (d : dict V) k v :
  map fst (store d k v) = ListingMore.add_key (map fst d) k.
Proof.
  induction d as [|[k0 v0] d IH]; simpl; [reflexivity|].
  destruct (str_eqb k0 k); simpl; [reflexivity | now rewrite IH].
Qed.

Lemma add_key_In keys k x :
  In x (ListingMore.add_key keys k) -> In x keys \/ x = k.
Proof.
  induction keys as [|k0 keys IH]; simpl.
  - intros [->|[]]. now right.
  - destruct (str_eqb k0 k); simpl; [tauto|].
    intros [->|H]; [tauto|]. destruct (IH H); tauto.
Qed.

Lemma add_key_NoDup keys k : NoDup keys -> NoDup (ListingMore.add_key keys k).
Proof.
  induction 1 as [|k0 keys Hnotin Hnodup IH]; simpl.
  - constructor; [intros []|constructor].
  - destruct (str_eqb k0 k) eqn:Ek; [now constructor|].
    constructor; [|exact IH]. intros Hin.
    destruct (add_key_In _ _ _ Hin) as [H| ->]; [contradiction|].
    now rewrite str_eqb_refl in Ek.
Qed.

Lemma In_lookup {V} (d : dict V) k v :
  NoDup (map fst d) -> In (k, v) d -> lookup d k = Some v.
Proof.
  induction d as [|[k0 v0] d IH]; simpl; [contradiction|].
  intros Hnodup [[= -> ->]|Hin].
  - now rewrite str_eqb_refl.
  - inversion Hnodup as [|? ? Hnotin Hnodup']; subst.
    rewrite str_eqb_neq; [now apply IH|].
    intros ->. apply Hnotin. now apply (in_map fst) in Hin.
Qed.

(** What the subfolder loop does to [folders_data]: the entry of the
    folder gains the keys of the subfolders, the other entries and the
    set of folder names stay. *)
Lemma subfolders_loop_entry s3 prefix folder_name types :
  forall data t data' t' inner,
    lookup data folder_name = Some inner ->
    subfolders_loop s3 prefix folder_name types data t = (Ok data', t') ->
    exists inner',
      lookup data' folder_name = Some inner'
      /\ map fst inner'
         = fold_left ListingMore.add_key (map (strip_chars (py "/")) types)
                     (map fst inner)
      /\ (forall other, other <> folder_name ->
                        lookup data' other = lookup data other)
      /\ (NoDup (map fst data) -> NoDup (map fst data')).
Proof.
  induction types as [|subfolder_type types IH];
    intros data t data' t' inner Hinner; simpl.
  - intros [= <- <-]. exists inner. auto.
  - destruct (subfolder_contents s3 prefix subfolder_type t) as [[contents|e] t1];
      [|discriminate].
    rewrite Hinner. intros Hrun.
    destruct (IH _ _ _ _ _ (lookup_store_same data folder_name _) Hrun)
      as (inner' & Hlookup & Hkeys & Hother & Hnodup).
    exists inner'. split; [exact Hlookup|]. split; [|split].
    + now rewrite Hkeys, store_keys.
    + intros other Hne. rewrite (Hother _ Hne). now apply lookup_store_other.
    + intros H. apply Hnodup. rewrite store_keys. now apply add_key_NoDup.
Qed.

Lemma prefixes_loop_entries s3 prefixes :
  forall data t data' t',
    NoDup (map fst data) ->
    (forall name inner, lookup data name = Some inner ->
                        map fst inner = subfolder_names) ->
    prefixes_loop s3 prefixes data t = (Ok data', t') ->
    NoDup (map fst data')
    /\ (forall name inner, lookup data' name = Some inner ->
                           map fst inner = subfolder_names).
Proof.
  induction prefixes as [|prefix prefixes IH];
    intros data t data' t' Hnodup Hkeys; cbn [prefixes_loop].
  - now intros [= <- <-].
  - destruct (folder_name_of prefix) as [folder_name|e]; [|discriminate].
    cbv zeta.
    destruct (subfolders_loop _ _ _ _ _ _) as [[data1|e] t1] eqn:Esub;
      [|discriminate].
    destruct (@subfolders_loop_entry s3 prefix folder_name SUBFOLDER_TYPES
                _ _ _ _ _ (lookup_store_same data folder_name []) Esub)
      as (inner' & Hlookup & Hinner & Hother & Hnodup1).
    apply IH.
    + apply Hnodup1. rewrite store_keys. now apply add_key_NoDup.
    + intros name inner Hname.
      destruct (list_eq_dec N.eq_dec name folder_name) as [Heq|Hne].
      * subst name.
        assert (H : Some inner = Some inner')
          by (etransitivity; [symmetry; exact Hname | exact Hlookup]).
        injection H as ->. exact Hinner.
      * apply (Hkeys name).
        etransitivity;
          [symmetry; apply (@lookup_store_other _ data folder_name [] name Hne)|].
        etransitivity; [symmetry; exact (Hother _ Hne) | exact Hname].
Qed.

(** X21. Whatever the bucket holds, when
    [get_s3_folders_and_contents] returns, every folder of its result
    has exactly the four subfolders [text], [warc], [wat], [wet], in
    this order, also those under which nothing is listed; and no
    folder name occurs twice: prefixes that clean to the same name
    share one entry, the later replacing the earlier. *)
Theorem get_s3_folders_and_contents_shape s3 t data t' :
  get_s3_folders_and_contents s3 t = (Ok data, t') ->
  NoDup (map fst data)
  /\ Forall (fun folder => map fst (snd folder) = subfolder_names) data.
Proof.
  unfold get_s3_folders_and_contents.
  destruct (get_all_folders s3) as [prefixes|e]; [|discriminate].
  intros Hrun.
  destruct (@prefixes_loop_entries s3 prefixes [] t data t') as [Hnodup Hkeys];
    [constructor | discriminate | exact Hrun |].
  split; [exact Hnodup|]. apply Forall_forall. intros [name inner] Hin.
  exact (Hkeys _ _ (In_lookup _ _ _ Hnodup Hin)).
Qed.

End ListingFacts.

(** The prefix [crawl-data/'CC-MAIN-2024-30'/] names the folder
    [CC-MAIN-2024-30]. *)
Lemma folder_name_of_prefix_witness :
  ~ In 47%N (py "'CC-MAIN-2024-30'")
  /\ Listing.folder_name_of
       {| Listing.Prefix := py "crawl-data/'CC-MAIN-2024-30'/" |}
     = Ok (py "CC-MAIN-2024-30")
  /\ Listing.folder_name_of {| Listing.Prefix := py "'CC-MAIN-2024-30'" |}
     = Raise (Error "IndexError").
Proof.
  assert (Hname : ~ In 47%N (py "'CC-MAIN-2024-30'")).
  { vm_compute. intuition discriminate. }
  split; [exact Hname|].
  destruct (@folder_name_of_prefix (py "crawl-data") (py "'CC-MAIN-2024-30'") Hname)
    as (_ & Hnested & Hnone).
  split; [exact Hnested | exact Hnone].
Defined.

#[local] Existing Instance ListingMore.environment.


(** The sample bucket: one folder, [seg], with its four subfolders. *)
Lemma get_s3_folders_and_contents_shape_witness :
  exists data t',
    Listing.get_s3_folders_and_contents (L := DecoderMore.libraries)
      ListingMore.s3 [] = (Ok data, t')
    /\ map fst data = [py "seg"]
    /\ NoDup (map fst data)
    /\ Forall (fun folder => map fst (snd folder) = Listing.subfolder_names) data.
Proof.
  destruct (Listing.get_s3_folders_and_contents (L := DecoderMore.libraries)
              ListingMore.s3 []) as [[data|e] t'] eqn:Erun;
    [|vm_compute in Erun; discriminate Erun].
  exists data, t'. split; [reflexivity|].
  split; [vm_compute in Erun; now injection Erun as <- _|].
  exact (@get_s3_folders_and_contents_shape DecoderMore.libraries
           ListingMore.environment ListingMore.s3 [] data t' Erun).
Defined.

(** ** Writing the sheets *)

Section SheetsFacts.
Import Sheets.
Context {G WS : Type} {service : Spreadsheet G WS}.
Variable uniform01 : nat -> Q.

Lemma written_app (l m : list (event WS)) : written (l ++ m) = written l ++ written m.
Proof. unfold written. apply flat_map_app. Qed.

Lemma written_failed (l : list (event WS)) :
  forallb failed_attempt_event l = true -> written l = [].
Proof.
  induction l as [|ev l IH]; [reflexivity|]. simpl.
  intros H. apply andb_prop in H as [Hev Hl]. rewrite (IH Hl).
  destruct ev as [[| | | | | |] [e|]| | | | | |]; try discriminate; reflexivity.
Qed.

(** One attempt of [update]: it clears, writes and sleeps a second, or
    it raises having cleared at most. *)
Lemma update_closure_cases ws data (st : state G WS) :
  (exists st',
      update_closure ws data st = (Ok tt, st')
      /\ log st' = log st ++ success_log ws data)
  \/ (exists e st' failed,
         update_closure ws data st = (Raise e, st')
         /\ log st' = log st ++ failed
         /\ forallb failed_attempt_event failed = true).
Proof.
  unfold update_closure, api, emit. cbn [remote log].
  destruct (clear ws (remote st)) as [[[]|e] g1]; cbn [remote log].
  - destruct (update ws (py "A1") data g1) as [[[]|e] g2]; cbn [remote log].
    + left. eexists. split; [reflexivity|]. cbn [log].
      now rewrite <- !app_assoc.
    + right. eexists e, _, [_; _]. split; [reflexivity|]. cbn [log].
      now rewrite <- !app_assoc.
  - right. eexists e, _, [_]. split; [reflexivity|]. now cbn [log].
Qed.

(** The retry loop around [update]: failed attempts, then either a
    successful one or nothing more. *)
Lemma retry_update_shape ws data max attempts :
  forall (st : state G WS) p r st' p',
    Retry.retry_loop uniform01 (update_closure ws data) max attempts st p
    = (r, st', p') ->
    exists earlier,
      forallb failed_attempt_event earlier = true
      /\ log st' = log st ++ earlier
                   ++ match r with Ok _ => success_log ws data | Raise _ => [] end.
Proof.
  induction attempts as [|attempt attempts IH]; intros st p r st' p'; simpl.
  - intros [= <- <- _]. exists []. now rewrite app_nil_r.
  - destruct (update_closure_cases ws data st)
      as [(st1 & -> & Hlog)|(e & st1 & failed & -> & Hlog & Hfailed)].
    + intros [= <- <- _]. exists []. now split.
    + assert (Hstop : (Raise e, st1, Retry.emit Retry.Invoke p) = (r, st', p') ->
                      exists earlier,
                        forallb failed_attempt_event earlier = true
                        /\ log st' = log st ++ earlier
                                     ++ match r with
                                        | Ok _ => success_log ws data
                                        | Raise _ => []
                                        end).
      { intros [= <- <- _]. exists failed. now rewrite app_nil_r. }
      destruct e as [status_code| |]; try exact Hstop.
      destruct (status_code =? 429)%Z; [|exact Hstop].
      destruct (Retry.exponential_backoff uniform01 attempt _) as [[[]|e] p1].
      * intros Hrun. destruct (IH _ _ _ _ _ Hrun) as (earlier & Hearlier & Hlog').
        exists (failed ++ earlier). rewrite forallb_app, Hfailed, Hearlier.
        split; [reflexivity|]. now rewrite Hlog', Hlog, <- !app_assoc.
      * intros [= <- <- _]. exists failed. now rewrite app_nil_r.
Qed.

(** X22. [update_sheet_with_retry] writes the data exactly once or
    not at all.  When it returns, its last calls were a [clear] of the
    sheet and an [update] of the data at [A1] that both went through,
    followed by a second of sleep, and everything before were clears
    and refused updates.  When it raises, no [update] went through:
    the sheet is left as the last [clear] or refused call left it. *)
Theorem update_sheet_with_retry_writes_once ws data (st : state G WS) p :
  exists r st' p' earlier,
    update_sheet_with_retry uniform01 ws data st p = (r, st', p')
    /\ forallb failed_attempt_event earlier = true
    /\ match r with
       | Ok _ =>
           log st' = log st ++ earlier ++ success_log ws data
           /\ written (log st') = written (log st) ++ [data]
       | Raise _ =>
           log st' = log st ++ earlier
           /\ written (log st') = written (log st)
       end.
Proof.
  unfold update_sheet_with_retry, Retry.retry_with_backoff.
  destruct (Retry.retry_loop uniform01 (update_closure ws data) 5 (range 5) st p)
    as [[r st'] p'] eqn:Hrun.
  destruct (retry_update_shape _ _ _ _ _ _ Hrun) as (earlier & Hearlier & Hlog).
  exists r, st', p', earlier. split; [reflexivity|]. split; [exact Hearlier|].
  destruct r as [[]|e]; rewrite Hlog, ?app_nil_r; (split; [reflexivity|]);
    rewrite !written_app, (written_failed _ Hearlier); simpl;
    now rewrite ?app_nil_r.
Qed.

Section Refused.
Variables (ws : WS) (data : table).
(** The sheet can be cleared, and every [update] of it is answered
    with HTTP 429. *)
Hypothesis clear_works : forall g, fst (clear ws g) = Ok tt.
Hypothesis update_refused :
  forall g, fst (update ws (py "A1") data g) = Raise (APIError 429).

Lemma update_closure_refused (st : state G WS) :
  exists st',
    update_closure ws data st = (Raise (APIError 429), st')
    /\ log st' = log st ++ refused_log ws data.
Proof.
  unfold update_closure, api. cbn [remote log].
  pose proof (clear_works (remote st)) as Hc.
  destruct (clear ws (remote st)) as [r1 g1]. simpl in Hc. subst r1.
  cbn [remote log].
  pose proof (update_refused g1) as Hu.
  destruct (update ws (py "A1") data g1) as [r2 g2]. simpl in Hu. subst r2.
  eexists. split; [reflexivity|]. cbn [log]. now rewrite <- app_assoc.
Qed.

Lemma retry_update_refused max attempts :
  Forall (fun attempt => attempt < 1024) attempts ->
  forall (st : state G WS) p,
  exists st' p',
    Retry.retry_loop uniform01 (update_closure ws data) max attempts st p
    = (Raise Retry.retry_exhausted, st', p')
    /\ log st' = log st ++ concat (repeat (refused_log ws data) (length attempts))
    /\ length (Retry.sleeps (Retry.trace p'))
       = length (Retry.sleeps (Retry.trace p)) + length attempts.
Proof.
  induction 1 as [|attempt attempts Hlow _ IH]; intros st p; simpl.
  - exists st, p. rewrite app_nil_r. auto.
  - destruct (update_closure_refused st) as (st1 & -> & Hlog). simpl.
    rewrite exponential_backoff_sleeps by exact Hlow.
    match goal with
    | |- context [Retry.retry_loop _ _ _ _ _ ?q] =>
        destruct (IH st1 q) as (st' & p' & -> & Hlog' & Hsleeps)
    end.
    exists st', p'. split; [reflexivity|]. split.
    + now rewrite Hlog', Hlog, <- app_assoc.
    + rewrite Hsleeps. unfold Retry.emit. simpl.
      rewrite !sleeps_app, !length_app. simpl. lia.
Qed.

(** X23. When the sheet can be cleared but every [update] of it is
    rate limited, [update_sheet_with_retry] clears the sheet five
    times, writes nothing, sleeps its five backoffs and raises "Max
    retry attempts reached": what the sheet held before is gone and
    the new data is not there. *)
Theorem update_sheet_with_retry_refused (st : state G WS) p :
  exists st' p',
    update_sheet_with_retry uniform01 ws data st p
    = (Raise Retry.retry_exhausted, st', p')
    /\ log st' = log st ++ concat (repeat (refused_log ws data) 5)
    /\ written (log st') = written (log st)
    /\ length (Retry.sleeps (Retry.trace p'))
       = length (Retry.sleeps (Retry.trace p)) + 5.
Proof.
  assert (Hlow : Forall (fun attempt => attempt < 1024) (range 5)).
  { repeat constructor; lia. }
  destruct (retry_update_refused 5 Hlow st p)
    as (st' & p' & Hrun & Hlog & Hsleeps).
  exists st', p'. split; [exact Hrun|]. split; [exact Hlog|].
  split; [|exact Hsleeps]. rewrite Hlog, written_app. simpl.
  now rewrite app_nil_r.
Qed.

End Refused.

Lemma writes_tables_ret {A} (a : A) : writes_tables [] (ret (G:=G) (WS:=WS) a).
Proof. intros st p a' st' p' [= _ <- _]. now rewrite app_nil_r. Qed.

Lemma writes_tables_bind {A B} t1 t2 (m : S G WS A) (f : A -> S G WS B) :
  writes_tables t1 m -> (forall a, writes_tables t2 (f a)) ->
  writes_tables (t1 ++ t2) (bind m f).
Proof.
  intros Hm Hf st p b st' p'. unfold bind.
  destruct (m st p) as [[[a|e] st1] p1] eqn:Em; [|discriminate].
  intros Hfa. rewrite (Hf _ _ _ _ _ _ Hfa), (Hm _ _ _ _ _ Em).
  now rewrite app_assoc.
Qed.

Lemma writes_tables_step {A} (f : state G WS -> result A * state G WS) :
  (forall st, written (log (snd (f st))) = written (log st)) ->
  writes_tables [] (step f).
Proof.
  intros Hf st p a st' p'. unfold step. specialize (Hf st).
  destruct (f st) as [x st1]. intros [= _ <- _]. simpl in Hf.
  now rewrite app_nil_r.
Qed.

Lemma written_api {A} (r : request WS) (call : G -> result A * G) (st : state G WS) :
  (forall ws range_name values, r <> Update ws range_name values) ->
  written (log (snd (api r call st))) = written (log st).
Proof.
  intros Hr. unfold api. destruct (call (remote st)) as [x g]. cbn [snd log].
  rewrite written_app. simpl.
  destruct r; try (now rewrite app_nil_r). now destruct (Hr ws range_name values).
Qed.

Lemma writes_tables_say (ev : event WS) :
  written [ev] = [] -> writes_tables [] (say (G:=G) ev).
Proof.
  intros Hev. apply writes_tables_step. intros st. cbn [snd emit log].
  now rewrite written_app, Hev, app_nil_r.
Qed.

Lemma writes_tables_worksheet_for sheet_name :
  writes_tables [] (worksheet_for sheet_name).
Proof.
  intros st p ws st' p'. unfold worksheet_for.
  pose proof (@written_api _ (Worksheet sheet_name) (worksheet sheet_name) st
                ltac:(discriminate)) as H1.
  destruct (api (Worksheet sheet_name) (worksheet sheet_name) st)
    as [[ws1|e] st1]; cbn [snd] in H1.
  - intros [= _ <- _]. now rewrite app_nil_r.
  - destruct (is_worksheet_not_found e); [|discriminate].
    pose proof (@written_api _ (AddWorksheet sheet_name 1000 20)
                  (add_worksheet sheet_name 1000 20) st1 ltac:(discriminate)) as H2.
    destruct (api (AddWorksheet sheet_name 1000 20) _ st1) as [[ws2|e2] st2];
      [|discriminate].
    cbn [snd] in H2. intros [= _ <- _]. cbn [emit log].
    rewrite written_app, H2, H1. simpl. now rewrite !app_nil_r.
Qed.

Lemma writes_tables_update ws data :
  writes_tables [data] (update_sheet_with_retry uniform01 ws data).
Proof.
  intros st p [] st' p' Hrun.
  unfold update_sheet_with_retry, Retry.retry_with_backoff in Hrun.
  destruct (retry_update_shape _ _ _ _ _ _ Hrun) as (earlier & Hearlier & Hlog).
  rewrite Hlog, !written_app, (written_failed _ Hearlier). reflexivity.
Qed.

Lemma writes_tables_subfolders timestamp folder_name subfolder_data :
  writes_tables
    (map (fun sub => sheet_data (sheet_name_of folder_name (fst sub))
                                timestamp (snd sub))
         subfolder_data)
    (subfolders_loop uniform01 timestamp folder_name subfolder_data).
Proof.
  induction subfolder_data as [|[subfolder_type contents] rest IH]; simpl.
  - apply writes_tables_ret.
  - apply (writes_tables_bind (t1 := [])); [now apply writes_tables_say|].
    intros _. apply (writes_tables_bind (t1 := []));
      [apply writes_tables_worksheet_for|].
    intros ws. apply (writes_tables_bind (t1 := [_])); [apply writes_tables_update|].
    intros _. apply (writes_tables_bind (t1 := [])); [now apply writes_tables_say|].
    intros _. exact IH.
Qed.

Lemma writes_tables_folders timestamp data :
  writes_tables
    (flat_map (fun folder =>
                 map (fun sub => sheet_data (sheet_name_of (fst folder) (fst sub))
                                            timestamp (snd sub))
                     (snd folder))
              data)
    (folders_loop uniform01 timestamp data).
Proof.
  induction data as [|[folder_name subfolder_data] rest IH]; simpl.
  - apply writes_tables_ret.
  - apply (writes_tables_bind (t1 := [])); [now apply writes_tables_say|].
    intros _. apply writes_tables_bind; [apply writes_tables_subfolders|].
    intros _. exact IH.
Qed.

Lemma update_google_sheets_tables data (st : state G WS) p st' p' :
  update_google_sheets uniform01 data st p = (Ok tt, st', p') ->
  exists timestamp,
    written (log st') = written (log st) ++ tables_of timestamp data.
Proof.
  unfold update_google_sheets, bind at 1 2 3 4, step.
  pose proof (@written_api _ ServiceAccount service_account st ltac:(discriminate)) as H1.
  destruct (api ServiceAccount service_account st) as [[[]|e] st1]; [|discriminate].
  pose proof (@written_api _ OpenByKey open_by_key st1 ltac:(discriminate)) as H2.
  destruct (api OpenByKey open_by_key st1) as [[[]|e] st2]; [|discriminate].
  pose proof (@written_api _ GetSheet1 sheet1 st2 ltac:(discriminate)) as H3.
  destruct (api GetSheet1 sheet1 st2) as [[main_sheet|e] st3]; [|discriminate].
  cbn [snd] in H1, H2, H3.
  destruct (now (remote st3)) as [timestamp g]. intros Hrun.
  exists timestamp.
  pose proof (@writes_tables_bind _ _ [main_data timestamp data] _
                (update_sheet_with_retry uniform01 main_sheet
                   (main_data timestamp data))
                (fun _ => folders_loop uniform01 timestamp data)
                (writes_tables_update main_sheet (main_data timestamp data))
                (fun _ => writes_tables_folders timestamp data)
                _ _ _ _ _ Hrun) as H.
  cbn [log] in H. rewrite H, H3, H2, H1. reflexivity.
Qed.

(** X24. When [update_google_sheets] returns, the tables it has
    written are, in this order and each exactly once: the main sheet
    (the timestamp, the heading, an empty row and one row per folder
    name), then for every folder and every subfolder of it, in the
    order of [folders_data], its sheet (four heading rows and the
    rows of the subfolder). *)
Theorem update_google_sheets_written data (st : state G WS) p st' p' :
  update_google_sheets uniform01 data st p = (Ok tt, st', p') ->
  exists timestamp,
    written (log st') = written (log st) ++ tables_of timestamp data.
Proof. apply update_google_sheets_tables. Qed.

Section Main.
Context {L : Decoder.Libraries} {E : Listing.Environment}.

(** X25. [main] ends by printing one verdict.  If it is the success
    line, the listing returned and all its tables were written, in
    order.  If the listing raised, the error is printed and the
    spreadsheet has not been touched at all; otherwise the error that
    stopped [update_google_sheets] is printed. *)
Theorem main_verdict s3 t (st : state G WS) p :
  let listing := Listing.get_s3_folders_and_contents s3 t in
  let '(t', st', p') := main uniform01 s3 t st p in
  t' = snd listing
  /\ ((exists data before timestamp,
          fst listing = Ok data
          /\ log st' = before ++ [PrintSuccess]
          /\ written (log st') = written (log st) ++ tables_of timestamp data)
      \/ (exists e,
             fst listing = Raise e
             /\ st' = emit (PrintError e) st /\ p' = p)
      \/ (exists data e before,
             fst listing = Ok data
             /\ fst (fst (update_google_sheets uniform01 data st p)) = Raise e
             /\ log st' = before ++ [PrintError e])).
Proof.
  intros listing. unfold main. subst listing.
  destruct (Listing.get_s3_folders_and_contents s3 t) as [[data|e] t1]; cbn [fst snd].
  - destruct (update_google_sheets uniform01 data st p) as [[[[]|e] st1] p1] eqn:Hrun.
    + split; [reflexivity|]. left.
      destruct (update_google_sheets_tables _ _ _ Hrun) as (timestamp & Hw).
      exists data, (log st1), timestamp. split; [reflexivity|].
      split; [reflexivity|]. cbn [emit log]. rewrite written_app, Hw. simpl.
      now rewrite app_nil_r.
    + split; [reflexivity|]. right. right.
      exists data, e, (log st1). rewrite Hrun.
      split; [reflexivity|]. split; reflexivity.
  - split; [reflexivity|]. right. left. exists e.
    split; [reflexivity|]. split; reflexivity.
Qed.

End Main.

End SheetsFacts.

(** The throttled spreadsheet: last week's report on the first sheet
    is cleared five times and nothing is written. *)
Lemma update_sheet_with_retry_refused_witness :
  let data := [[py "Timestamp:"; py "2024-12-25 12:00:00"]] in
  (forall g, fst (Sheets.clear (Spreadsheet := Sheets.google true) (py "Sheet1") g)
             = Ok tt)
  /\ (forall g, fst (Sheets.update (Spreadsheet := Sheets.google true)
                       (py "Sheet1") (py "A1") data g) = Raise (APIError 429))
  /\ exists st' p',
      Sheets.update_sheet_with_retry (service := Sheets.google true)
        Retry.half_jitter (py "Sheet1") data Sheets.last_week Retry.idle
      = (Raise Retry.retry_exhausted, st', p')
      /\ Sheets.written (Sheets.log st') = []
      /\ length (Retry.sleeps (Retry.trace p')) = 5.
Proof.
  intros data.
  assert (Hclear : forall g,
             fst (Sheets.clear (Spreadsheet := Sheets.google true) (py "Sheet1") g)
             = Ok tt) by reflexivity.
  assert (Hupdate : forall g,
             fst (Sheets.update (Spreadsheet := Sheets.google true)
                    (py "Sheet1") (py "A1") data g) = Raise (APIError 429))
    by reflexivity.
  split; [exact Hclear|]. split; [exact Hupdate|].
  destruct (@update_sheet_with_retry_refused _ _ (Sheets.google true)
              Retry.half_jitter (py "Sheet1") data Hclear Hupdate
              Sheets.last_week Retry.idle)
    as (st' & p' & Hrun & _ & Hwritten & Hsleeps).
  exists st', p'. split; [exact Hrun|]. split; [exact Hwritten | exact Hsleeps].
Defined.

(** One folder with two subfolders on a spreadsheet that works: three
    tables written, the main sheet first. *)
Lemma update_google_sheets_written_witness :
  let row := [py "a.wat.gz"; py "2024-12-25"; py "http://a.example/"; py "WAT"; py "{}"] in
  let data := [(py "seg", [(py "text", []); (py "wat", [row])])] in
  exists st' p',
    Sheets.update_google_sheets (service := Sheets.google false)
      Retry.half_jitter data Sheets.last_week Retry.idle = (Ok tt, st', p')
    /\ Sheets.written (Sheets.log st')
       = Sheets.tables_of (py "2024-12-25 12:00:00") data
    /\ map fst (Sheets.remote st') = [py "Sheet1"; py "seg.text"; py "seg.wat"].
Proof.
  intros row data.
  destruct (Sheets.update_google_sheets (service := Sheets.google false)
              Retry.half_jitter data Sheets.last_week Retry.idle)
    as [[[[]|e] st'] p'] eqn:Hrun; [|vm_compute in Hrun; discriminate Hrun].
  exists st', p'. split; [reflexivity|].
  destruct (@update_google_sheets_written _ _ (Sheets.google false)
              Retry.half_jitter data Sheets.last_week Retry.idle st' p' Hrun)
    as (timestamp & Hwritten).
  vm_compute in Hrun. injection Hrun as <- _.
  split; reflexivity.
Defined.
